(** * HomeschoolHub landing page: form validation and contact-form submission

    A shallow embedding of the validation utilities module
    ([sanitizeString], [validateEmail], [validatePhone], ...) and of the
    contact form module ([validationRules], [checkHoneypot], [validateForm],
    [handleFormSubmit]) together with the properties stated about them. *)

From Stdlib Require Import NArith Ascii String List Bool Lia.
From stdpp Require Import gmap list.

Local Open Scope N_scope.

(** ** JavaScript strings and values

    A JavaScript string is a sequence of UTF-16 code units; [length] is the
    [.length] property. *)

Abbreviation jsstring := (list N).

(** String literals of the source, written with their Basic Latin text. *)
Definition js (s : string) : jsstring :=
  map N_of_ascii (list_ascii_of_string s).

(** The values a caller can pass where the source expects a string. *)
Inductive jsvalue : Type :=
| JSUndefined
| JSNull
| JSBoolean (b : bool)
| JSNumber (n : Z)
| JSObject (ref : nat)
| JSString (s : jsstring).

Inductive jstype : Type :=
| TUndefined | TObject | TBoolean | TNumber | TString.

(** [typeof value] *)
Definition typeof (v : jsvalue) : jstype :=
  match v with
  | JSUndefined => TUndefined
  | JSNull => TObject
  | JSBoolean _ => TBoolean
  | JSNumber _ => TNumber
  | JSObject _ => TObject
  | JSString _ => TString
  end.

(** [typeof v === 'string'] *)
Definition isString (v : jsvalue) : bool :=
  match typeof v with TString => true | _ => false end.

(** ECMAScript WhiteSpace and LineTerminator code points: what
    [String.prototype.trim] removes and what the class [\s] matches. *)
Definition isWhiteSpace (c : N) : bool :=
  (c =? 0x09) || (c =? 0x0A) || (c =? 0x0B) || (c =? 0x0C) || (c =? 0x0D)
  || (c =? 0x20) || (c =? 0xA0) || (c =? 0x1680)
  || ((0x2000 <=? c) && (c <=? 0x200A))
  || (c =? 0x2028) || (c =? 0x2029) || (c =? 0x202F) || (c =? 0x205F)
  || (c =? 0x3000) || (c =? 0xFEFF).

(** The class [[\x00-\x1F\x7F]]. *)
Definition isControl (c : N) : bool :=
  (c <=? 0x1F) || (c =? 0x7F).

(** The class [\d]. *)
Definition isDigit (c : N) : bool :=
  (0x30 <=? c) && (c <=? 0x39).

Definition isUpper (c : N) : bool := (0x41 <=? c) && (c <=? 0x5A).
Definition isLower (c : N) : bool := (0x61 <=? c) && (c <=? 0x7A).
Definition isAlnum (c : N) : bool := isLower c || isUpper c || isDigit c.

Fixpoint trimStart (s : jsstring) : jsstring :=
  match s with
  | c :: s' => if isWhiteSpace c then trimStart s' else s
  | [] => []
  end.

Definition trimEnd (s : jsstring) : jsstring := rev (trimStart (rev s)).

(** [s.trim()] *)
Definition trim (s : jsstring) : jsstring := trimEnd (trimStart s).

(** [s.replace(/[\x00-\x1F\x7F]/g, '')] *)
Definition stripControl (s : jsstring) : jsstring :=
  List.filter (fun c => negb (isControl c)) s.

(** [s.split(sep)] for a one-character separator. *)
Fixpoint split (sep : N) (s : jsstring) : list jsstring :=
  match s with
  | [] => [[]]
  | c :: s' =>
      if c =? sep then [] :: split sep s'
      else match split sep s' with
           | p :: ps => (c :: p) :: ps
           | [] => [[c]]
           end
  end.

(** [s.slice(from, to)] and [s.slice(from)] for the non-negative literal
    indices the source uses. *)
Definition slice (from to : nat) (s : jsstring) : jsstring :=
  firstn (to - from) (skipn from s).

Definition sliceFrom (from : nat) (s : jsstring) : jsstring := skipn from s.

(** [a === b] on strings. *)
Fixpoint strictEq (a b : jsstring) : bool :=
  match a, b with
  | [], [] => true
  | x :: a', y :: b' => (x =? y) && strictEq a' b'
  | _, _ => false
  end.

(** [arr.includes(x)] on an array of strings. *)
Definition includes (arr : list jsstring) (x : jsstring) : bool :=
  existsb (strictEq x) arr.

(** [!s] on a string. *)
Definition isEmpty (s : jsstring) : bool :=
  match s with [] => true | _ => false end.

(** The Basic Latin part of [String.prototype.toLowerCase]. *)
Definition lowerBasicLatin (c : N) : N :=
  if isUpper c then c + 32 else c.

Definition isBasicLatin (c : N) : bool := c <? 0x80.

(** ** Regular expressions

    The regular expressions of the source are anchored with [^] and [$], so
    [re.test(s)] is membership of the whole of [s] in the language of the
    pattern. Patterns are kept as syntax trees and run by derivatives. *)

Module Regex.

Inductive regex : Type :=
| Void
| Eps
| Cls (p : N -> bool)
| Seq (r1 r2 : regex)
| Alt (r1 r2 : regex)
| Star (r : regex).

(** [c] *)
Definition Chr (c : N) : regex := Cls (N.eqb c).
(** [r+] *)
Definition Plus (r : regex) : regex := Seq r (Star r).
(** [(?:r)?] *)
Definition Opt (r : regex) : regex := Alt r Eps.
(** [r{0,n}] *)
Fixpoint Upto (n : nat) (r : regex) : regex :=
  match n with
  | O => Eps
  | S n' => Opt (Seq r (Upto n' r))
  end.

Fixpoint nullable (r : regex) : bool :=
  match r with
  | Void => false
  | Eps => true
  | Cls _ => false
  | Seq r1 r2 => nullable r1 && nullable r2
  | Alt r1 r2 => nullable r1 || nullable r2
  | Star _ => true
  end.

Definition mkSeq (r1 r2 : regex) : regex :=
  match r1 with
  | Void => Void
  | _ => Seq r1 r2
  end.

Definition mkAlt (r1 r2 : regex) : regex :=
  match r1, r2 with
  | Void, _ => r2
  | _, Void => r1
  | _, _ => Alt r1 r2
  end.

Fixpoint deriv (c : N) (r : regex) : regex :=
  match r with
  | Void => Void
  | Eps => Void
  | Cls p => if p c then Eps else Void
  | Seq r1 r2 =>
      if nullable r1
      then mkAlt (mkSeq (deriv c r1) r2) (deriv c r2)
      else mkSeq (deriv c r1) r2
  | Alt r1 r2 => mkAlt (deriv c r1) (deriv c r2)
  | Star r' => mkSeq (deriv c r') (Star r')
  end.

(** [re.test(s)] for an anchored pattern [re]. *)
Fixpoint test (re : regex) (s : jsstring) : bool :=
  match s with
  | [] => nullable re
  | c :: s' => test (deriv c re) s'
  end.

(** The language of a pattern. *)
Inductive Matches : regex -> jsstring -> Prop :=
| MEps : Matches Eps []
| MCls p c : p c = true -> Matches (Cls p) [c]
| MSeq r1 r2 s1 s2 :
    Matches r1 s1 -> Matches r2 s2 -> Matches (Seq r1 r2) (s1 ++ s2)
| MAltL r1 r2 s : Matches r1 s -> Matches (Alt r1 r2) s
| MAltR r1 r2 s : Matches r2 s -> Matches (Alt r1 r2) s
| MStarNil r : Matches (Star r) []
| MStarApp r s1 s2 :
    Matches r s1 -> Matches (Star r) s2 -> Matches (Star r) (s1 ++ s2).

(** Every character class of the pattern lies within [q]. *)
Fixpoint classes_within (q : N -> bool) (r : regex) : Prop :=
  match r with
  | Cls p => forall c, p c = true -> q c = true
  | Seq r1 r2 | Alt r1 r2 => classes_within q r1 /\ classes_within q r2
  | Star r' => classes_within q r'
  | Void | Eps => True
  end.

End Regex.

(** ** The validation utilities module *)

Module Validation.

Import Regex.

(** The character class of the local part of [EMAIL_REGEX]. *)
Definition emailLocalChar (c : N) : bool :=
  isAlnum c || existsb (N.eqb c) (js ".!#$%&'*+/=?^_`{|}~-").

Definition alnumOrHyphen (c : N) : bool := isAlnum c || (c =? 0x2D).

(** [[a-zA-Z0-9](?:[a-zA-Z0-9-]{0,61}[a-zA-Z0-9])?] *)
Definition domainLabel : regex :=
  Seq (Cls isAlnum) (Opt (Seq (Upto 61 (Cls alnumOrHyphen)) (Cls isAlnum))).

(** [VALIDATION_CONFIG.EMAIL_REGEX] *)
Definition EMAIL_REGEX : regex :=
  Seq (Plus (Cls emailLocalChar))
    (Seq (Chr 0x40)
       (Seq domainLabel (Star (Seq (Chr 0x2E) domainLabel)))).

Definition phoneChar (c : N) : bool :=
  isDigit c || isWhiteSpace c || (c =? 0x2D) || (c =? 0x28) || (c =? 0x29).

(** [VALIDATION_CONFIG.PHONE_REGEX], [/^[\d\s\-\(\)]+$/] *)
Definition PHONE_REGEX : regex := Plus (Cls phoneChar).

Definition MIN_PHONE_DIGITS : nat := 10.
Definition MAX_PHONE_DIGITS : nat := 15.
Definition MIN_MESSAGE_LENGTH : nat := 10.
Definition MAX_MESSAGE_LENGTH : nat := 1000.
Definition MIN_NAME_LENGTH : nat := 2.
Definition MAX_NAME_LENGTH : nat := 100.

(** [ERROR_MESSAGES] *)
Definition REQUIRED := js "This field is required".
Definition EMAIL_INVALID := js "Please enter a valid email address".
Definition EMAIL_FORMAT := js "Email must be in format: name@domain.com".
Definition PHONE_INVALID := js "Please enter a valid phone number".
Definition PHONE_FORMAT := js "Phone must contain 10-15 digits".
Definition PHONE_CHARACTERS :=
  js "Phone can only contain numbers, spaces, hyphens, and parentheses".
Definition NAME_TOO_SHORT := js "Name must be at least 2 characters".
Definition NAME_TOO_LONG := js "Name cannot exceed 100 characters".
Definition MESSAGE_TOO_SHORT := js "Message must be at least 10 characters".
Definition MESSAGE_TOO_LONG := js "Message cannot exceed 1000 characters".
Definition GRADE_INVALID := js "Please select a valid grade level".

(** [error] is [None] for [null]. *)
Record ValidationResult : Type := {
  isValid : bool;
  error : option jsstring;
  value : jsvalue;
}.

Definition sanitizeString (value : jsvalue) : jsstring :=
  match value with
  | JSString s => stripControl (trim s)
  | _ => []
  end.

Definition validateRequired (value : jsvalue) (fieldName : jsstring)
  : ValidationResult :=
  let sanitized := sanitizeString value in
  if (length sanitized =? 0)%nat then
    {| isValid := false; error := Some REQUIRED; value := JSString sanitized |}
  else
    {| isValid := true; error := None; value := JSString sanitized |}.

(** [phone.replace(/\D/g, '')] *)
Definition normalizePhone (phone : jsvalue) : jsstring :=
  match phone with
  | JSString s => List.filter isDigit s
  | _ => []
  end.

Definition formatPhone (phone : jsvalue) : jsvalue :=
  let digits := normalizePhone phone in
  if (length digits =? 10)%nat then
    JSString (js "(" ++ slice 0 3 digits ++ js ") " ++ slice 3 6 digits
              ++ js "-" ++ sliceFrom 6 digits)
  else if (length digits =? 11)%nat
          && match digits with c :: _ => c =? 0x31 | [] => false end then
    JSString (js "+1 (" ++ slice 1 4 digits ++ js ") " ++ slice 4 7 digits
              ++ js "-" ++ sliceFrom 7 digits)
  else phone.

(** The result of an empty sanitized value, shared by the validators that
    take a [required] flag. *)
Definition emptyResult (required : bool) (sanitized : jsstring)
  : ValidationResult :=
  if required then
    {| isValid := false; error := Some REQUIRED; value := JSString sanitized |}
  else
    {| isValid := true; error := None; value := JSString sanitized |}.

Definition invalid (message sanitized : jsstring) : ValidationResult :=
  {| isValid := false; error := Some message; value := JSString sanitized |}.

(** [required] defaults to [false]. *)
Definition validatePhone (phone : jsvalue) (required : bool)
  : ValidationResult :=
  let sanitized := sanitizeString phone in
  if isEmpty sanitized then emptyResult required sanitized
  else if negb (test PHONE_REGEX sanitized) then
    invalid PHONE_CHARACTERS sanitized
  else
    let digits := normalizePhone (JSString sanitized) in
    if (length digits <? MIN_PHONE_DIGITS)%nat then
      invalid PHONE_FORMAT sanitized
    else if (MAX_PHONE_DIGITS <? length digits)%nat then
      invalid PHONE_FORMAT sanitized
    else
      {| isValid := true; error := None;
         value := formatPhone (JSString sanitized) |}.

(** [required] defaults to [true]. *)
Definition validateName (name : jsvalue) (required : bool)
  : ValidationResult :=
  let sanitized := sanitizeString name in
  if isEmpty sanitized then emptyResult required sanitized
  else if (length sanitized <? MIN_NAME_LENGTH)%nat then
    invalid NAME_TOO_SHORT sanitized
  else if (MAX_NAME_LENGTH <? length sanitized)%nat then
    invalid NAME_TOO_LONG sanitized
  else
    {| isValid := true; error := None; value := JSString sanitized |}.

(** [required] defaults to [true]. *)
Definition validateMessage (message : jsvalue) (required : bool)
  : ValidationResult :=
  let sanitized := sanitizeString message in
  if isEmpty sanitized then emptyResult required sanitized
  else if (length sanitized <? MIN_MESSAGE_LENGTH)%nat then
    invalid MESSAGE_TOO_SHORT sanitized
  else if (MAX_MESSAGE_LENGTH <? length sanitized)%nat then
    invalid MESSAGE_TOO_LONG sanitized
  else
    {| isValid := true; error := None; value := JSString sanitized |}.

Definition validGrades : list jsstring :=
  map js ["k"; "1"; "2"; "3"; "4"; "5"; "6"; "7"; "8"; "9"; "10"; "11"; "12"]%string.

(** [options] of [validateField]; [None] is an absent property. *)
Record Options : Type := {
  opt_required : option bool;
  opt_fieldName : option jsstring;
}.

Section CaseMapping.

(** [String.prototype.toLowerCase], a built-in of the host. *)
Variable toLowerCase : jsstring -> jsstring.

(** [required] defaults to [true]. *)
Definition validateEmail (email : jsvalue) (required : bool)
  : ValidationResult :=
  let sanitized := sanitizeString email in
  if isEmpty sanitized then emptyResult required sanitized
  else if negb (test EMAIL_REGEX sanitized) then
    invalid EMAIL_INVALID sanitized
  else
    let parts := split 0x40 sanitized in
    if negb (length parts =? 2)%nat
       || isEmpty (nth 0 parts []) || isEmpty (nth 1 parts []) then
      invalid EMAIL_FORMAT sanitized
    else
      let localPart := nth 0 parts [] in
      let domain := nth 1 parts [] in
      if (64 <? length localPart)%nat || (255 <? length domain)%nat then
        invalid EMAIL_INVALID sanitized
      else
        {| isValid := true; error := None;
           value := JSString (toLowerCase sanitized) |}.

(** [required] defaults to [true]. *)
Definition validateGrade (grade : jsvalue) (required : bool)
  : ValidationResult :=
  let sanitized := sanitizeString grade in
  if isEmpty sanitized || strictEq sanitized [] then
    emptyResult required sanitized
  else if negb (includes validGrades (toLowerCase sanitized)) then
    invalid GRADE_INVALID sanitized
  else
    {| isValid := true; error := None; value := JSString sanitized |}.

(** The validators do not throw, so the [catch] branch of the source is
    never taken. *)
Definition validateField (value : jsvalue) (type : jsstring)
  (options : Options) : ValidationResult :=
  let required := default true (opt_required options) in
  let fieldName := default (js "Field") (opt_fieldName options) in
  if strictEq type (js "email") then validateEmail value required
  else if strictEq type (js "tel") || strictEq type (js "phone") then
    validatePhone value required
  else if strictEq type (js "textarea") then validateMessage value required
  else if strictEq type (js "select") then validateGrade value required
  else if strictEq type (js "text") || strictEq type (js "name") then
    validateName value required
  else validateRequired value fieldName.

End CaseMapping.

End Validation.

(** ** The contact form module *)

Module Contact.

Import Regex.

(** [CONTACT_CONFIG] *)
Definition VALIDATION_DELAY : N := 500.
Definition SUBMISSION_TIMEOUT : N := 10000.
Definition MIN_MESSAGE_LENGTH : nat := 10.
Definition MAX_MESSAGE_LENGTH : nat := 1000.
Definition HONEYPOT_FIELD : jsstring := js "website".
Definition SUCCESS_DISPLAY_DURATION : N := 5000.

(** [ERROR_MESSAGES] *)
Definition REQUIRED := js "This field is required".
Definition INVALID_EMAIL := js "Please enter a valid email address".
Definition INVALID_PHONE :=
  js "Please enter a valid phone number (10 digits minimum)".
Definition MESSAGE_TOO_SHORT := js "Message must be at least 10 characters".
Definition MESSAGE_TOO_LONG := js "Message must not exceed 1000 characters".
Definition INVALID_GRADE := js "Please select a valid grade level".
Definition SUBMISSION_FAILED := js "Failed to submit form. Please try again.".
Definition NETWORK_ERROR :=
  js "Network error. Please check your connection and try again.".

Definition VALID_GRADES : list jsstring :=
  map js ["pre-k"; "kindergarten"; "grade-1"; "grade-2"; "grade-3";
          "grade-4"; "grade-5"; "grade-6"; "grade-7"; "grade-8"; "grade-9";
          "grade-10"; "grade-11"; "grade-12"]%string.

(** The result of a rule; [error] is [None] for [null]. *)
Record RuleResult : Type := {
  isValid : bool;
  error : option jsstring;
}.

Definition notSpaceOrAt (c : N) : bool := negb (isWhiteSpace c || (c =? 0x40)).

(** [/^[^\s@]+@[^\s@]+\.[^\s@]+$/] *)
Definition emailRegex : regex :=
  Seq (Plus (Cls notSpaceOrAt))
    (Seq (Chr 0x40)
       (Seq (Plus (Cls notSpaceOrAt))
          (Seq (Chr 0x2E) (Plus (Cls notSpaceOrAt))))).

(** [validationRules]; the argument is the [value] of a form control, a
    string. *)
Module validationRules.

Definition parentName (value : jsstring) : RuleResult :=
  let trimmed := trim value in
  if isEmpty trimmed then {| isValid := false; error := Some REQUIRED |}
  else if (length trimmed <? 2)%nat then
    {| isValid := false; error := Some (js "Name must be at least 2 characters") |}
  else {| isValid := true; error := None |}.

Definition email (value : jsstring) : RuleResult :=
  let trimmed := trim value in
  if isEmpty trimmed then {| isValid := false; error := Some REQUIRED |}
  else if negb (test emailRegex trimmed) then
    {| isValid := false; error := Some INVALID_EMAIL |}
  else {| isValid := true; error := None |}.

Definition phone (value : jsstring) : RuleResult :=
  let trimmed := trim value in
  if isEmpty trimmed then {| isValid := true; error := None |}
  else
    let digitsOnly := List.filter isDigit trimmed in
    if (length digitsOnly <? 10)%nat then
      {| isValid := false; error := Some INVALID_PHONE |}
    else {| isValid := true; error := None |}.

Definition gradeLevel (value : jsstring) : RuleResult :=
  let trimmed := trim value in
  if isEmpty trimmed then {| isValid := false; error := Some REQUIRED |}
  else if negb (includes VALID_GRADES trimmed) then
    {| isValid := false; error := Some INVALID_GRADE |}
  else {| isValid := true; error := None |}.

Definition message (value : jsstring) : RuleResult :=
  let trimmed := trim value in
  if isEmpty trimmed then {| isValid := false; error := Some REQUIRED |}
  else if (length trimmed <? MIN_MESSAGE_LENGTH)%nat then
    {| isValid := false; error := Some MESSAGE_TOO_SHORT |}
  else if (MAX_MESSAGE_LENGTH <? length trimmed)%nat then
    {| isValid := false; error := Some MESSAGE_TOO_LONG |}
  else {| isValid := true; error := None |}.

End validationRules.

(** [validationRules[fieldName]] for a name that is no member of
    [Object.prototype]: the rule the object defines under it, or
    [undefined].  Under the name of a member ([constructor], [toString],
    [__proto__] and the like) the source finds the inherited member, which
    is no rule; controls so named are outside the model, and what is proved
    of the verdict of a rule excludes them. *)
Definition lookupRule (fieldName : jsstring)
  : option (jsstring -> RuleResult) :=
  if strictEq fieldName (js "parentName") then Some validationRules.parentName
  else if strictEq fieldName (js "email") then Some validationRules.email
  else if strictEq fieldName (js "phone") then Some validationRules.phone
  else if strictEq fieldName (js "gradeLevel") then
    Some validationRules.gradeLevel
  else if strictEq fieldName (js "message") then Some validationRules.message
  else None.

(** *** The page

    The part of the document the module reads and writes: the controls of
    the form that carry a [name] attribute, in document order, each with the
    element its [aria-describedby] refers to (if any); the submit button;
    the [#form-message] container. *)

Record ErrorElement : Type := {
  err_textContent : jsstring;
  err_visible : bool;
}.

Record Field : Type := {
  name : jsstring;
  value : jsstring;
  defaultValue : jsstring;
  class_error : bool;
  aria_invalid : option jsstring;
  errorElement : option ErrorElement;
}.

Record Button : Type := {
  disabled : bool;
  textContent : jsstring;
  aria_busy : option jsstring;
}.

Inductive Markup : Type :=
| OtherMarkup
| SuccessMessage
| ErrorMessage (message : jsstring).

Record Container : Type := {
  innerHTML : Markup;
  visible : bool;
}.

Record Form : Type := {
  fields : list Field;
  submitButton : option Button;
}.

(** [formState] *)
Record FormState : Type := {
  isSubmitting : bool;
  validationErrors : gmap jsstring (option jsstring);
  touchedFields : gset jsstring;
}.

Inductive Level : Type := Log | Warn | Error.

(** What a handler does besides writing to the page: calls on the event, the
    console, the submission endpoint, and the timers it arms (a screen-reader
    announcement is a live region added to the body and removed after a
    second). Console lines keep their message and drop their data. *)
Inductive Effect : Type :=
| PreventDefault
| Console (level : Level) (message : string)
| AnnounceToScreenReader (message : jsstring)
| HideContainerAfter (delay : N)
| SubmitFormData (data : list (jsstring * jsstring)).

Record World : Type := {
  formState : FormState;
  form : Form;
  messageContainer : option Container;
  activeElement : option nat;
  clock : jsstring;
  userAgent : jsstring;
  trace : list Effect;
}.

(** *** Handlers as state transformers *)

Definition M (A : Type) : Type := World -> A * World.

Definition ret {A} (a : A) : M A := fun w => (a, w).

Definition bind {A B} (m : M A) (k : A -> M B) : M B :=
  fun w => let (a, w') := m w in k a w'.

Definition get : M World := fun w => (w, w).

Definition modify (f : World -> World) : M unit := fun w => (tt, f w).

Notation "x <- c ;; k" := (bind c (fun x => k))
  (at level 100, c at next level, right associativity).
Notation "c ;; k" := (bind c (fun _ => k))
  (at level 100, right associativity).

Definition setFormState (f : FormState -> FormState) : M unit :=
  modify (fun w =>
    {| formState := f (formState w); form := form w;
       messageContainer := messageContainer w;
       activeElement := activeElement w; clock := clock w;
       userAgent := userAgent w; trace := trace w |}).

Definition setForm (f : Form -> Form) : M unit :=
  modify (fun w =>
    {| formState := formState w; form := f (form w);
       messageContainer := messageContainer w;
       activeElement := activeElement w; clock := clock w;
       userAgent := userAgent w; trace := trace w |}).

Definition setContainer (c : Container) : M unit :=
  modify (fun w =>
    {| formState := formState w; form := form w;
       messageContainer := Some c;
       activeElement := activeElement w; clock := clock w;
       userAgent := userAgent w; trace := trace w |}).

Definition focus (i : nat) : M unit :=
  modify (fun w =>
    {| formState := formState w; form := form w;
       messageContainer := messageContainer w;
       activeElement := Some i; clock := clock w;
       userAgent := userAgent w; trace := trace w |}).

(** The page [w] after the effects [es], the page itself unchanged. *)
Definition extend (w : World) (es : list Effect) : World :=
  {| formState := formState w; form := form w;
     messageContainer := messageContainer w;
     activeElement := activeElement w; clock := clock w;
     userAgent := userAgent w; trace := trace w ++ es |}.

Definition emit (e : Effect) : M unit :=
  modify (fun w => extend w [e]).

Definition setField (i : nat) (f : Field -> Field) : M unit :=
  setForm (fun fm =>
    {| fields := alter f i (fields fm); submitButton := submitButton fm |}).

Definition setButton (f : Button -> Button) : M unit :=
  setForm (fun fm =>
    {| fields := fields fm; submitButton := f <$> submitButton fm |}).

Definition announceToScreenReader (message : jsstring) : M unit :=
  emit (AnnounceToScreenReader message).

(** [field] is the control at position [i]; a position outside the form
    stands for a null reference. Assigning [null] to [textContent] empties
    it. *)
Definition showFieldError (i : nat) (errorMessage : option jsstring)
  : M unit :=
  w <- get ;;
  match fields (form w) !! i with
  | None => emit (Console Error "[Contact] Cannot show error: field is null")
  | Some field =>
      setField i (fun f =>
        {| name := name f; value := value f; defaultValue := defaultValue f;
           class_error := true; aria_invalid := Some (js "true");
           errorElement :=
             (fun _ => {| err_textContent := default [] errorMessage;
                          err_visible := true |}) <$> errorElement f |}) ;;
      match errorElement field with
      | Some _ => announceToScreenReader (default [] errorMessage)
      | None => ret tt
      end ;;
      setFormState (fun st =>
        {| isSubmitting := isSubmitting st;
           validationErrors :=
             <[name field := errorMessage]> (validationErrors st);
           touchedFields := touchedFields st |}) ;;
      emit (Console Log "[Contact] Validation error shown")
  end.

Definition clearFieldError (i : nat) : M unit :=
  w <- get ;;
  match fields (form w) !! i with
  | None => emit (Console Error "[Contact] Cannot clear error: field is null")
  | Some field =>
      setField i (fun f =>
        {| name := name f; value := value f; defaultValue := defaultValue f;
           class_error := false; aria_invalid := None;
           errorElement :=
             (fun _ => {| err_textContent := []; err_visible := false |})
               <$> errorElement f |}) ;;
      setFormState (fun st =>
        {| isSubmitting := isSubmitting st;
           validationErrors := delete (name field) (validationErrors st);
           touchedFields := touchedFields st |})
  end.

Definition validateField (i : nat) : M bool :=
  w <- get ;;
  match fields (form w) !! i with
  | None =>
      emit (Console Error "[Contact] Cannot validate: invalid field") ;;
      ret false
  | Some field =>
      if isEmpty (name field) then
        emit (Console Error "[Contact] Cannot validate: invalid field") ;;
        ret false
      else
        let fieldName := name field in
        let fieldValue := value field in
        let validator := lookupRule fieldName in
        clearFieldError i ;;
        match validator with
        | None =>
            emit (Console Warn "[Contact] No validator found for field") ;;
            ret true
        | Some validator =>
            let result := validator fieldValue in
            if negb (isValid result) then
              showFieldError i (error result) ;;
              ret false
            else
              emit (Console Log "[Contact] Field validated successfully") ;;
              ret true
        end
  end.

(** [Array.from(form.querySelectorAll('[name]')).filter(...)], as positions. *)
Definition namedFields (fm : Form) : list nat :=
  List.filter
    (fun i => match fields fm !! i with
              | Some f => negb (strictEq (name f) HONEYPOT_FIELD)
              | None => false
              end)
    (seq 0 (length (fields fm))).

(** The [forEach] of [validateForm], carrying [isValid] and
    [firstInvalidField]. *)
Fixpoint forEachField (idxs : list nat) (acc : bool * option nat)
  : M (bool * option nat) :=
  match idxs with
  | [] => ret acc
  | i :: rest =>
      fieldValid <- validateField i ;;
      forEachField rest
        (if fieldValid then acc
         else (false, match snd acc with None => Some i | first => first end))
  end.

(** [form] is the form of the page, never null. *)
Definition validateForm : M bool :=
  w <- get ;;
  acc <- forEachField (namedFields (form w)) (true, None) ;;
  match acc with
  | (false, Some firstInvalidField) =>
      focus firstInvalidField ;;
      emit (Console Log "[Contact] Form validation failed") ;;
      ret false
  | (isValid, _) =>
      emit (Console Log "[Contact] Form validation passed") ;;
      ret isValid
  end.

(** [form.querySelector('[name=...]')] *)
Definition honeypotField (fm : Form) : option Field :=
  List.find (fun f => strictEq (name f) HONEYPOT_FIELD) (fields fm).

Definition checkHoneypot : M bool :=
  w <- get ;;
  match honeypotField (form w) with
  | None =>
      emit (Console Warn "[Contact] Honeypot field not found") ;;
      ret true
  | Some honeypotField =>
      let isSpam := negb (strictEq (trim (value honeypotField)) []) in
      (if isSpam then
         emit (Console Warn "[Contact] Spam detected via honeypot")
       else ret tt) ;;
      ret (negb isSpam)
  end.

(** The own properties of an object, in the order of their creation, after
    one named [key] is created or overwritten. *)
Fixpoint defineProperty (key v : jsstring)
  (data : list (jsstring * jsstring)) : list (jsstring * jsstring) :=
  match data with
  | [] => [(key, v)]
  | (k, x) :: rest =>
      if strictEq k key then (k, v) :: rest
      else (k, x) :: defineProperty key v rest
  end.

(** [data[key] = v] on an object created by [{}], [v] a string.  The
    assignment creates or overwrites an own property, except under the key
    [__proto__]: there it runs the setter that [Object.prototype] defines,
    which ignores a string, and the object keeps the properties it has. *)
Definition setProperty (key v : jsstring) (data : list (jsstring * jsstring))
  : list (jsstring * jsstring) :=
  if strictEq key (js "__proto__") then data else defineProperty key v data.

(** The entries of [new FormData(form)] are taken to be the controls with a
    non-empty name, each with its value: the form is one of text inputs,
    text areas and single selections, none of them disabled.  (The host
    leaves out disabled controls, unchecked boxes and buttons, and lists
    files and multiple selections otherwise.) *)
Definition collectFormData : M (list (jsstring * jsstring)) :=
  w <- get ;;
  let entries :=
    List.filter (fun f => negb (isEmpty (name f))) (fields (form w)) in
  let data :=
    fold_left
      (fun data f =>
         if negb (strictEq (name f) HONEYPOT_FIELD)
         then setProperty (name f) (trim (value f)) data
         else data)
      entries [] in
  let data := setProperty (js "timestamp") (clock w) data in
  let data := setProperty (js "userAgent") (userAgent w) data in
  emit (Console Log "[Contact] Form data collected") ;;
  ret data.

Definition showSuccessMessage : M unit :=
  w <- get ;;
  match messageContainer w with
  | None => emit (Console Error "[Contact] Cannot show success: container is null")
  | Some _ =>
      setContainer {| innerHTML := SuccessMessage; visible := true |} ;;
      announceToScreenReader
        (js "Form submitted successfully. We will contact you within 24 hours.") ;;
      emit (HideContainerAfter SUCCESS_DISPLAY_DURATION) ;;
      emit (Console Log "[Contact] Success message displayed")
  end.

Definition showErrorMessage (message : jsstring) : M unit :=
  w <- get ;;
  match messageContainer w with
  | None => emit (Console Error "[Contact] Cannot show error: container is null")
  | Some _ =>
      setContainer {| innerHTML := ErrorMessage message; visible := true |} ;;
      announceToScreenReader (js "Error: " ++ message) ;;
      emit (Console Error "[Contact] Error message displayed")
  end.

(** *** The submission call

    What the submission endpoint answers: it resolves with a result or
    rejects with a reason. *)

Record Result : Type := {
  success : bool;
  res_message : option jsstring;
}.

(** A rejection reason: a value with an optional [message], or
    [null]/[undefined]. *)
Inductive Reason : Type :=
| ErrorValue (message : option jsstring)
| Nullish.

Inductive Settlement : Type :=
| Resolved (result : Result)
| Rejected (reason : Reason).

(** [submitFormData] up to the promise it returns. *)
Definition submitFormData (data : list (jsstring * jsstring)) : M unit :=
  emit (Console Log "[Contact] Submitting form data") ;;
  emit (SubmitFormData data).

(** What the stub of the source resolves with, 1500 ms later. *)
Definition stubSettlement : Settlement :=
  Resolved {| success := true;
              res_message := Some (js "Form submitted successfully") |}.

(** [a || b] on an optional string. *)
Definition orElse (a : option jsstring) (b : jsstring) : jsstring :=
  match a with
  | Some (c :: s) => c :: s
  | _ => b
  end.

(** The locals of [handleFormSubmit] that live across the [await]. *)
Record Pending : Type := {
  originalButtonText : jsstring;
  formData : list (jsstring * jsstring);
}.

(** [handleFormSubmit] from its entry to its return or to the [await]; the
    result is the suspended call, if any. *)
Definition handleFormSubmit : M (option Pending) :=
  emit PreventDefault ;;
  w <- get ;;
  if isSubmitting (formState w) then
    emit (Console Warn "[Contact] Form submission already in progress") ;;
    ret None
  else
    emit (Console Log "[Contact] Form submission initiated") ;;
    notSpam <- checkHoneypot ;;
    if negb notSpam then
      emit (Console Warn "[Contact] Form submission blocked: spam detected") ;;
      ret None
    else
      valid <- validateForm ;;
      if negb valid then
        emit (Console Warn "[Contact] Form submission blocked: validation failed") ;;
        ret None
      else
        setFormState (fun st =>
          {| isSubmitting := true;
             validationErrors := validationErrors st;
             touchedFields := touchedFields st |}) ;;
        w <- get ;;
        let originalButtonText :=
          match submitButton (form w) with
          | Some b => textContent b
          | None => []
          end in
        setButton (fun b =>
          {| disabled := true; textContent := js "Sending...";
             aria_busy := Some (js "true") |}) ;;
        formData <- collectFormData ;;
        submitFormData formData ;;
        ret (Some {| originalButtonText := originalButtonText;
                     formData := formData |}).

(** [form.reset()] *)
Definition formReset : M unit :=
  setForm (fun fm =>
    {| fields :=
         map (fun f =>
                {| name := name f; value := defaultValue f;
                   defaultValue := defaultValue f;
                   class_error := class_error f;
                   aria_invalid := aria_invalid f;
                   errorElement := errorElement f |})
             (fields fm);
       submitButton := submitButton fm |}).

(** The [catch] block. Reading [error.message] of [null] or [undefined]
    throws, which leaves the block before it logs or shows anything. *)
Definition catchBlock (error : Reason) : M unit :=
  match error with
  | Nullish => ret tt
  | ErrorValue message =>
      emit (Console Error "[Contact] Form submission failed") ;;
      let errorMessage := orElse message NETWORK_ERROR in
      showErrorMessage errorMessage
  end.

(** The [finally] block. *)
Definition finallyBlock (p : Pending) : M unit :=
  setFormState (fun st =>
    {| isSubmitting := false;
       validationErrors := validationErrors st;
       touchedFields := touchedFields st |}) ;;
  setButton (fun b =>
    {| disabled := false; textContent := originalButtonText p;
       aria_busy := None |}).

(** [handleFormSubmit] from the settlement of the awaited promise to its
    end. *)
Definition handleFormSubmit_settled (p : Pending) (o : Settlement) : M unit :=
  match o with
  | Resolved result =>
      if success result then
        formReset ;;
        setFormState (fun st =>
          {| isSubmitting := isSubmitting st;
             validationErrors := ∅;
             touchedFields := ∅ |}) ;;
        showSuccessMessage ;;
        emit (Console Log "[Contact] Form submitted successfully")
      else
        catchBlock
          (ErrorValue (Some (orElse (res_message result) SUBMISSION_FAILED)))
  | Rejected reason => catchBlock reason
  end ;;
  finallyBlock p.

Definition handleFieldBlur (i : nat) : M unit :=
  w <- get ;;
  match fields (form w) !! i with
  | None => ret tt
  | Some field =>
      setFormState (fun st =>
        {| isSubmitting := isSubmitting st;
           validationErrors := validationErrors st;
           touchedFields := {[name field]} ∪ touchedFields st |}) ;;
      _ <- validateField i ;;
      ret tt
  end.

(** The function [handleFieldInput] debounces. *)
Definition handleFieldInput (i : nat) : M unit :=
  w <- get ;;
  match fields (form w) !! i with
  | None => ret tt
  | Some field =>
      if bool_decide (name field ∈ touchedFields (formState w)) then
        _ <- validateField i ;;
        ret tt
      else ret tt
  end.

(** *** The page over time

    The page together with the submission calls that have not settled yet;
    events run one at a time. *)

Record System : Type := {
  world : World;
  inflight : list Pending;
}.

(** [Submit], [Blur] and [Input] run the handlers of the form ([Input] is
    the debounced validation, once its delay has passed); [Settle k o] is the
    [k]-th pending call settling with [o]; [Edit i v] is the value of a
    control changing, by the user or by the phone formatter; [Hide] is the
    timer of the success notice. *)
Inductive Event : Type :=
| Submit
| Settle (k : nat) (o : Settlement)
| Blur (i : nat)
| Input (i : nat)
| Edit (i : nat) (v : jsstring)
| Hide.

Definition step (s : System) (e : Event) : System :=
  match e with
  | Submit =>
      let (p, w) := handleFormSubmit (world s) in
      {| world := w;
         inflight := inflight s ++ match p with Some p => [p] | None => [] end |}
  | Settle k o =>
      match inflight s !! k with
      | Some p =>
          {| world := snd (handleFormSubmit_settled p o (world s));
             inflight := delete k (inflight s) |}
      | None => s
      end
  | Blur i =>
      {| world := snd (handleFieldBlur i (world s)); inflight := inflight s |}
  | Input i =>
      {| world := snd (handleFieldInput i (world s)); inflight := inflight s |}
  | Edit i v =>
      {| world :=
           snd (setField i (fun f =>
                  {| name := name f; value := v;
                     defaultValue := defaultValue f;
                     class_error := class_error f;
                     aria_invalid := aria_invalid f;
                     errorElement := errorElement f |}) (world s));
         inflight := inflight s |}
  | Hide =>
      {| world :=
           match messageContainer (world s) with
           | Some c =>
               snd (setContainer
                      {| innerHTML := innerHTML c; visible := false |}
                      (world s))
           | None => world s
           end;
         inflight := inflight s |}
  end.

Definition run (s : System) (es : list Event) : System := fold_left step es s.

(** The page as loaded: nothing is being submitted. *)
Definition initial (s : System) : Prop :=
  isSubmitting (formState (world s)) = false /\ inflight s = [].

(** The submission flag and the submit control of a page. *)
Definition flag (w : World) : bool := isSubmitting (formState w).
Definition button (w : World) : option Button := submitButton (form w).

Definition core (w : World) : bool * option Button := (flag w, button w).

(** The submit control while a submission is under way. *)
Definition sending : Button :=
  {| disabled := true; textContent := js "Sending...";
     aria_busy := Some (js "true") |}.

(** The submit control as the [finally] block leaves it. *)
Definition restored (text : jsstring) : Button :=
  {| disabled := false; textContent := text; aria_busy := None |}.

(** A handler leaves the part [proj] of the page as it was. *)
Definition keeps {A X} (proj : World -> X) (m : M A) : Prop :=
  forall w, proj (snd (m w)) = proj w.

(** *** A sample page *)

Definition sampleField (n v : string) : Field :=
  {| name := js n; value := js v; defaultValue := [];
     class_error := false; aria_invalid := None;
     errorElement := Some {| err_textContent := []; err_visible := false |} |}.

Definition sampleFields (honeypot : string) : list Field :=
  [ sampleField "parentName" "Jordan Lee";
    sampleField "email" "jordan@example.com";
    sampleField "phone" "4155551234";
    sampleField "gradeLevel" "grade-5";
    sampleField "message" "We are interested in your curriculum.";
    sampleField "website" honeypot ].

Definition samplePage (honeypot : string) (submitting : bool) : World :=
  {| formState :=
       {| isSubmitting := submitting; validationErrors := ∅;
          touchedFields := ∅ |};
     form :=
       {| fields := sampleFields honeypot;
          submitButton :=
            Some {| disabled := false; textContent := js "Send Message";
                    aria_busy := None |} |};
     messageContainer := Some {| innerHTML := OtherMarkup; visible := false |};
     activeElement := None;
     clock := js "2025-01-01T00:00:00.000Z";
     userAgent := js "Mozilla/5.0";
     trace := [] |}.

(** The sample page once its valid form has been submitted, and the call
    that is then pending. *)
Definition sampleSubmitting : World :=
  snd (handleFormSubmit (samplePage "" false)).

Definition samplePending : Pending :=
  default {| originalButtonText := []; formData := [] |}
    (fst (handleFormSubmit (samplePage "" false))).

End Contact.

(** ** Plain objects *)

Module PlainObject.

(** The names of the members of [Object.prototype].  An object written as a
    literal inherits them: indexed by one of these names it yields the
    inherited member, whatever properties it defines itself. *)
Definition prototypeNames : list jsstring :=
  map js ["constructor"; "hasOwnProperty"; "isPrototypeOf";
          "propertyIsEnumerable"; "toLocaleString"; "toString"; "valueOf";
          "__proto__"; "__defineGetter__"; "__defineSetter__";
          "__lookupGetter__"; "__lookupSetter__"]%string.

Definition inherits (key : jsstring) : bool :=
  existsb (strictEq key) prototypeNames.

End PlainObject.

(** ** Shapes of validated input *)

Module ValidationShapes.

Import Validation.

(** The [type]s that [validateField] has a case for. *)
Definition knownTypes : list jsstring :=
  map js ["email"; "tel"; "phone"; "textarea"; "select"; "text"; "name"]%string.

(** No code unit of [s] is an at sign. *)
Definition noAt (s : jsstring) : bool := forallb (fun c => negb (c =? 0x40)) s.

(** The code units of a domain that [EMAIL_REGEX] admits. *)
Definition domainChar (c : N) : bool := alnumOrHyphen c || (c =? 0x2E).

End ValidationShapes.

(** ** The field state manager and the schema validation of the validation
    module *)

Module FieldTracking.

Import Validation.

(** [FieldState]; [fs_error] is [None] for [null]. *)
Record FieldState : Type := {
  touched : bool;
  dirty : bool;
  valid : bool;
  fs_error : option jsstring;
}.

(** The [Map] that [createFieldState] closes over, keyed by field
    identifier; each method is a function of it. *)
Definition init (fieldId : jsstring) (state : gmap jsstring FieldState)
  : gmap jsstring FieldState :=
  match state !! fieldId with
  | Some _ => state
  | None =>
      <[fieldId := {| touched := false; dirty := false; valid := true;
                      fs_error := None |}]> state
  end.

Definition setTouched (fieldId : jsstring) (state : gmap jsstring FieldState)
  : gmap jsstring FieldState :=
  match state !! fieldId with
  | Some fieldState =>
      <[fieldId := {| touched := true; dirty := dirty fieldState;
                      valid := valid fieldState;
                      fs_error := fs_error fieldState |}]> state
  | None => state
  end.

Definition setDirty (fieldId : jsstring) (state : gmap jsstring FieldState)
  : gmap jsstring FieldState :=
  match state !! fieldId with
  | Some fieldState =>
      <[fieldId := {| touched := touched fieldState; dirty := true;
                      valid := valid fieldState;
                      fs_error := fs_error fieldState |}]> state
  | None => state
  end.

Definition setValidation (fieldId : jsstring) (isValid : bool)
  (error : option jsstring) (state : gmap jsstring FieldState)
  : gmap jsstring FieldState :=
  match state !! fieldId with
  | Some fieldState =>
      <[fieldId := {| touched := touched fieldState;
                      dirty := dirty fieldState;
                      valid := isValid; fs_error := error |}]> state
  | None => state
  end.

(** [get]; [None] is [null]. *)
Definition get (fieldId : jsstring) (state : gmap jsstring FieldState)
  : option FieldState :=
  state !! fieldId.

Definition shouldShowError (fieldId : jsstring)
  (state : gmap jsstring FieldState) : bool :=
  match state !! fieldId with
  | Some fieldState => touched fieldState && negb (valid fieldState)
  | None => false
  end.

(** [reset]; the argument is [None] when the call passes none. An empty
    string is falsy, like a missing argument. *)
Definition reset (fieldId : option jsstring)
  (state : gmap jsstring FieldState) : gmap jsstring FieldState :=
  match fieldId with
  | Some (c :: s) => delete (c :: s) state
  | _ => ∅
  end.

(** The calls a form makes on its field state manager; a validation outcome
    is recorded from the result of [validateField]. *)
Inductive Call : Type :=
| CallInit (fieldId : jsstring)
| CallSetTouched (fieldId : jsstring)
| CallSetDirty (fieldId : jsstring)
| CallSetValidation (fieldId : jsstring) (result : ValidationResult)
| CallReset (fieldId : option jsstring).

Definition call (state : gmap jsstring FieldState) (c : Call)
  : gmap jsstring FieldState :=
  match c with
  | CallInit fieldId => init fieldId state
  | CallSetTouched fieldId => setTouched fieldId state
  | CallSetDirty fieldId => setDirty fieldId state
  | CallSetValidation fieldId result =>
      setValidation fieldId (isValid result) (error result) state
  | CallReset fieldId => reset fieldId state
  end.

(** The recorded outcome is what [validateField] returned for some value. *)
Definition recordsValidator (toLowerCase : jsstring -> jsstring) (c : Call)
  : Prop :=
  match c with
  | CallSetValidation _ result =>
      exists value type options,
        result = validateField toLowerCase value type options
  | _ => True
  end.

(** Every tracked field has an error message exactly when it is invalid. *)
Definition consistent (state : gmap jsstring FieldState) : Prop :=
  forall fieldId fieldState,
    state !! fieldId = Some fieldState ->
    (fs_error fieldState = None <-> valid fieldState = true).

(** A sample session: a field is initialised, touched and found invalid. *)
Definition sampleCalls : list Call :=
  [ CallInit (js "email");
    CallSetTouched (js "email");
    CallSetValidation (js "email")
      (validateField (map lowerBasicLatin) (JSString (js "bad-email"))
         (js "email")
         {| opt_required := Some true; opt_fieldName := None |}) ].

(** A schema entry; [required] is whatever the entry holds, [JSUndefined]
    when it holds none. *)
Record FieldSchema : Type := {
  sch_type : jsstring;
  sch_required : jsvalue;
}.

(** [v !== false] *)
Definition notFalse (v : jsvalue) : bool :=
  match v with
  | JSBoolean false => false
  | _ => true
  end.

(** The own properties of an object, in the order of their creation, after
    one named [fieldName] is created or overwritten; the order in which the
    host enumerates names that are array indices is not modelled. *)
Fixpoint define (fieldName : jsstring) (result : ValidationResult)
  (results : list (jsstring * ValidationResult))
  : list (jsstring * ValidationResult) :=
  match results with
  | [] => [(fieldName, result)]
  | (k, x) :: rest =>
      if strictEq k fieldName then (k, result) :: rest
      else (k, x) :: define fieldName result rest
  end.

(** [results[fieldName] = result] on the object created by [{}].  Under
    [__proto__] the assignment runs the setter of [Object.prototype]: the
    result becomes the prototype of [results], and no own property is
    created, so that [Object.values] does not list it. *)
Definition assign (fieldName : jsstring) (result : ValidationResult)
  (results : list (jsstring * ValidationResult))
  : list (jsstring * ValidationResult) :=
  if strictEq fieldName (js "__proto__") then results
  else define fieldName result results.

Section CaseMapping.

Variable toLowerCase : jsstring -> jsstring.

(** [fields] is [Object.entries(fields)]; [schema] gives the entry the
    schema object defines under a name, [None] when it defines none or a
    falsy one.  For a name in [PlainObject.prototypeNames] the lookup
    [schema[fieldName]] of the source finds the inherited member when the
    schema defines no entry; the model does not cover these names. *)
Definition validateFields (fields : list (jsstring * jsvalue))
  (schema : jsstring -> option FieldSchema)
  : list (jsstring * ValidationResult) :=
  fold_left
    (fun results '(fieldName, value) =>
       match schema fieldName with
       | None => results
       | Some fieldSchema =>
           assign fieldName
             (validateField toLowerCase value (sch_type fieldSchema)
                {| opt_required := Some (notFalse (sch_required fieldSchema));
                   opt_fieldName := Some fieldName |})
             results
       end)
    fields [].

End CaseMapping.

(** [Object.values(results).every((result) => result.isValid)] *)
Definition isFormValid (results : list (jsstring * ValidationResult)) : bool :=
  forallb (fun entry => isValid (snd entry)) results.

(** What [validateFields] returns when no field name repeats, as
    [Object.entries] guarantees, and none is a member of
    [Object.prototype]: one result per field that has a schema entry. *)
Definition schemaResults (toLowerCase : jsstring -> jsstring)
  (fields : list (jsstring * jsvalue))
  (schema : jsstring -> option FieldSchema)
  : list (jsstring * ValidationResult) :=
  flat_map
    (fun '(fieldName, value) =>
       match schema fieldName with
       | None => []
       | Some fieldSchema =>
           [(fieldName,
             validateField toLowerCase value (sch_type fieldSchema)
               {| opt_required := Some (notFalse (sch_required fieldSchema));
                  opt_fieldName := Some fieldName |})]
       end)
    fields.

(** A sample schema: an email and an optional phone. *)
Definition sampleSchema (fieldName : jsstring) : option FieldSchema :=
  if strictEq fieldName (js "email") then
    Some {| sch_type := js "email"; sch_required := JSUndefined |}
  else if strictEq fieldName (js "phone") then
    Some {| sch_type := js "tel"; sch_required := JSBoolean false |}
  else None.

End FieldTracking.

(** ** Verdicts, input formatting and data of the contact form *)

Module ContactShapes.

Import Contact.

(** What [validateField] answers for a control with this name and value:
    a control without a name fails, one without a rule passes. *)
Definition verdict (fieldName fieldValue : jsstring) : bool :=
  if isEmpty fieldName then false
  else match lookupRule fieldName with
       | None => true
       | Some validator => isValid (validator fieldValue)
       end.

Definition fieldVerdict (f : Field) : bool := verdict (name f) (value f).

(** The verdict on the control at position [i]; a position outside the form
    stands for a null reference, which fails. *)
Definition verdictAt (fs : list Field) (i : nat) : bool :=
  match fs !! i with
  | Some f => fieldVerdict f
  | None => false
  end.

(** The name and the value of each control. *)
Definition inputs (w : World) : list (jsstring * jsstring) :=
  map (fun f => (name f, value f)) (fields (form w)).

(** What [checkHoneypot] answers. *)
Definition honeypotPasses (fm : Form) : bool :=
  match honeypotField fm with
  | Some hp => isEmpty (trim (value hp))
  | None => true
  end.

(** [handlePhoneInput]: the value it writes back to the field it reads
    [value] from. *)
Definition handlePhoneInput (fieldValue : jsstring) : jsstring :=
  let value := List.filter isDigit fieldValue in
  if (6 <=? length value)%nat then
    js "(" ++ slice 0 3 value ++ js ") " ++ slice 3 6 value ++ js "-"
    ++ slice 6 10 value
  else if (3 <=? length value)%nat then
    js "(" ++ slice 0 3 value ++ js ") " ++ sliceFrom 3 value
  else value.

(** [handlePhoneInput] as a function of the digits of the value. *)
Definition layout (value : jsstring) : jsstring :=
  if (6 <=? length value)%nat then
    js "(" ++ slice 0 3 value ++ js ") " ++ slice 3 6 value ++ js "-"
    ++ slice 6 10 value
  else if (3 <=? length value)%nat then
    js "(" ++ slice 0 3 value ++ js ") " ++ sliceFrom 3 value
  else value.

(** The controls that [validateForm] validates. *)
Definition validatedFields (fm : Form) : list Field :=
  List.filter (fun f => negb (strictEq (name f) HONEYPOT_FIELD)) (fields fm).

(** The accumulator of [forEachField] after the control at [i]. *)
Definition tally (fs : list Field) (acc : bool * option nat) (i : nat)
  : bool * option nat :=
  if verdictAt fs i then acc
  else (false, match snd acc with None => Some i | first => first end).

(** The inputs, the clock, the user agent and the focus of a page. *)
Definition entered (w : World)
  : list (jsstring * jsstring) * jsstring * jsstring * option nat :=
  (inputs w, clock w, userAgent w, activeElement w).

(** What [collectFormData] returns for these inputs. *)
Definition dataOf (entries : list (jsstring * jsstring))
  (timestamp agent : jsstring) : list (jsstring * jsstring) :=
  let data :=
    fold_left
      (fun data '(key, value) =>
         if negb (strictEq key HONEYPOT_FIELD)
         then setProperty key (trim value) data
         else data)
      (List.filter (fun '(key, _) => negb (isEmpty key)) entries) [] in
  setProperty (js "userAgent") agent
    (setProperty (js "timestamp") timestamp data).

(** No control of the form is named after a member of [Object.prototype]:
    for the name of each control, [validationRules[fieldName]] is a rule
    the object defines itself, or [undefined]. *)
Definition ownRules (fm : Form) : bool :=
  forallb (fun f => negb (PlainObject.inherits (name f))) (fields fm).

(** The value of an entry of a [FormData]: a string, or a file. *)
Inductive EntryValue : Type :=
| StringValue (s : jsstring)
| FileValue (file : nat).

Definition isFile (value : EntryValue) : bool :=
  match value with
  | FileValue _ => true
  | StringValue _ => false
  end.

(** [typeof value === 'string' ? value.trim() : value] *)
Definition trimmed (value : EntryValue) : EntryValue :=
  match value with
  | StringValue s => StringValue (trim s)
  | FileValue file => FileValue file
  end.

(** The own properties of an object, in the order of their creation, after
    one named [key] is created or overwritten. *)
Fixpoint defineEntry (key : jsstring) (value : EntryValue)
  (data : list (jsstring * EntryValue)) : list (jsstring * EntryValue) :=
  match data with
  | [] => [(key, value)]
  | (k, x) :: rest =>
      if strictEq k key then (k, value) :: rest
      else (k, x) :: defineEntry key value rest
  end.

(** [data[key] = value] on the object created by [{}].  Under [__proto__]
    the assignment runs the setter of [Object.prototype], which creates no
    own property: it ignores a string, and it makes a file the prototype of
    [data]. *)
Definition assignEntry (key : jsstring) (value : EntryValue)
  (data : list (jsstring * EntryValue)) : list (jsstring * EntryValue) :=
  if strictEq key (js "__proto__") then data else defineEntry key value data.

(** One turn of the loop of [collectFormData]. *)
Definition collectStep (data : list (jsstring * EntryValue))
  (entry : jsstring * EntryValue) : list (jsstring * EntryValue) :=
  let '(key, value) := entry in
  if negb (strictEq key HONEYPOT_FIELD)
  then assignEntry key (trimmed value) data
  else data.

(** The body of [collectFormData] after [new FormData(form)]: the own
    properties of [data] at the [return], given the entries of the
    [FormData], the time and the user agent.  A file entered under
    [__proto__] would become the prototype of [data], and the members of a
    file would then stand in the way of later assignments; the model does
    not cover such entries. *)
Definition collect (entries : list (jsstring * EntryValue))
  (timestamp agent : jsstring) : list (jsstring * EntryValue) :=
  let data := fold_left collectStep entries [] in
  assignEntry (js "userAgent") (StringValue agent)
    (assignEntry (js "timestamp") (StringValue timestamp) data).

(** No file is entered under [__proto__]. *)
Definition noFilePrototype (entries : list (jsstring * EntryValue)) : bool :=
  forallb
    (fun entry => negb (strictEq (fst entry) (js "__proto__")
                        && isFile (snd entry)))
    entries.

(** The own property [key] of [data], [None] when it has none. *)
Fixpoint ownProperty (key : jsstring) (data : list (jsstring * EntryValue))
  : option EntryValue :=
  match data with
  | [] => None
  | (k, v) :: rest => if strictEq k key then Some v else ownProperty key rest
  end.

(** The entries that the page model takes [new FormData(form)] to have. *)
Definition entriesOf (w : World) : list (jsstring * EntryValue) :=
  map (fun f => (name f, StringValue (value f)))
    (List.filter (fun f => negb (isEmpty (name f))) (fields (form w))).

(** Sample entries: a name with spaces around it, a file, the honeypot, and
    the name again. *)
Definition sampleEntries : list (jsstring * EntryValue) :=
  [ (js "parentName", StringValue (js " Jo "));
    (js "attachment", FileValue 1);
    (js "website", StringValue (js "spam"));
    (js "parentName", StringValue (js " Jordan Lee ")) ].

(** The events of typing: edits and debounced input validation. *)
Definition isTyping (e : Event) : bool :=
  match e with
  | Edit _ _ | Input _ => true
  | _ => false
  end.

(** What the page shows of validation: per control its error class, its
    [aria-invalid] and its error element; the recorded errors; the
    effects. *)
Definition display (w : World)
  : list (bool * option jsstring * option ErrorElement)
    * gmap jsstring (option jsstring) * list Effect :=
  (map (fun f => (class_error f, aria_invalid f, errorElement f))
     (fields (form w)),
   validationErrors (formState w),
   trace w).

(** How many times the effects call the submission endpoint. *)
Definition submissions (es : list Effect) : nat :=
  length (List.filter
            (fun e => match e with SubmitFormData _ => true | _ => false end)
            es).

(** Whether a submission goes through to the endpoint: none is under way,
    the honeypot passes and every validated control passes. *)
Definition goesThrough (w : World) : bool :=
  negb (isSubmitting (formState w)) && honeypotPasses (form w)
  && forallb fieldVerdict (validatedFields (form w)).

(** The message a control's rule gives; [None] is [null]. *)
Definition errorOf (f : Field) : option jsstring :=
  match lookupRule (name f) with
  | Some validator => error (validator (value f))
  | None => None
  end.

(** The notice a failed submission shows, if it shows one. *)
Definition failureNotice (o : Settlement) : option jsstring :=
  match o with
  | Resolved result =>
      if success result then None
      else Some (orElse (res_message result) SUBMISSION_FAILED)
  | Rejected (ErrorValue message) => Some (orElse message NETWORK_ERROR)
  | Rejected Nullish => None
  end.

(** Whether the submission succeeded. *)
Definition succeeded (o : Settlement) : bool :=
  match o with
  | Resolved result => success result
  | Rejected _ => false
  end.

(** The controls, the recorded errors, the touched names and the notice
    container of a page. *)
Definition remains (w : World)
  : list Field * gmap jsstring (option jsstring) * gset jsstring
    * option Container :=
  (fields (form w), validationErrors (formState w),
   touchedFields (formState w), messageContainer w).

(** How many times the page has called the submission endpoint. *)
Definition made (w : World) : nat := submissions (trace w).

(** Whether an effect is a call of the submission endpoint. *)
Definition isSubmission (e : Effect) : bool :=
  match e with SubmitFormData _ => true | _ => false end.

End ContactShapes.

(** ** The utilities of the main module *)

Module Main.

Import Regex.

(** [r{n}] *)
Fixpoint Times (n : nat) (r : regex) : regex :=
  match n with
  | O => Eps
  | S n' => Seq r (Times n' r)
  end.

(** [/^(\d{3})(\d{3})(\d{4})$/]; its groups have fixed widths, so a match
    captures the slices [0, 3), [3, 6) and [6, 10). *)
Definition tenDigits : regex :=
  Seq (Times 3 (Cls isDigit))
    (Seq (Times 3 (Cls isDigit)) (Times 4 (Cls isDigit))).

(** [Utils.formatPhone], on a string. *)
Definition formatPhone (phone : jsstring) : jsstring :=
  let cleaned := List.filter isDigit phone in
  if test tenDigits cleaned then
    js "(" ++ slice 0 3 cleaned ++ js ") " ++ slice 3 6 cleaned ++ js "-"
    ++ slice 6 10 cleaned
  else phone.

(** [Validation.EMAIL_REGEX] and [Validation.PHONE_REGEX] of the main
    module. *)
Definition EMAIL_REGEX : regex := Contact.emailRegex.
Definition PHONE_REGEX : regex := Plus (Cls Validation.phoneChar).

(** [!v] *)
Definition falsy (v : jsvalue) : bool :=
  match v with
  | JSUndefined | JSNull => true
  | JSBoolean b => negb b
  | JSNumber n => Z.eqb n 0
  | JSObject _ => false
  | JSString s => isEmpty s
  end.

Definition isValidEmail (email : jsvalue) : bool :=
  match email with
  | JSString s => test EMAIL_REGEX (trim s)
  | _ => false
  end.

(** [Validation.isValidPhone]; [None] when the call throws, which it does
    on a truthy value that is not a string. *)
Definition isValidPhone (phone : jsvalue) : option bool :=
  if falsy phone then Some true
  else match phone with
       | JSString s =>
           let cleaned := List.filter isDigit s in
           Some ((10 <=? length cleaned)%nat && test PHONE_REGEX s)
       | _ => None
       end.

Definition isRequired (value : jsvalue) : bool :=
  match value with
  | JSString s => (0 <? length (trim s))%nat
  | _ => false
  end.

End Main.

(** ** The testimonials carousel *)

From Stdlib Require Import ZArith DecimalString.

Module Testimonials.

Local Open Scope Z_scope.

Definition AUTO_PLAY_INTERVAL : Z := 5000.
Definition TRANSITION_DURATION : Z := 500.

(** The part of a slide the carousel writes: two attributes and three
    classes.  The images inside a slide, which [preloadAdjacentImages]
    loads, are outside the model, as are the navigation buttons, whose
    [disabled] property [updateButtonStates] always sets to [false]. *)
Record Slide : Type := {
  aria_hidden : option jsstring;
  tabindex : option jsstring;
  class_active : bool;
  class_previous : bool;
  class_next : bool;
}.

Record Indicator : Type := {
  aria_pressed : option jsstring;
  indicator_active : bool;
}.

(** An instance of [TestimonialsCarousel] after its constructor has called
    [init], with the timers it has set: [timeouts] are the pending callbacks
    of [updateCarousel] (oldest first, each with the index it closes over),
    [intervals] the live intervals, [nextTimer] the handle the host returns
    next.  [liveRegion] is the text of the [aria-live] element of the
    container, if it has one. *)
Record Carousel : Type := {
  slides : list Slide;
  indicators : list Indicator;
  liveRegion : option jsstring;
  currentIndex : Z;
  isTransitioning : bool;
  autoPlayTimer : option positive;
  isPaused : bool;
  timeouts : list (positive * Z);
  intervals : list positive;
  nextTimer : positive;
}.

Inductive Direction : Type := prev | next.

(** [String(n)] for an integer *)
Definition numberToString (n : Z) : jsstring :=
  js (NilZero.string_of_int (Z.to_int n)).

Definition slideCount (c : Carousel) : Z := Z.of_nat (length (slides c)).

(** [`Showing testimonial ${index + 1} of ${this.slides.length}`] *)
Definition announcement (index : Z) (c : Carousel) : jsstring :=
  (js "Showing testimonial " ++ numberToString (index + 1) ++ js " of "
   ++ numberToString (slideCount c))%list.

Definition setupSlide (index : nat) (s : Slide) : Slide :=
  {| aria_hidden := Some (if negb (Nat.eqb index 0) then js "true"
                          else js "false");
     tabindex := Some (if Nat.eqb index 0 then js "0" else js "-1");
     class_active := class_active s;
     class_previous := class_previous s;
     class_next := class_next s |}.

Definition setupIndicator (index : nat) (i : Indicator) : Indicator :=
  {| aria_pressed := Some (if Nat.eqb index 0 then js "true" else js "false");
     indicator_active := indicator_active i |}.

Definition setupAccessibility (c : Carousel) : Carousel :=
  {| slides := imap setupSlide (slides c);
     indicators := imap setupIndicator (indicators c);
     liveRegion := liveRegion c;
     currentIndex := currentIndex c;
     isTransitioning := isTransitioning c;
     autoPlayTimer := autoPlayTimer c;
     isPaused := isPaused c;
     timeouts := timeouts c;
     intervals := intervals c;
     nextTimer := nextTimer c |}.

(** The body of [this.slides.forEach] in [updateCarousel] *)
Definition updateSlide (index previousIndex : Z) (i : nat) (s : Slide)
  : Slide :=
  let isActive := Z.of_nat i =? index in
  let isPrevious := Z.of_nat i =? previousIndex in
  {| aria_hidden := Some (if isActive then js "false" else js "true");
     tabindex := Some (if isActive then js "0" else js "-1");
     class_active := if isActive then true else false;
     class_previous :=
       if isActive then false else if isPrevious then true else false;
     class_next := if isActive then false else class_next s |}.

(** The body of [this.indicators.forEach] in [updateCarousel] *)
Definition updateIndicator (index : Z) (i : nat) (ind : Indicator)
  : Indicator :=
  let isActive := Z.of_nat i =? index in
  {| aria_pressed := Some (if isActive then js "true" else js "false");
     indicator_active := if isActive then true else false |}.

Definition updateCarousel (index : Z) (animate : bool) (c : Carousel)
  : Carousel :=
  let previousIndex := currentIndex c in
  {| slides := imap (updateSlide index previousIndex) (slides c);
     indicators := imap (updateIndicator index) (indicators c);
     liveRegion := liveRegion c;
     currentIndex := index;
     isTransitioning := if animate then true else isTransitioning c;
     autoPlayTimer := autoPlayTimer c;
     isPaused := isPaused c;
     timeouts :=
       if animate then (timeouts c ++ [(nextTimer c, index)])%list
       else timeouts c;
     intervals := intervals c;
     nextTimer := if animate then Pos.succ (nextTimer c) else nextTimer c |}.

Definition announceSlideChange (index : Z) (c : Carousel) : Carousel :=
  {| slides := slides c;
     indicators := indicators c;
     liveRegion :=
       match liveRegion c with
       | Some _ => Some (announcement index c)
       | None => None
       end;
     currentIndex := currentIndex c;
     isTransitioning := isTransitioning c;
     autoPlayTimer := autoPlayTimer c;
     isPaused := isPaused c;
     timeouts := timeouts c;
     intervals := intervals c;
     nextTimer := nextTimer c |}.

(** The callback [updateCarousel] passes to [setTimeout] *)
Definition transitionEnd (index : Z) (c : Carousel) : Carousel :=
  announceSlideChange index
    {| slides := slides c;
       indicators := indicators c;
       liveRegion := liveRegion c;
       currentIndex := currentIndex c;
       isTransitioning := false;
       autoPlayTimer := autoPlayTimer c;
       isPaused := isPaused c;
       timeouts := timeouts c;
       intervals := intervals c;
       nextTimer := nextTimer c |}.

Definition startAutoPlay (c : Carousel) : Carousel :=
  match autoPlayTimer c with
  | Some _ => c
  | None =>
      {| slides := slides c;
         indicators := indicators c;
         liveRegion := liveRegion c;
         currentIndex := currentIndex c;
         isTransitioning := isTransitioning c;
         autoPlayTimer := Some (nextTimer c);
         isPaused := isPaused c;
         timeouts := timeouts c;
         intervals := nextTimer c :: intervals c;
         nextTimer := Pos.succ (nextTimer c) |}
  end.

Definition stopAutoPlay (c : Carousel) : Carousel :=
  match autoPlayTimer c with
  | Some id =>
      {| slides := slides c;
         indicators := indicators c;
         liveRegion := liveRegion c;
         currentIndex := currentIndex c;
         isTransitioning := isTransitioning c;
         autoPlayTimer := None;
         isPaused := isPaused c;
         timeouts := timeouts c;
         intervals := List.filter (fun i => negb (Pos.eqb i id)) (intervals c);
         nextTimer := nextTimer c |}
  | None => c
  end.

Definition resetAutoPlay (c : Carousel) : Carousel :=
  startAutoPlay (stopAutoPlay c).

Definition goToSlide (index : Z) (c : Carousel) : Carousel :=
  if isTransitioning c || (index =? currentIndex c) || (index <? 0)
     || (index >=? slideCount c)
  then c
  else resetAutoPlay (updateCarousel index true c).

(** [%] is the remainder of the truncated division. *)
Definition navigate (direction : Direction) (c : Carousel) : Carousel :=
  if isTransitioning c then c
  else
    let newIndex :=
      match direction with
      | prev => Z.rem (currentIndex c - 1 + slideCount c) (slideCount c)
      | next => Z.rem (currentIndex c + 1) (slideCount c)
      end in
    goToSlide newIndex c.

Definition handleKeyboard (key : jsstring) (c : Carousel) : Carousel :=
  if strictEq key (js "ArrowLeft") || strictEq key (js "Left") then
    navigate prev c
  else if strictEq key (js "ArrowRight") || strictEq key (js "Right") then
    navigate next c
  else if strictEq key (js "Home") then goToSlide 0 c
  else if strictEq key (js "End") then goToSlide (slideCount c - 1) c
  else c.

Definition setPaused (b : bool) (c : Carousel) : Carousel :=
  {| slides := slides c;
     indicators := indicators c;
     liveRegion := liveRegion c;
     currentIndex := currentIndex c;
     isTransitioning := isTransitioning c;
     autoPlayTimer := autoPlayTimer c;
     isPaused := b;
     timeouts := timeouts c;
     intervals := intervals c;
     nextTimer := nextTimer c |}.

Definition pause : Carousel -> Carousel := setPaused true.
Definition resume : Carousel -> Carousel := setPaused false.

Definition handleVisibilityChange (hidden : bool) (c : Carousel) : Carousel :=
  if hidden then pause c else resume c.

Definition handleResize (c : Carousel) : Carousel :=
  updateCarousel (currentIndex c) false c.

(** The touch handlers.  The coordinates they store are read by
    [handleTouchEnd] alone, which decides in floating point (an angle from
    [Math.atan2] and a distance) whether the gesture was a horizontal swipe;
    that decision is the argument [swipe]: [Some prev] for a swipe to the
    right, [Some next] for one to the left, [None] otherwise. *)
Definition handleTouchStart (touches : nat) (c : Carousel) : Carousel :=
  if negb (Nat.eqb touches 1) then c else pause c.

Definition handleTouchEnd (swipe : option Direction) (c : Carousel)
  : Carousel :=
  resume (match swipe with
          | Some direction => navigate direction c
          | None => c
          end).

(** The callback [startAutoPlay] passes to [setInterval] *)
Definition autoPlayTick (c : Carousel) : Carousel :=
  if negb (isPaused c) && negb (isTransitioning c) then navigate next c
  else c.

Definition destroySlide (s : Slide) : Slide :=
  {| aria_hidden := None;
     tabindex := None;
     class_active := false;
     class_previous := false;
     class_next := false |}.

Definition destroy (c : Carousel) : Carousel :=
  let c' := stopAutoPlay c in
  {| slides := map destroySlide (slides c');
     indicators := indicators c';
     liveRegion := liveRegion c';
     currentIndex := currentIndex c';
     isTransitioning := isTransitioning c';
     autoPlayTimer := autoPlayTimer c';
     isPaused := isPaused c';
     timeouts := timeouts c';
     intervals := intervals c';
     nextTimer := nextTimer c' |}.

(** The fields the constructor sets before it calls [init], given the
    elements it finds in the container and the next timer handle of the
    host. *)
Definition created (slides0 : list Slide) (indicators0 : list Indicator)
  (liveRegion0 : option jsstring) (timer : positive) : Carousel :=
  {| slides := slides0;
     indicators := indicators0;
     liveRegion := liveRegion0;
     currentIndex := 0;
     isTransitioning := false;
     autoPlayTimer := None;
     isPaused := false;
     timeouts := [];
     intervals := [];
     nextTimer := timer |}.

(** [init]; attaching the listeners is what makes the events of [step]
    possible. *)
Definition init (c : Carousel) : Carousel :=
  startAutoPlay (updateCarousel 0 false (setupAccessibility c)).

(** The constructor, given a container.  [None] when the track or the
    slides are missing: [init] is not called then, and no listener is
    attached. *)
Definition construct (track : bool) (slides0 : list Slide)
  (indicators0 : list Indicator) (liveRegion0 : option jsstring)
  (timer : positive) : option Carousel :=
  if negb track || Nat.eqb (length slides0) 0 then None
  else Some (init (created slides0 indicators0 liveRegion0 timer)).

(** What the listeners of [attachEventListeners] and the timers react to.
    [ClickIndicator i] is a click on the indicator of index [i];
    [Resize] is the end of a burst of resize events, when the debounced
    handler runs; [IntervalFires id] and [TimeoutFires] are the host running
    a live interval and the oldest pending timeout. *)
Inductive Event : Type :=
  | ClickPrev
  | ClickNext
  | ClickIndicator (i : nat)
  | KeyDown (key : jsstring)
  | MouseEnter
  | MouseLeave
  | FocusIn
  | FocusOut
  | VisibilityChange (hidden : bool)
  | Resize
  | TouchStart (touches : nat)
  | TouchEnd (swipe : option Direction)
  | IntervalFires (id : positive)
  | TimeoutFires.

Definition dropTimeout (c : Carousel) : Carousel :=
  {| slides := slides c;
     indicators := indicators c;
     liveRegion := liveRegion c;
     currentIndex := currentIndex c;
     isTransitioning := isTransitioning c;
     autoPlayTimer := autoPlayTimer c;
     isPaused := isPaused c;
     timeouts := tl (timeouts c);
     intervals := intervals c;
     nextTimer := nextTimer c |}.

Definition step (e : Event) (c : Carousel) : Carousel :=
  match e with
  | ClickPrev => navigate prev c
  | ClickNext => navigate next c
  | ClickIndicator i =>
      if (i <? length (indicators c))%nat then goToSlide (Z.of_nat i) c
      else c
  | KeyDown key => handleKeyboard key c
  | MouseEnter | FocusIn => pause c
  | MouseLeave | FocusOut => resume c
  | VisibilityChange hidden => handleVisibilityChange hidden c
  | Resize => handleResize c
  | TouchStart touches => handleTouchStart touches c
  | TouchEnd swipe => handleTouchEnd swipe c
  | IntervalFires id =>
      if existsb (Pos.eqb id) (intervals c) then autoPlayTick c else c
  | TimeoutFires =>
      match timeouts c with
      | (_, index) :: _ => transitionEnd index (dropTimeout c)
      | [] => c
      end
  end.

Definition run (events : list Event) (c : Carousel) : Carousel :=
  fold_left (fun c e => step e c) events c.

(** Events that only ask for another slide *)
Definition asksForSlide (e : Event) : bool :=
  match e with
  | ClickPrev | ClickNext | ClickIndicator _ | KeyDown _ | IntervalFires _ =>
      true
  | _ => false
  end.

(** The slide of index [i] is the one shown: marked active, exposed to
    assistive technology, and in the tab order. *)
Definition shown (s : Slide) : bool :=
  class_active s
  && match aria_hidden s with Some h => strictEq h (js "false") | None => false end
  && match tabindex s with Some t => strictEq t (js "0") | None => false end.

Definition hiddenSlide (s : Slide) : bool :=
  negb (class_active s)
  && match aria_hidden s with Some h => strictEq h (js "true") | None => false end
  && match tabindex s with Some t => strictEq t (js "-1") | None => false end.

Definition pressed (i : Indicator) : bool :=
  indicator_active i
  && match aria_pressed i with Some p => strictEq p (js "true") | None => false end.

Definition released (i : Indicator) : bool :=
  negb (indicator_active i)
  && match aria_pressed i with Some p => strictEq p (js "false") | None => false end.

(** One full move: a click on the next button, then the end of the
    transition. *)
Definition advance (c : Carousel) : Carousel :=
  step TimeoutFires (step ClickNext c).

(** What holds of a carousel between two events, as long as [destroy] has
    not been called: the slide and the indicator of [currentIndex], and they
    alone, are marked; one interval is live, the one of [autoPlayTimer]; a
    timeout is pending exactly during a transition, for the current
    slide. *)
Record wellFormed (c : Carousel) : Prop := {
  wf_index : 0 <= currentIndex c < slideCount c;
  wf_slides : forall i s, slides c !! i = Some s ->
    shown s = (Z.of_nat i =? currentIndex c)
    /\ hiddenSlide s = negb (Z.of_nat i =? currentIndex c)
    /\ (class_previous s = true -> class_active s = false);
  wf_indicators : forall i d, indicators c !! i = Some d ->
    pressed d = (Z.of_nat i =? currentIndex c)
    /\ released d = negb (Z.of_nat i =? currentIndex c);
  wf_timer : exists id, autoPlayTimer c = Some id /\ intervals c = [id];
  wf_timeouts :
    if isTransitioning c then exists t, timeouts c = [(t, currentIndex c)]
    else timeouts c = [];
}.

(** The states a carousel built by the constructor goes through *)
Definition reachable (c : Carousel) : Prop :=
  exists track slides0 indicators0 liveRegion0 timer c0 events,
    construct track slides0 indicators0 liveRegion0 timer = Some c0
    /\ c = run events c0.

Definition sampleSlide : Slide :=
  {| aria_hidden := None; tabindex := None; class_active := false;
     class_previous := false; class_next := true |}.

Definition sampleIndicator : Indicator :=
  {| aria_pressed := None; indicator_active := false |}.

Definition sampleCarousel : Carousel :=
  init (created [sampleSlide; sampleSlide; sampleSlide]
          [sampleIndicator; sampleIndicator; sampleIndicator; sampleIndicator]
          (Some []) 7%positive).

End Testimonials.

(** * Properties *)

(** ** Lists of code units *)

Lemma filter_forallb {A} (p : A -> bool) (l : list A) :
  forallb p l = true -> List.filter p l = l.
Proof.
  induction l as [|x l IH]; simpl; [reflexivity|].
  intros H. apply andb_true_iff in H as [Hx Hl].
  rewrite Hx, IH by assumption. reflexivity.
Qed.

Lemma forallb_firstn {A} (p : A -> bool) n (l : list A) :
  forallb p l = true -> forallb p (firstn n l) = true.
Proof.
  revert l; induction n as [|n IH]; intros [|x l]; simpl; auto.
  intros H. apply andb_true_iff in H as [Hx Hl]. rewrite Hx. simpl. auto.
Qed.

Lemma forallb_skipn {A} (p : A -> bool) n (l : list A) :
  forallb p l = true -> forallb p (skipn n l) = true.
Proof.
  revert l; induction n as [|n IH]; intros [|x l]; simpl; auto.
  intros H. apply andb_true_iff in H as [Hx Hl]. auto.
Qed.

Lemma isEmpty_true (s : jsstring) : isEmpty s = true <-> s = [].
Proof. destruct s; simpl; split; congruence. Qed.

Lemma isEmpty_false (s : jsstring) : isEmpty s = false <-> s <> [].
Proof. destruct s; simpl; split; congruence. Qed.

Lemma strictEq_spec (a b : jsstring) : strictEq a b = true <-> a = b.
Proof.
  revert b; induction a as [|x a IH]; intros [|y b]; simpl;
    try (split; congruence).
  rewrite andb_true_iff, N.eqb_eq, IH. split.
  - intros [-> ->]; reflexivity.
  - intros [= -> ->]; auto.
Qed.

Lemma trimStart_whitespace (s : jsstring) :
  forallb isWhiteSpace s = true -> trimStart s = [].
Proof.
  induction s as [|c s IH]; simpl; [reflexivity|].
  intros H. apply andb_true_iff in H as [Hc Hs]. rewrite Hc. auto.
Qed.

Lemma trimStart_sublist (p : N -> bool) (s : jsstring) :
  forallb p s = true -> forallb p (trimStart s) = true.
Proof.
  induction s as [|c s IH]; simpl; [reflexivity|].
  intros H. destruct (isWhiteSpace c); [|exact H].
  apply andb_true_iff in H as [_ Hs]. auto.
Qed.

Lemma forallb_rev {A} (p : A -> bool) (l : list A) :
  forallb p (rev l) = forallb p l.
Proof.
  induction l as [|x l IH]; simpl; [reflexivity|].
  rewrite forallb_app, IH. simpl. rewrite andb_true_r. apply andb_comm.
Qed.

Lemma trim_sublist (p : N -> bool) (s : jsstring) :
  forallb p s = true -> forallb p (trim s) = true.
Proof.
  intros H. unfold trim, trimEnd.
  rewrite forallb_rev. apply trimStart_sublist.
  rewrite forallb_rev. apply trimStart_sublist, H.
Qed.

Lemma trim_whitespace (s : jsstring) :
  forallb isWhiteSpace s = true -> trim s = [].
Proof.
  intros H. unfold trim. rewrite trimStart_whitespace by assumption.
  reflexivity.
Qed.

(** ** Regular expressions: the matcher decides the language *)

Module RegexFacts.

Import Regex.

Lemma Matches_Void s : ~ Matches Void s.
Proof. intros H. inversion H. Qed.

Lemma mkSeq_spec r1 r2 s : Matches (mkSeq r1 r2) s <-> Matches (Seq r1 r2) s.
Proof.
  destruct r1; simpl; try tauto.
  split; intros H; inversion H; subst.
  exfalso. eapply Matches_Void; eassumption.
Qed.

Lemma mkAlt_spec r1 r2 s : Matches (mkAlt r1 r2) s <-> Matches (Alt r1 r2) s.
Proof.
  split.
  - destruct r1, r2; simpl; intros H;
      first [ exact H | apply MAltL; exact H | apply MAltR; exact H ].
  - intros H. inversion H; subst.
    + destruct r1, r2; simpl; try assumption; try (apply MAltL; assumption);
        exfalso; eapply Matches_Void; eassumption.
    + destruct r1, r2; simpl; try assumption; try (apply MAltR; assumption);
        exfalso; eapply Matches_Void; eassumption.
Qed.

Lemma Matches_Seq_inv r1 r2 s :
  Matches (Seq r1 r2) s ->
  exists s1 s2, s = s1 ++ s2 /\ Matches r1 s1 /\ Matches r2 s2.
Proof. intros H. inversion H; subst. eauto. Qed.

Lemma Matches_Alt_inv r1 r2 s :
  Matches (Alt r1 r2) s -> Matches r1 s \/ Matches r2 s.
Proof. intros H. inversion H; subst; auto. Qed.

Lemma Matches_Cls_inv p s :
  Matches (Cls p) s -> exists c, s = [c] /\ p c = true.
Proof. intros H. inversion H; subst. eauto. Qed.

Lemma nullable_spec r : nullable r = true <-> Matches r [].
Proof.
  induction r; simpl.
  - split; [discriminate | intros H; inversion H].
  - split; [constructor | reflexivity].
  - split; [discriminate | intros H; inversion H].
  - rewrite andb_true_iff, IHr1, IHr2. split.
    + intros [H1 H2]. apply (MSeq _ _ [] []); assumption.
    + intros H. apply Matches_Seq_inv in H as (s1 & s2 & Heq & H1 & H2).
      symmetry in Heq. apply app_eq_nil in Heq as [-> ->]. auto.
  - rewrite orb_true_iff, IHr1, IHr2. split.
    + intros [H|H]; [apply MAltL | apply MAltR]; assumption.
    + apply Matches_Alt_inv.
  - split; [constructor | reflexivity].
Qed.

Lemma star_cons r c s :
  Matches (Star r) (c :: s) ->
  exists s1 s2, s = s1 ++ s2 /\ Matches r (c :: s1) /\ Matches (Star r) s2.
Proof.
  intros H. remember (Star r) as re eqn:Hre. remember (c :: s) as cs eqn:Hcs.
  revert r c s Hre Hcs.
  induction H as [| | | | | |r' s1 s2 H1 _ H2 IH2]; intros r0 c0 s0 Hre Hcs;
    try discriminate.
  injection Hre as ->.
  destruct s1 as [|c1 s1]; simpl in Hcs.
  - apply (IH2 r0 c0 s0); auto.
  - injection Hcs as -> <-. exists s1, s2. auto.
Qed.

Lemma deriv_Seq_spec c r1 r2 s :
  (forall s, Matches (deriv c r1) s <-> Matches r1 (c :: s)) ->
  Matches (mkSeq (deriv c r1) r2) s <->
  exists s1 s2, s = s1 ++ s2 /\ Matches r1 (c :: s1) /\ Matches r2 s2.
Proof.
  intros IH1. rewrite mkSeq_spec. split.
  - intros H. apply Matches_Seq_inv in H as (s1 & s2 & -> & H1 & H2).
    exists s1, s2. rewrite <- IH1. auto.
  - intros (s1 & s2 & -> & H1 & H2). constructor; [apply IH1|]; auto.
Qed.

Lemma deriv_spec c r : forall s, Matches (deriv c r) s <-> Matches r (c :: s).
Proof.
  induction r as [| |p|r1 IH1 r2 IH2|r1 IH1 r2 IH2|r IH]; intros s; simpl.
  - split; intros H; inversion H.
  - split; intros H; inversion H.
  - destruct (p c) eqn:Hp; split; intros H.
    + inversion H; subst. constructor; assumption.
    + inversion H; subst. constructor.
    + inversion H.
    + inversion H; subst. congruence.
  - pose proof (deriv_Seq_spec c r1 r2 s IH1) as Hseq.
    destruct (nullable r1) eqn:Hn.
    + rewrite mkAlt_spec. split.
      * intros H. apply Matches_Alt_inv in H as [H|H].
        -- apply Hseq in H as (s1 & s2 & -> & H1 & H2).
           apply (MSeq _ _ (c :: s1) s2); assumption.
        -- apply (MSeq _ _ [] (c :: s)); [apply nullable_spec|apply IH2]; auto.
      * intros H. apply Matches_Seq_inv in H as (s1 & s2 & Heq & H1 & H2).
        destruct s1 as [|c1 s1]; simpl in Heq.
        -- subst s2. apply MAltR, IH2, H2.
        -- injection Heq as <- ->. apply MAltL, Hseq. eauto.
    + rewrite Hseq. split.
      * intros (s1 & s2 & -> & H1 & H2).
        apply (MSeq _ _ (c :: s1) s2); assumption.
      * intros H. apply Matches_Seq_inv in H as (s1 & s2 & Heq & H1 & H2).
        destruct s1 as [|c1 s1]; simpl in Heq.
        -- apply nullable_spec in H1. congruence.
        -- injection Heq as <- ->. eauto.
  - rewrite mkAlt_spec. split; intros H; apply Matches_Alt_inv in H as [H|H].
    + apply MAltL, IH1; assumption.
    + apply MAltR, IH2; assumption.
    + apply MAltL, IH1; assumption.
    + apply MAltR, IH2; assumption.
  - rewrite mkSeq_spec. split.
    + intros H. apply Matches_Seq_inv in H as (s1 & s2 & -> & H1 & H2).
      apply (MStarApp _ (c :: s1) s2); [apply IH|]; assumption.
    + intros H. apply star_cons in H as (s1 & s2 & -> & H1 & H2).
      constructor; [apply IH|]; assumption.
Qed.

(** [test] accepts exactly the strings of the language. *)
Lemma test_spec : forall s r, test r s = true <-> Matches r s.
Proof.
  induction s as [|c s IH]; intros r; simpl.
  - apply nullable_spec.
  - rewrite IH. apply deriv_spec.
Qed.

End RegexFacts.

Module PatternFacts.

Import Regex RegexFacts.

Lemma Matches_classes q r s :
  classes_within q r -> Matches r s -> forallb q s = true.
Proof.
  intros Hq H. induction H; simpl in *; auto.
  - rewrite Hq by assumption. reflexivity.
  - destruct Hq. rewrite forallb_app, IHMatches1, IHMatches2; auto.
  - destruct Hq; auto.
  - destruct Hq; auto.
  - rewrite forallb_app, IHMatches1, IHMatches2; auto.
Qed.

Lemma classes_within_Upto q n r :
  classes_within q r -> classes_within q (Upto n r).
Proof. intros H. induction n; simpl; auto. Qed.

Lemma test_Void s : test Void s = false.
Proof. induction s; simpl; auto. Qed.

Lemma test_star_cls p s : test (Seq Eps (Star (Cls p))) s = forallb p s.
Proof.
  induction s as [|c s IH]; simpl; [reflexivity|].
  destruct (p c); simpl; [exact IH | apply test_Void].
Qed.

(** [/^[...]+$/] accepts the non-empty strings over its class. *)
Lemma test_plus_cls p s :
  test (Plus (Cls p)) s = negb (isEmpty s) && forallb p s.
Proof.
  destruct s as [|c s]; simpl; [reflexivity|].
  destruct (p c); simpl; [apply test_star_cls | apply test_Void].
Qed.

Ltac to_prop H :=
  repeat first
    [ rewrite orb_true_iff in H | rewrite andb_true_iff in H
    | rewrite N.eqb_eq in H | rewrite N.leb_le in H | rewrite N.ltb_lt in H ].

Lemma isAlnum_basic c : isAlnum c = true -> isBasicLatin c = true.
Proof.
  unfold isAlnum, isLower, isUpper, isDigit, isBasicLatin. intros H.
  to_prop H. apply N.ltb_lt. lia.
Qed.

Lemma emailLocalChar_basic c :
  Validation.emailLocalChar c = true -> isBasicLatin c = true.
Proof.
  unfold Validation.emailLocalChar. intros H.
  apply orb_true_iff in H as [H|H]; [apply isAlnum_basic, H|].
  apply existsb_exists in H as (k & Hin & Hk).
  apply N.eqb_eq in Hk. subst k. apply N.ltb_lt.
  vm_compute in Hin. intuition lia.
Qed.

Lemma alnumOrHyphen_basic c :
  Validation.alnumOrHyphen c = true -> isBasicLatin c = true.
Proof.
  unfold Validation.alnumOrHyphen. intros H.
  apply orb_true_iff in H as [H|H]; [apply isAlnum_basic, H|].
  apply N.eqb_eq in H. subst c. reflexivity.
Qed.

Lemma Chr_basic k c : k < 0x80 -> N.eqb k c = true -> isBasicLatin c = true.
Proof. intros Hk H. apply N.eqb_eq in H. subst c. apply N.ltb_lt, Hk. Qed.

Lemma domainLabel_basic : classes_within isBasicLatin Validation.domainLabel.
Proof.
  unfold Validation.domainLabel, Opt. cbn [classes_within].
  split; [exact isAlnum_basic|]. split; [|exact I].
  split; [|exact isAlnum_basic].
  apply classes_within_Upto. exact alnumOrHyphen_basic.
Qed.

(** Every address [EMAIL_REGEX] accepts is written in Basic Latin. *)
Lemma EMAIL_REGEX_basic_latin s :
  test Validation.EMAIL_REGEX s = true -> forallb isBasicLatin s = true.
Proof.
  intros H. apply test_spec in H. revert H. apply Matches_classes.
  unfold Validation.EMAIL_REGEX, Plus, Chr. cbn [classes_within].
  pose proof domainLabel_basic as Hlabel.
  split; [split; exact emailLocalChar_basic|].
  split; [intros c; apply Chr_basic; lia|].
  split; [exact Hlabel|].
  split; [intros c; apply Chr_basic; lia | exact Hlabel].
Qed.

End PatternFacts.

(** ** The validation utilities module *)

Module ValidationFacts.

Import Regex RegexFacts PatternFacts Validation.

Lemma sanitizeString_whitespace_only (s : jsstring) :
  forallb isWhiteSpace s = true -> sanitizeString (JSString s) = [].
Proof. intros H. simpl. rewrite trim_whitespace by assumption. reflexivity. Qed.

Lemma sanitizeString_control_only (s : jsstring) :
  forallb isControl s = true -> sanitizeString (JSString s) = [].
Proof.
  intros H. simpl. apply trim_sublist with (p := isControl) in H.
  induction (trim s) as [|c t IH]; simpl; [reflexivity|].
  simpl in H. apply andb_true_iff in H as [Hc Ht].
  rewrite Hc. simpl. auto.
Qed.

Lemma validateRequired_empty v fieldName :
  sanitizeString v = [] ->
  validateRequired v fieldName =
    {| isValid := false; error := Some REQUIRED; value := JSString [] |}.
Proof. intros H. unfold validateRequired. rewrite H. reflexivity. Qed.

Lemma normalizePhone_digits (d : jsstring) :
  forallb isDigit d = true -> normalizePhone (JSString d) = d.
Proof. intros H. simpl. apply filter_forallb, H. Qed.

(** The digits of the display form of a ten-digit number are that number. *)
Lemma normalizePhone_display (d : jsstring) :
  forallb isDigit d = true ->
  normalizePhone
    (JSString (js "(" ++ slice 0 3 d ++ js ") " ++ slice 3 6 d
               ++ js "-" ++ sliceFrom 6 d)) = d.
Proof.
  intros Hd. unfold normalizePhone. rewrite !List.filter_app.
  unfold slice, sliceFrom.
  rewrite (filter_forallb isDigit (firstn (3 - 0) (skipn 0 d)))
    by auto using forallb_firstn, forallb_skipn.
  rewrite (filter_forallb isDigit (firstn (6 - 3) (skipn 3 d)))
    by auto using forallb_firstn, forallb_skipn.
  rewrite (filter_forallb isDigit (skipn 6 d))
    by auto using forallb_firstn, forallb_skipn.
  change (List.filter isDigit (js "(")) with (@nil N).
  change (List.filter isDigit (js ") ")) with (@nil N).
  change (List.filter isDigit (js "-")) with (@nil N).
  simpl app. change (skipn 0 d) with d.
  replace (skipn 6 d) with (skipn 3 (skipn 3 d))
    by (rewrite skipn_skipn; reflexivity).
  change (6 - 3)%nat with 3%nat. change (3 - 0)%nat with 3%nat.
  rewrite (firstn_skipn 3 (skipn 3 d)). apply firstn_skipn.
Qed.

Lemma formatPhone_ten (p : jsstring) :
  length (normalizePhone (JSString p)) = 10%nat ->
  formatPhone (JSString p) =
    let digits := normalizePhone (JSString p) in
    JSString (js "(" ++ slice 0 3 digits ++ js ") " ++ slice 3 6 digits
              ++ js "-" ++ sliceFrom 6 digits).
Proof. intros H. unfold formatPhone. rewrite H. reflexivity. Qed.

(** C7: formatting a ten-digit number gives the grouping
    [(ddd) ddd-dddd], and formatting that display form again gives the same
    string; ["4155551234"] and ["(415) 555-1234"] both format to
    ["(415) 555-1234"]. *)
Theorem formatPhone_ten_digits_idempotent :
  (forall d : jsstring,
     forallb isDigit d = true -> length d = 10%nat ->
     formatPhone (JSString d) =
       JSString (js "(" ++ slice 0 3 d ++ js ") " ++ slice 3 6 d
                 ++ js "-" ++ sliceFrom 6 d)
     /\ formatPhone (formatPhone (JSString d)) = formatPhone (JSString d))
  /\ formatPhone (JSString (js "4155551234")) = JSString (js "(415) 555-1234")
  /\ formatPhone (JSString (js "(415) 555-1234"))
     = JSString (js "(415) 555-1234").
Proof.
  split; [|split; reflexivity].
  intros d Hd Hlen.
  assert (Hfmt : formatPhone (JSString d) =
                 JSString (js "(" ++ slice 0 3 d ++ js ") " ++ slice 3 6 d
                           ++ js "-" ++ sliceFrom 6 d)).
  { rewrite formatPhone_ten; rewrite normalizePhone_digits by assumption;
      [reflexivity | assumption]. }
  split; [exact Hfmt|].
  rewrite Hfmt at 1.
  rewrite formatPhone_ten; rewrite normalizePhone_display by assumption;
    [symmetry; exact Hfmt | assumption].
Qed.

Lemma formatPhone_ten_digits_idempotent_witness :
  formatPhone (formatPhone (JSString (js "4155551234")))
  = formatPhone (JSString (js "4155551234")).
Proof.
  apply (proj1 formatPhone_ten_digits_idempotent (js "4155551234"));
    reflexivity.
Defined.

(** C8, at the input U+0001 U+0020 U+0001: the string consists of a space
    between two control characters; [trim] finds no whitespace at its ends,
    the control characters are then removed, and the space is left, so
    [validateRequired] accepts it. *)
Theorem sanitizeString_keeps_enclosed_whitespace :
  let input := [0x01; 0x20; 0x01] in
  forallb (fun c => isWhiteSpace c || isControl c) input = true
  /\ sanitizeString (JSString input) = [0x20]
  /\ validateRequired (JSString input) (js "Field")
     = {| isValid := true; error := None; value := JSString [0x20] |}.
Proof. repeat split. Qed.

(** C10: a value that is not a string sanitizes and normalizes to the empty
    string, and every validator answers on it as it does on the empty
    string. *)
Theorem non_string_value_is_empty_field
  (toLowerCase : jsstring -> jsstring) (v : jsvalue) :
  isString v = false ->
  sanitizeString v = []
  /\ normalizePhone v = []
  /\ (forall fieldName,
        validateRequired v fieldName = validateRequired (JSString []) fieldName)
  /\ (forall required,
        validateEmail toLowerCase v required
        = validateEmail toLowerCase (JSString []) required)
  /\ (forall required,
        validatePhone v required = validatePhone (JSString []) required)
  /\ (forall required,
        validateName v required = validateName (JSString []) required)
  /\ (forall required,
        validateMessage v required = validateMessage (JSString []) required)
  /\ (forall required,
        validateGrade toLowerCase v required
        = validateGrade toLowerCase (JSString []) required)
  /\ (forall type options,
        validateField toLowerCase v type options
        = validateField toLowerCase (JSString []) type options).
Proof.
  intros H. destruct v; try discriminate H; repeat split.
Qed.

Lemma non_string_value_is_empty_field_witness :
  sanitizeString JSNull = []
  /\ normalizePhone (JSNumber 42) = []
  /\ validateName JSUndefined true = validateName (JSString []) true.
Proof.
  split; [|split].
  - apply (non_string_value_is_empty_field (map lowerBasicLatin) JSNull).
    reflexivity.
  - apply (non_string_value_is_empty_field (map lowerBasicLatin) (JSNumber 42)).
    reflexivity.
  - apply (non_string_value_is_empty_field (map lowerBasicLatin) JSUndefined).
    reflexivity.
Defined.

(** C4, as stated, fails on an accepted phone number: the result carries
    the display form, not the sanitized input. *)
Lemma validatePhone_value_is_reformatted :
  let input := JSString (js "4155551234") in
  isValid (validatePhone input false) = true
  /\ value (validatePhone input false) = JSString (js "(415) 555-1234")
  /\ value (validatePhone input false) <> JSString (sanitizeString input).
Proof. repeat split. discriminate. Qed.

Ltac case_if :=
  match goal with
  | |- context [value (if ?b then _ else _)] => destruct b
  end.

Lemma validateRequired_value v fieldName :
  value (validateRequired v fieldName) = JSString (sanitizeString v).
Proof. unfold validateRequired. case_if; reflexivity. Qed.

Lemma emptyResult_value required sanitized :
  value (emptyResult required sanitized) = JSString sanitized.
Proof. destruct required; reflexivity. Qed.

Lemma validateName_value v required :
  value (validateName v required) = JSString (sanitizeString v).
Proof.
  unfold validateName.
  repeat case_if; auto using emptyResult_value.
Qed.

Lemma validateMessage_value v required :
  value (validateMessage v required) = JSString (sanitizeString v).
Proof.
  unfold validateMessage.
  repeat case_if; auto using emptyResult_value.
Qed.

Lemma validateGrade_value toLowerCase v required :
  value (validateGrade toLowerCase v required) = JSString (sanitizeString v).
Proof.
  unfold validateGrade.
  repeat case_if; auto using emptyResult_value.
Qed.

Lemma validateEmail_value toLowerCase v required :
  value (validateEmail toLowerCase v required)
  = (if isValid (validateEmail toLowerCase v required)
        && negb (isEmpty (sanitizeString v))
     then JSString (toLowerCase (sanitizeString v))
     else JSString (sanitizeString v)).
Proof.
  unfold validateEmail.
  destruct (isEmpty (sanitizeString v)).
  { rewrite andb_false_r. apply emptyResult_value. }
  destruct (negb (test EMAIL_REGEX (sanitizeString v))); [reflexivity|].
  destruct (negb (length (split 64 (sanitizeString v)) =? 2)%nat
            || isEmpty (nth 0 (split 64 (sanitizeString v)) [])
            || isEmpty (nth 1 (split 64 (sanitizeString v)) []));
    [reflexivity|].
  destruct ((64 <? length (nth 0 (split 64 (sanitizeString v)) []))%nat
            || (255 <? length (nth 1 (split 64 (sanitizeString v)) []))%nat);
    reflexivity.
Qed.

Lemma validatePhone_value v required :
  value (validatePhone v required)
  = (if isValid (validatePhone v required)
     then formatPhone (JSString (sanitizeString v))
     else JSString (sanitizeString v)).
Proof.
  unfold validatePhone.
  destruct (isEmpty (sanitizeString v)) eqn:He.
  { apply isEmpty_true in He. rewrite He. destruct required; reflexivity. }
  destruct (negb (test PHONE_REGEX (sanitizeString v))); [reflexivity|].
  destruct (length (normalizePhone (JSString (sanitizeString v)))
            <? MIN_PHONE_DIGITS)%nat; [reflexivity|].
  destruct (MAX_PHONE_DIGITS
            <? length (normalizePhone (JSString (sanitizeString v))))%nat;
    reflexivity.
Qed.

(** C4, amended: [value] is the sanitized input in every rejected result and
    in every result of [validateRequired], [validateName], [validateMessage]
    and [validateGrade]; an accepted non-empty email carries the lower-cased
    sanitized input and an accepted phone number carries [formatPhone] of
    the sanitized input. *)
Theorem value_is_sanitized_or_normalized
  (toLowerCase : jsstring -> jsstring) (v : jsvalue)
  (required : bool) (fieldName type : jsstring) (options : Options) :
  let sanitized := sanitizeString v in
  value (validateRequired v fieldName) = JSString sanitized
  /\ value (validateName v required) = JSString sanitized
  /\ value (validateMessage v required) = JSString sanitized
  /\ value (validateGrade toLowerCase v required) = JSString sanitized
  /\ value (validateEmail toLowerCase v required)
     = (if isValid (validateEmail toLowerCase v required)
           && negb (isEmpty sanitized)
        then JSString (toLowerCase sanitized) else JSString sanitized)
  /\ value (validatePhone v required)
     = (if isValid (validatePhone v required)
        then formatPhone (JSString sanitized) else JSString sanitized)
  /\ (isValid (validateField toLowerCase v type options) = true
      \/ value (validateField toLowerCase v type options)
         = JSString sanitized).
Proof.
  intros sanitized. subst sanitized.
  split; [apply validateRequired_value|].
  split; [apply validateName_value|].
  split; [apply validateMessage_value|].
  split; [apply validateGrade_value|].
  split; [apply validateEmail_value|].
  split; [apply validatePhone_value|].
  unfold validateField.
  set (req := default true (opt_required options)).
  repeat match goal with
         | |- context [if ?b then _ else _] => destruct b
         end;
    auto using validateRequired_value, validateName_value,
      validateMessage_value, validateGrade_value.
  - rewrite validateEmail_value.
    destruct (isValid (validateEmail toLowerCase v req)); auto.
  - rewrite validatePhone_value.
    destruct (isValid (validatePhone v req)); auto.
Qed.

(** C6: an email that [validateEmail] accepts comes back as the lower-cased
    sanitized input, which is its letter-by-letter Basic Latin lower-casing;
    ["User@Example.COM"] is accepted and comes back as
    ["user@example.com"]. The host's [toLowerCase] is taken with its
    behaviour on Basic Latin text. *)
Theorem validateEmail_returns_lowercase (toLowerCase : jsstring -> jsstring) :
  (forall s, forallb isBasicLatin s = true ->
             toLowerCase s = map lowerBasicLatin s) ->
  (forall email required,
     isValid (validateEmail toLowerCase email required) = true ->
     value (validateEmail toLowerCase email required)
     = JSString (toLowerCase (sanitizeString email))
     /\ toLowerCase (sanitizeString email)
        = map lowerBasicLatin (sanitizeString email))
  /\ validateEmail toLowerCase (JSString (js "User@Example.COM")) true
     = {| isValid := true; error := None;
          value := JSString (js "user@example.com") |}.
Proof.
  intros Hlower. split.
  - intros email required Hvalid.
    rewrite validateEmail_value, Hvalid. revert Hvalid.
    unfold validateEmail.
    destruct (isEmpty (sanitizeString email)) eqn:He.
    { intros _. apply isEmpty_true in He. rewrite He.
      rewrite (Hlower []) by reflexivity. auto. }
    destruct (test EMAIL_REGEX (sanitizeString email)) eqn:Ht;
      [|discriminate].
    intros _. split; [reflexivity|].
    apply Hlower, EMAIL_REGEX_basic_latin, Ht.
  - assert (Hres :
      validateEmail toLowerCase (JSString (js "User@Example.COM")) true
      = {| isValid := true; error := None;
           value := JSString (toLowerCase (js "User@Example.COM")) |})
      by (vm_compute; reflexivity).
    rewrite Hres, Hlower by reflexivity. reflexivity.
Qed.

Lemma validateEmail_returns_lowercase_witness :
  value (validateEmail (map lowerBasicLatin)
           (JSString (js "  Jordan.Lee@Example.ORG ")) true)
  = JSString (js "jordan.lee@example.org").
Proof.
  pose proof
    (proj1 (validateEmail_returns_lowercase (map lowerBasicLatin)
              (fun s _ => eq_refl))
       (JSString (js "  Jordan.Lee@Example.ORG ")) true eq_refl) as [H _].
  exact H.
Defined.

Lemma test_PHONE_REGEX s :
  test PHONE_REGEX s = negb (isEmpty s) && forallb phoneChar s.
Proof. apply test_plus_cls. Qed.

(** C5, as stated, fails on the contact form's rule: sixteen digits are
    accepted, and so are characters other than digits, spaces, hyphens and
    parentheses. *)
Lemma contact_phone_accepts_sixteen_digits :
  let m := js "1234567890123456" in
  let n := js "call 4155551234 now" in
  length (List.filter isDigit (trim m)) = 16%nat
  /\ Contact.isValid (Contact.validationRules.phone m) = true
  /\ forallb phoneChar (trim n) = false
  /\ Contact.isValid (Contact.validationRules.phone n) = true.
Proof. repeat split. Qed.

(** C5, amended: [validatePhone] accepts a non-empty sanitized value exactly
    when it is made of digits, whitespace, hyphens and parentheses and has
    between 10 and 15 digits; the contact form's rule accepts a non-empty
    trimmed value exactly when it has at least 10 digits. *)
Theorem phone_acceptance (v : jsvalue) (required : bool) (m : jsstring) :
  let sanitized := sanitizeString v in
  let trimmed := trim m in
  (isEmpty sanitized = false ->
   (isValid (validatePhone v required) = true <->
    forallb phoneChar sanitized = true
    /\ (10 <= length (List.filter isDigit sanitized) <= 15)%nat))
  /\ (isEmpty trimmed = false ->
      (Contact.isValid (Contact.validationRules.phone m) = true <->
       (10 <= length (List.filter isDigit trimmed))%nat)).
Proof.
  intros sanitized trimmed. split; intros He.
  - unfold validatePhone. fold sanitized. rewrite He, test_PHONE_REGEX, He.
    unfold normalizePhone, MIN_PHONE_DIGITS, MAX_PHONE_DIGITS, invalid.
    cbn [negb andb].
    destruct (forallb phoneChar sanitized); cbn [negb].
    + destruct (Nat.ltb_spec (length (List.filter isDigit sanitized)) 10);
        simpl; [split; [discriminate | lia]|].
      destruct (Nat.ltb_spec 15 (length (List.filter isDigit sanitized)));
        simpl; [split; [discriminate | lia]|].
      split; [split; [reflexivity | lia] | reflexivity].
    + split; [discriminate | intros [? _]; discriminate].
  - unfold Contact.validationRules.phone. fold trimmed. rewrite He.
    destruct (Nat.ltb_spec (length (List.filter isDigit trimmed)) 10);
      simpl; split; try discriminate; try lia; reflexivity.
Qed.

Lemma phone_acceptance_witness :
  isValid (validatePhone (JSString (js "(415) 555-1234")) false) = true
  /\ Contact.isValid (Contact.validationRules.phone (js "415-555-1234")) = true.
Proof.
  pose proof
    (phone_acceptance (JSString (js "(415) 555-1234")) false
       (js "415-555-1234")) as [H1 H2].
  split.
  - apply (H1 eq_refl). vm_compute. split; [reflexivity | lia].
  - apply (H2 eq_refl). vm_compute. lia.
Defined.

(** C9, as stated, fails on the contact form's rule: it measures the
    trimmed value, in which control characters still count. A message of ten
    characters, one of them a line feed, has sanitized length 9 and is
    accepted. *)
Lemma contact_message_counts_control_characters :
  let m := js "abcd" ++ [0x0A] ++ js "efghi" in
  length (sanitizeString (JSString m)) = 9%nat
  /\ isValid (validateMessage (JSString m) true) = false
  /\ Contact.isValid (Contact.validationRules.message m) = true.
Proof. repeat split. Qed.

Lemma length_cases (s : jsstring) :
  isEmpty s = true /\ length s = 0%nat
  \/ isEmpty s = false /\ (0 < length s)%nat.
Proof. destruct s; simpl; [left | right]; split; auto; lia. Qed.

Lemma validateMessage_bounds (v : jsvalue) (required : bool) :
  let sanitized := sanitizeString v in
  (isValid (validateMessage v required) = true <->
   (10 <= length sanitized <= 1000)%nat
   \/ (required = false /\ length sanitized = 0%nat))
  /\ ((0 < length sanitized < 10)%nat ->
      validateMessage v required = invalid MESSAGE_TOO_SHORT sanitized)
  /\ ((1000 < length sanitized)%nat ->
      validateMessage v required = invalid MESSAGE_TOO_LONG sanitized).
Proof.
  intros sanitized.
  unfold validateMessage, emptyResult, invalid, MIN_MESSAGE_LENGTH,
    MAX_MESSAGE_LENGTH.
  fold sanitized.
  destruct (length_cases sanitized) as [[-> Hs]|[-> Hs]];
    destruct (Nat.ltb_spec (length sanitized) 10);
    destruct (Nat.ltb_spec 1000 (length sanitized));
    destruct required;
    simpl; (split; [split|split]); intros;
    try discriminate; try lia; try reflexivity;
    try (right; split; [reflexivity|assumption]);
    try (left; lia);
    match goal with
    | H : _ \/ _ |- _ => destruct H as [?|[? ?]]; try discriminate; lia
    end.
Qed.

Lemma contact_message_bounds (m : jsstring) :
  let trimmed := trim m in
  (Contact.isValid (Contact.validationRules.message m) = true <->
   (10 <= length trimmed <= 1000)%nat)
  /\ ((0 < length trimmed < 10)%nat ->
      Contact.validationRules.message m
      = {| Contact.isValid := false;
           Contact.error := Some Contact.MESSAGE_TOO_SHORT |})
  /\ ((1000 < length trimmed)%nat ->
      Contact.validationRules.message m
      = {| Contact.isValid := false;
           Contact.error := Some Contact.MESSAGE_TOO_LONG |}).
Proof.
  intros trimmed.
  unfold Contact.validationRules.message, Contact.MIN_MESSAGE_LENGTH,
    Contact.MAX_MESSAGE_LENGTH.
  fold trimmed.
  destruct (length_cases trimmed) as [[-> Ht]|[-> Ht]];
    destruct (Nat.ltb_spec (length trimmed) 10);
    destruct (Nat.ltb_spec 1000 (length trimmed));
    simpl; repeat split; intros; try discriminate; try lia; reflexivity.
Qed.

(** C9, amended: whether the field is required or optional,
    [validateMessage] accepts exactly when the sanitized length is within
    [10, 1000], or the field is optional and the sanitized value is empty;
    the contact form's rule accepts exactly when the trimmed length is
    within [10, 1000]; below 10 a non-empty message is too short, above 1000
    it is too long. *)
Theorem message_length_bounds (v : jsvalue) (required : bool)
  (m : jsstring) :
  let sanitized := sanitizeString v in
  let trimmed := trim m in
  (isValid (validateMessage v required) = true <->
   (10 <= length sanitized <= 1000)%nat
   \/ (required = false /\ length sanitized = 0%nat))
  /\ ((0 < length sanitized < 10)%nat ->
      validateMessage v required = invalid MESSAGE_TOO_SHORT sanitized)
  /\ ((1000 < length sanitized)%nat ->
      validateMessage v required = invalid MESSAGE_TOO_LONG sanitized)
  /\ (Contact.isValid (Contact.validationRules.message m) = true <->
      (10 <= length trimmed <= 1000)%nat)
  /\ ((0 < length trimmed < 10)%nat ->
      Contact.validationRules.message m
      = {| Contact.isValid := false;
           Contact.error := Some Contact.MESSAGE_TOO_SHORT |})
  /\ ((1000 < length trimmed)%nat ->
      Contact.validationRules.message m
      = {| Contact.isValid := false;
           Contact.error := Some Contact.MESSAGE_TOO_LONG |}).
Proof.
  intros sanitized trimmed.
  destruct (validateMessage_bounds v required) as (H1 & H2 & H3).
  destruct (contact_message_bounds m) as (H4 & H5 & H6).
  auto 10.
Qed.

Lemma message_length_bounds_witness :
  validateMessage (JSString (js "123456789")) false
  = invalid MESSAGE_TOO_SHORT (js "123456789")
  /\ isValid (validateMessage (JSString (js "1234567890")) true) = true
  /\ isValid (validateMessage (JSString (js "  ")) false) = true
  /\ Contact.isValid (Contact.validationRules.message (js "1234567890")) = true.
Proof.
  pose proof (message_length_bounds (JSString (js "123456789")) false [])
    as (_ & H9 & _).
  pose proof (message_length_bounds (JSString (js "1234567890")) true
                (js "1234567890")) as (H10 & _ & _ & C10 & _).
  pose proof (message_length_bounds (JSString (js "  ")) false [])
    as (H0 & _).
  split; [apply H9; vm_compute; lia|].
  split; [apply H10; left; vm_compute; lia|].
  split; [apply H0; right; split; reflexivity|].
  apply C10; vm_compute; lia.
Defined.

(** The boundary messages of 1000 and 1001 characters. *)
Example message_boundary_1000 :
  isValid (validateMessage (JSString (repeat 0x61 1000)) true) = true
  /\ validateMessage (JSString (repeat 0x61 1001)) true
     = invalid MESSAGE_TOO_LONG (repeat 0x61 1001)
  /\ Contact.isValid (Contact.validationRules.message (repeat 0x61 1000))
     = true
  /\ Contact.validationRules.message (repeat 0x61 1001)
     = {| Contact.isValid := false;
          Contact.error := Some Contact.MESSAGE_TOO_LONG |}.
Proof. vm_compute. auto. Qed.

End ValidationFacts.

(** ** The contact form module *)

Module ContactFacts.

Import Contact.

Lemma bind_eq {A B} (m : M A) (k : A -> M B) w :
  bind m k w = k (fst (m w)) (snd (m w)).
Proof. unfold bind. destruct (m w). reflexivity. Qed.

Lemma keeps_ret {A X} (proj : World -> X) (a : A) : keeps proj (ret a).
Proof. intros w. reflexivity. Qed.

Lemma keeps_get {X} (proj : World -> X) : keeps proj get.
Proof. intros w. reflexivity. Qed.

Lemma keeps_bind {A B X} (proj : World -> X) (m : M A) (k : A -> M B) :
  keeps proj m -> (forall a, keeps proj (k a)) -> keeps proj (bind m k).
Proof.
  intros Hm Hk w. rewrite bind_eq, Hk. apply Hm.
Qed.

Create HintDb keeps.

Ltac keeps_step :=
  match goal with
  | |- keeps _ (bind _ _) => apply keeps_bind; [|intros ?]
  | |- keeps _ (ret _) => apply keeps_ret
  | |- keeps _ get => apply keeps_get
  | |- keeps _ (match ?x with _ => _ end) => destruct x
  | |- keeps _ _ => solve [intros ?; reflexivity]
  | |- keeps _ _ => solve [auto with keeps]
  end.

Ltac keeps_tac := repeat keeps_step.

Lemma keeps_showFieldError i e : keeps core (showFieldError i e).
Proof. unfold showFieldError, announceToScreenReader. keeps_tac. Qed.

Lemma keeps_clearFieldError i : keeps core (clearFieldError i).
Proof. unfold clearFieldError. keeps_tac. Qed.

#[local] Hint Resolve keeps_showFieldError keeps_clearFieldError : keeps.

Lemma keeps_validateField i : keeps core (validateField i).
Proof. unfold validateField. keeps_tac. Qed.

#[local] Hint Resolve keeps_validateField : keeps.

Lemma keeps_forEachField idxs acc : keeps core (forEachField idxs acc).
Proof.
  revert acc. induction idxs as [|i idxs IH]; intros acc; simpl; keeps_tac.
Qed.

#[local] Hint Resolve keeps_forEachField : keeps.

Lemma keeps_validateForm : keeps core validateForm.
Proof. unfold validateForm. keeps_tac. Qed.

Lemma keeps_checkHoneypot : keeps core checkHoneypot.
Proof. unfold checkHoneypot. keeps_tac. Qed.

Lemma keeps_collectFormData : keeps core collectFormData.
Proof. unfold collectFormData. keeps_tac. Qed.

Lemma keeps_showSuccessMessage : keeps core showSuccessMessage.
Proof. unfold showSuccessMessage, announceToScreenReader. keeps_tac. Qed.

Lemma keeps_showErrorMessage m : keeps core (showErrorMessage m).
Proof. unfold showErrorMessage, announceToScreenReader. keeps_tac. Qed.

#[local] Hint Resolve keeps_validateForm keeps_checkHoneypot
  keeps_collectFormData keeps_showSuccessMessage keeps_showErrorMessage
  : keeps.

Lemma keeps_catchBlock e : keeps core (catchBlock e).
Proof. unfold catchBlock. keeps_tac. Qed.

Lemma keeps_handleFieldBlur i : keeps core (handleFieldBlur i).
Proof. unfold handleFieldBlur. keeps_tac. Qed.

Lemma keeps_handleFieldInput i : keeps core (handleFieldInput i).
Proof. unfold handleFieldInput. keeps_tac. Qed.

Lemma handleFormSubmit_cases w :
  match handleFormSubmit w with
  | (None, w') => core w' = core w
  | (Some p, w') =>
      flag w = false /\ flag w' = true
      /\ originalButtonText p
         = match button w with Some b => textContent b | None => [] end
      /\ button w' = (fun _ => sending) <$> button w
      /\ exists t, trace w' = t ++ [SubmitFormData (formData p)]
  end.
Proof.
  unfold handleFormSubmit.
  rewrite bind_eq; cbn beta. rewrite bind_eq; cbn beta.
  change (isSubmitting (formState (get (emit PreventDefault w).2).1))
    with (flag w).
  set (w0 := (get (emit PreventDefault w).2).2).
  assert (H0 : core w0 = core w) by reflexivity.
  destruct (flag w) eqn:Hf.
  { rewrite bind_eq; cbn beta. exact H0. }
  rewrite bind_eq; cbn beta. rewrite bind_eq; cbn beta.
  set (w1 := (emit _ w0).2).
  assert (H1 : core w1 = core w) by exact H0.
  set (w2 := (checkHoneypot w1).2).
  assert (H2 : core w2 = core w)
    by (unfold w2; rewrite keeps_checkHoneypot; exact H1).
  destruct ((checkHoneypot w1).1); cbn [negb].
  2: { rewrite bind_eq; cbn beta. exact H2. }
  rewrite bind_eq; cbn beta.
  set (w3 := (validateForm w2).2).
  assert (H3 : core w3 = core w)
    by (unfold w3; rewrite keeps_validateForm; exact H2).
  destruct ((validateForm w2).1); cbn [negb].
  2: { rewrite bind_eq; cbn beta. exact H3. }
  rewrite bind_eq; cbn beta. rewrite bind_eq; cbn beta.
  rewrite bind_eq; cbn beta. rewrite bind_eq; cbn beta.
  rewrite bind_eq; cbn beta.
  set (w4 := (get (setFormState _ w3).2).2).
  change ((get (setFormState _ w3).2).1) with w4.
  set (w5 := (setButton _ w4).2).
  set (data := (collectFormData w5).1).
  set (w6 := (collectFormData w5).2).
  assert (H6 : core w6 = core w5) by apply keeps_collectFormData.
  pose proof (f_equal snd H3) as Hb3. pose proof (f_equal fst H6) as Hf6.
  pose proof (f_equal snd H6) as Hb6. cbn [core fst snd] in Hb3, Hf6, Hb6.
  unfold ret. cbn [originalButtonText formData].
  split; [reflexivity|]. split; [exact Hf6|].
  split; [change (submitButton (form w4)) with (button w3); rewrite Hb3;
          reflexivity|].
  split.
  - change (button (submitFormData data w6).2) with (button w6).
    rewrite Hb6. change (button w5) with ((fun _ => sending) <$> button w3).
    rewrite Hb3. reflexivity.
  - exists (trace w6 ++ [Console Log "[Contact] Submitting form data"]).
    change (trace (submitFormData data w6).2)
      with ((trace w6 ++ [Console Log "[Contact] Submitting form data"])
            ++ [SubmitFormData data]).
    reflexivity.
Qed.

Lemma extend_extend w a b : extend (extend w a) b = extend w (a ++ b).
Proof. unfold extend; simpl. rewrite <- app_assoc. reflexivity. Qed.

Lemma strictEq_nil s : strictEq s [] = isEmpty s.
Proof. destruct s; reflexivity. Qed.

Lemma checkHoneypot_spam w hp :
  honeypotField (form w) = Some hp ->
  isEmpty (trim (value hp)) = false ->
  checkHoneypot w
  = (false, extend w [Console Warn "[Contact] Spam detected via honeypot"]).
Proof.
  intros Hhp Hne. unfold checkHoneypot, bind, get. rewrite Hhp.
  rewrite strictEq_nil, Hne. reflexivity.
Qed.

(** C1: when the honeypot field has a non-empty trimmed value, the submit
    handler returns with no submission pending and leaves the page as it
    was; all it does is prevent the default action and write to the console,
    so no field is validated, the submission endpoint is not called, and no
    notice is shown or announced, whatever the other fields hold. *)
Theorem honeypot_blocks_submission (w : World) (hp : Field) :
  honeypotField (form w) = Some hp ->
  isEmpty (trim (value hp)) = false ->
  handleFormSubmit w
  = (None,
     extend w
       (if isSubmitting (formState w) then
          [PreventDefault;
           Console Warn "[Contact] Form submission already in progress"]
        else
          [PreventDefault;
           Console Log "[Contact] Form submission initiated";
           Console Warn "[Contact] Spam detected via honeypot";
           Console Warn "[Contact] Form submission blocked: spam detected"])).
Proof.
  intros Hhp Hne. unfold handleFormSubmit.
  unfold bind at 1. unfold emit at 1, modify at 1.
  unfold bind at 1. unfold get at 1.
  change (isSubmitting (formState (extend w [PreventDefault])))
    with (isSubmitting (formState w)).
  destruct (isSubmitting (formState w)).
  - unfold bind, emit, modify, ret. rewrite extend_extend. reflexivity.
  - unfold bind at 1. unfold emit at 1, modify at 1.
    unfold bind at 1.
    rewrite (checkHoneypot_spam _ hp) by assumption.
    unfold bind, emit, modify, ret. cbn [negb].
    rewrite !extend_extend. reflexivity.
Qed.

Lemma honeypot_blocks_submission_witness :
  handleFormSubmit (samplePage "http://spam.example" false)
  = (None,
     extend (samplePage "http://spam.example" false)
       [PreventDefault;
        Console Log "[Contact] Form submission initiated";
        Console Warn "[Contact] Spam detected via honeypot";
        Console Warn "[Contact] Form submission blocked: spam detected"]).
Proof.
  apply (honeypot_blocks_submission (samplePage "http://spam.example" false)
           (sampleField "website" "http://spam.example"));
    reflexivity.
Defined.

Lemma keeps_settlement o :
  keeps core
    (match o with
     | Resolved result =>
         if success result then
           formReset ;;
           setFormState (fun st =>
             {| isSubmitting := isSubmitting st;
                validationErrors := ∅;
                touchedFields := ∅ |}) ;;
           showSuccessMessage ;;
           emit (Console Log "[Contact] Form submitted successfully")
         else
           catchBlock
             (ErrorValue (Some (orElse (res_message result) SUBMISSION_FAILED)))
     | Rejected reason => catchBlock reason
     end).
Proof. pose proof keeps_catchBlock. keeps_tac. Qed.

(** The [finally] block runs after every settlement. *)
Lemma handleFormSubmit_settled_cleanup p o w :
  flag (handleFormSubmit_settled p o w).2 = false
  /\ button (handleFormSubmit_settled p o w).2
     = (fun _ => restored (originalButtonText p)) <$> button w.
Proof.
  unfold handleFormSubmit_settled. rewrite bind_eq; cbn beta.
  pose proof (f_equal snd (keeps_settlement o w)) as Hb.
  cbn [core snd] in Hb. rewrite <- Hb. split; reflexivity.
Qed.

(** Nothing is being submitted and no call is pending, or the flag is set
    and exactly one call is pending. *)
Lemma step_invariant s e :
  flag (world s) = false /\ inflight s = []
  \/ flag (world s) = true /\ (exists p, inflight s = [p]) ->
  flag (world (step s e)) = false /\ inflight (step s e) = []
  \/ flag (world (step s e)) = true /\ (exists p, inflight (step s e) = [p]).
Proof.
  intros Inv. destruct e as [|k o|i|i|i v|]; simpl.
  - pose proof (handleFormSubmit_cases (world s)) as Hc.
    destruct (handleFormSubmit (world s)) as [[p|] w']; simpl.
    + destruct Hc as (Hf & Hf' & _).
      destruct Inv as [[_ ->]|[Ht _]]; [|congruence].
      right. eauto.
    + pose proof (f_equal fst Hc) as Hf. cbn [core fst] in Hf.
      rewrite Hf, app_nil_r. exact Inv.
  - destruct Inv as [[Hf Hi]|[Hf [p Hi]]]; rewrite Hi.
    + rewrite lookup_nil. left. auto.
    + destruct k as [|k]; simpl; [|right; eauto].
      left. split; [apply handleFormSubmit_settled_cleanup | reflexivity].
  - pose proof (f_equal fst (keeps_handleFieldBlur i (world s))) as Hf.
    cbn [core fst] in Hf. rewrite Hf. exact Inv.
  - pose proof (f_equal fst (keeps_handleFieldInput i (world s))) as Hf.
    cbn [core fst] in Hf. rewrite Hf. exact Inv.
  - exact Inv.
  - destruct (messageContainer (world s)); exact Inv.
Qed.

Lemma run_invariant es : forall s,
  initial s ->
  flag (world (run s es)) = false /\ inflight (run s es) = []
  \/ flag (world (run s es)) = true /\ (exists p, inflight (run s es) = [p]).
Proof.
  induction es as [|e es IH] using rev_ind; intros s Hs.
  - left. exact Hs.
  - unfold run. rewrite fold_left_app. simpl.
    apply step_invariant, IH, Hs.
Qed.

(** C2: while [isSubmitting] is set, the submit handler returns at once:
    no call is pending from it and the page is as it was, the only effects
    being the prevented default action and a console warning, so no field is
    validated and the endpoint is not called. From the page as loaded, under
    any sequence of events, at most one call is pending, and the flag is set
    exactly while one is. *)
Theorem submit_while_submitting_is_ignored :
  (forall w : World,
     isSubmitting (formState w) = true ->
     handleFormSubmit w
     = (None,
        extend w
          [PreventDefault;
           Console Warn "[Contact] Form submission already in progress"]))
  /\ (forall (s : System) (es : list Event),
        initial s ->
        (length (inflight (run s es)) <= 1)%nat
        /\ (isSubmitting (formState (world (run s es))) = true
            <-> length (inflight (run s es)) = 1%nat)).
Proof.
  split.
  - intros w Hw. unfold handleFormSubmit.
    rewrite bind_eq; cbn beta. rewrite bind_eq; cbn beta.
    change (isSubmitting (formState (get (emit PreventDefault w).2).1))
      with (isSubmitting (formState w)).
    rewrite Hw. rewrite bind_eq; cbn beta.
    unfold ret, emit, modify, get. cbn [fst snd].
    rewrite extend_extend. reflexivity.
  - intros s es Hs.
    destruct (run_invariant es s Hs) as [[Hf Hi]|[Hf [p Hi]]];
      unfold flag in Hf; rewrite Hf, Hi; simpl; split; try lia;
      split; intros; try discriminate; reflexivity.
Qed.

Lemma submit_while_submitting_is_ignored_witness :
  handleFormSubmit (samplePage "" true)
  = (None,
     extend (samplePage "" true)
       [PreventDefault;
        Console Warn "[Contact] Form submission already in progress"]).
Proof.
  apply (proj1 submit_while_submitting_is_ignored (samplePage "" true)).
  reflexivity.
Defined.

(** C3: when the submit handler sets [isSubmitting] and calls the
    submission endpoint, then however the call settles - resolved with
    success, resolved with failure, or rejected - and whatever the page has
    become meanwhile, the handler ends with the flag cleared and the submit
    control enabled, not busy, and carrying the text it had before the
    submission. *)
Theorem submit_cleanup_on_every_exit (w w1 : World) (p : Pending) :
  handleFormSubmit w = (Some p, w1) ->
  isSubmitting (formState w1) = true
  /\ (exists t, trace w1 = t ++ [SubmitFormData (formData p)])
  /\ submitButton (form w1) = (fun _ => sending) <$> submitButton (form w)
  /\ forall (o : Settlement) (w2 : World),
       let w3 := snd (handleFormSubmit_settled p o w2) in
       isSubmitting (formState w3) = false
       /\ submitButton (form w3)
          = (fun _ =>
               restored match submitButton (form w) with
                        | Some b => textContent b
                        | None => []
                        end) <$> submitButton (form w2).
Proof.
  intros Hstart. pose proof (handleFormSubmit_cases w) as Hc.
  rewrite Hstart in Hc. destruct Hc as (_ & Hf & Htext & Hb & Ht).
  split; [exact Hf|]. split; [exact Ht|]. split; [exact Hb|].
  intros o w2 w3. subst w3. unfold button in Htext. rewrite <- Htext.
  apply handleFormSubmit_settled_cleanup.
Qed.

Lemma submit_cleanup_on_every_exit_witness :
  let w3 :=
    snd (handleFormSubmit_settled samplePending (Rejected Nullish)
           sampleSubmitting) in
  isSubmitting (formState w3) = false
  /\ submitButton (form w3) = Some (restored (js "Send Message")).
Proof.
  assert (Hstart : handleFormSubmit (samplePage "" false)
                   = (Some samplePending, sampleSubmitting))
    by (vm_compute; reflexivity).
  destruct (submit_cleanup_on_every_exit _ _ _ Hstart) as (_ & _ & _ & H).
  exact (H (Rejected Nullish) sampleSubmitting).
Defined.

End ContactFacts.

Module StringMoreFacts.

Lemma trimStart_suffix (s : jsstring) :
  exists p, s = p ++ trimStart s /\ forallb isWhiteSpace p = true.
Proof.
  induction s as [|c s IH]; simpl.
  - exists []. auto.
  - destruct (isWhiteSpace c) eqn:Hc.
    + destruct IH as (p & Hp & Hw). exists (c :: p). simpl.
      rewrite Hc, <- Hp. auto.
    + exists []. auto.
Qed.

Lemma trimStart_hd (s : jsstring) c :
  hd_error (trimStart s) = Some c -> isWhiteSpace c = false.
Proof.
  induction s as [|x s IH]; simpl; [discriminate|].
  destruct (isWhiteSpace x) eqn:Hx; [exact IH|].
  simpl. intros [= <-]. exact Hx.
Qed.

Lemma trimStart_fixed (s : jsstring) :
  (forall c, hd_error s = Some c -> isWhiteSpace c = false) ->
  trimStart s = s.
Proof.
  destruct s as [|c s]; simpl; [reflexivity|].
  intros H. rewrite (H c eq_refl). reflexivity.
Qed.

Lemma trimStart_idempotent (s : jsstring) :
  trimStart (trimStart s) = trimStart s.
Proof. apply trimStart_fixed, trimStart_hd. Qed.

(** The first character of a trimmed string is not whitespace. *)
Lemma trim_hd (s : jsstring) c :
  hd_error (trim s) = Some c -> isWhiteSpace c = false.
Proof.
  unfold trim, trimEnd. set (u := trimStart s).
  destruct (trimStart_suffix (rev u)) as (p & Hp & _).
  set (v := trimStart (rev u)) in *.
  assert (Hu : u = rev v ++ rev p).
  { rewrite <- (rev_involutive u), Hp, rev_app_distr. reflexivity. }
  intros Hc. apply (trimStart_hd s). fold u. rewrite Hu.
  destruct (rev v); [discriminate|exact Hc].
Qed.

(** Nor is its last one. *)
Lemma trim_last (s : jsstring) c :
  hd_error (rev (trim s)) = Some c -> isWhiteSpace c = false.
Proof.
  unfold trim, trimEnd. rewrite rev_involutive. apply trimStart_hd.
Qed.

Lemma trim_fixed (s : jsstring) :
  (forall c, hd_error s = Some c -> isWhiteSpace c = false) ->
  (forall c, hd_error (rev s) = Some c -> isWhiteSpace c = false) ->
  trim s = s.
Proof.
  intros Hhd Hlast. unfold trim, trimEnd.
  rewrite (trimStart_fixed s Hhd), (trimStart_fixed (rev s) Hlast).
  apply rev_involutive.
Qed.

Lemma trim_idempotent (s : jsstring) : trim (trim s) = trim s.
Proof. apply trim_fixed; [apply trim_hd | apply trim_last]. Qed.

Lemma trim_length (s : jsstring) : (length (trim s) <= length s)%nat.
Proof.
  assert (H : forall t, (length (trimStart t) <= length t)%nat).
  { intros t. destruct (trimStart_suffix t) as (p & Hp & _).
    rewrite Hp at 2. rewrite length_app. lia. }
  unfold trim, trimEnd. rewrite length_rev.
  etransitivity; [apply H|]. rewrite length_rev. apply H.
Qed.

Lemma stripControl_clean (s : jsstring) :
  forallb (fun c => negb (isControl c)) s = true -> stripControl s = s.
Proof. apply filter_forallb. Qed.

Lemma stripControl_no_control (s : jsstring) :
  forallb (fun c => negb (isControl c)) (stripControl s) = true.
Proof.
  unfold stripControl. apply forallb_forall. intros c Hc.
  apply filter_In in Hc. tauto.
Qed.

End StringMoreFacts.

Module ValidationMoreFacts.

Import Regex RegexFacts PatternFacts Validation ValidationShapes
  ValidationFacts StringMoreFacts.

Lemma filter_length (p : N -> bool) (s : jsstring) :
  (length (List.filter p s) <= length s)%nat.
Proof. induction s as [|c s IH]; simpl; [lia|]. destruct (p c); simpl; lia. Qed.

Lemma forallb_filter (p : N -> bool) (s : jsstring) :
  forallb p (List.filter p s) = true.
Proof.
  apply forallb_forall. intros c Hc. apply filter_In in Hc. tauto.
Qed.

(** X1: the string [sanitizeString] returns holds no control character and
    is no longer than its argument; on a string without control characters
    it is the trimmed string, and sanitizing it again changes nothing. *)
Theorem sanitizeString_output (s : jsstring) :
  forallb (fun c => negb (isControl c)) (sanitizeString (JSString s)) = true
  /\ (length (sanitizeString (JSString s)) <= length s)%nat
  /\ (forallb (fun c => negb (isControl c)) s = true ->
      sanitizeString (JSString s) = trim s
      /\ sanitizeString (JSString (sanitizeString (JSString s)))
         = sanitizeString (JSString s)).
Proof.
  simpl. split; [apply stripControl_no_control|]. split.
  - unfold stripControl. etransitivity; [apply filter_length|apply trim_length].
  - intros Hs.
    assert (Ht : stripControl (trim s) = trim s)
      by (apply stripControl_clean, trim_sublist, Hs).
    rewrite Ht. split; [reflexivity|].
    rewrite trim_idempotent. exact Ht.
Qed.

Lemma sanitizeString_output_witness :
  sanitizeString (JSString (js "  Jo Lee ")) = js "Jo Lee"
  /\ sanitizeString (JSString (sanitizeString (JSString (js "  Jo Lee "))))
     = sanitizeString (JSString (js "  Jo Lee ")).
Proof.
  destruct (sanitizeString_output (js "  Jo Lee ")) as (_ & _ & H).
  destruct (H eq_refl) as [H1 H2]. split; [exact H1 | exact H2].
Defined.

(** X2: a required name is accepted exactly when its sanitized value has
    between 2 and 100 code units; an empty one is answered with REQUIRED,
    one of a single code unit with NAME_TOO_SHORT, one of more than 100 with
    NAME_TOO_LONG. *)
Theorem validateName_bounds (v : jsvalue) :
  let sanitized := sanitizeString v in
  (isValid (validateName v true) = true <->
   (2 <= length sanitized <= 100)%nat)
  /\ (length sanitized = 0%nat ->
      validateName v true = invalid REQUIRED sanitized)
  /\ (length sanitized = 1%nat ->
      validateName v true = invalid NAME_TOO_SHORT sanitized)
  /\ ((100 < length sanitized)%nat ->
      validateName v true = invalid NAME_TOO_LONG sanitized).
Proof.
  intros sanitized.
  unfold validateName, emptyResult, invalid, MIN_NAME_LENGTH, MAX_NAME_LENGTH.
  fold sanitized.
  destruct (length_cases sanitized) as [[-> Hs]|[-> Hs]];
    destruct (Nat.ltb_spec (length sanitized) 2);
    destruct (Nat.ltb_spec 100 (length sanitized));
    simpl; repeat split; intros; try discriminate; try lia; reflexivity.
Qed.

Lemma validateName_bounds_witness :
  validateName (JSString (js " J ")) true = invalid NAME_TOO_SHORT (js "J")
  /\ isValid (validateName (JSString (js "Jo")) true) = true.
Proof.
  split.
  - apply (validateName_bounds (JSString (js " J "))). reflexivity.
  - apply (validateName_bounds (JSString (js "Jo"))). vm_compute. lia.
Defined.

Ltac split_ifs :=
  repeat match goal with
         | |- context [if ?b then _ else _] => destruct b
         end.

Lemma emptyResult_error required s :
  error (emptyResult required s) = None
  <-> isValid (emptyResult required s) = true.
Proof. destruct required; simpl; split; congruence. Qed.

Lemma validateRequired_error_iff v n :
  error (validateRequired v n) = None
  <-> isValid (validateRequired v n) = true.
Proof. unfold validateRequired. split_ifs; simpl; split; congruence. Qed.

Lemma validateEmail_error_iff toLowerCase v r :
  error (validateEmail toLowerCase v r) = None
  <-> isValid (validateEmail toLowerCase v r) = true.
Proof.
  unfold validateEmail, invalid.
  split_ifs; try apply emptyResult_error; simpl; split; congruence.
Qed.

Lemma validatePhone_error_iff v r :
  error (validatePhone v r) = None <-> isValid (validatePhone v r) = true.
Proof.
  unfold validatePhone, invalid.
  split_ifs; try apply emptyResult_error; simpl; split; congruence.
Qed.

Lemma validateName_error_iff v r :
  error (validateName v r) = None <-> isValid (validateName v r) = true.
Proof.
  unfold validateName, invalid.
  split_ifs; try apply emptyResult_error; simpl; split; congruence.
Qed.

Lemma validateMessage_error_iff v r :
  error (validateMessage v r) = None
  <-> isValid (validateMessage v r) = true.
Proof.
  unfold validateMessage, invalid.
  split_ifs; try apply emptyResult_error; simpl; split; congruence.
Qed.

Lemma validateGrade_error_iff toLowerCase v r :
  error (validateGrade toLowerCase v r) = None
  <-> isValid (validateGrade toLowerCase v r) = true.
Proof.
  unfold validateGrade, invalid.
  split_ifs; try apply emptyResult_error; simpl; split; congruence.
Qed.

Lemma validateField_error_iff toLowerCase v type options :
  error (validateField toLowerCase v type options) = None
  <-> isValid (validateField toLowerCase v type options) = true.
Proof.
  unfold validateField.
  split_ifs;
    auto using validateRequired_error_iff, validateEmail_error_iff,
      validatePhone_error_iff, validateName_error_iff,
      validateMessage_error_iff, validateGrade_error_iff.
Qed.

(** X3: in the result of every validator of the validation module, and of
    [validateField] for every type, [error] is [null] exactly when
    [isValid] is [true]. *)
Theorem error_iff_invalid (toLowerCase : jsstring -> jsstring)
  (v : jsvalue) (required : bool) (fieldName type : jsstring)
  (options : Options) :
  (error (validateRequired v fieldName) = None
   <-> isValid (validateRequired v fieldName) = true)
  /\ (error (validateEmail toLowerCase v required) = None
      <-> isValid (validateEmail toLowerCase v required) = true)
  /\ (error (validatePhone v required) = None
      <-> isValid (validatePhone v required) = true)
  /\ (error (validateName v required) = None
      <-> isValid (validateName v required) = true)
  /\ (error (validateMessage v required) = None
      <-> isValid (validateMessage v required) = true)
  /\ (error (validateGrade toLowerCase v required) = None
      <-> isValid (validateGrade toLowerCase v required) = true)
  /\ (error (validateField toLowerCase v type options) = None
      <-> isValid (validateField toLowerCase v type options) = true).
Proof.
  split; [apply validateRequired_error_iff|].
  split; [apply validateEmail_error_iff|].
  split; [apply validatePhone_error_iff|].
  split; [apply validateName_error_iff|].
  split; [apply validateMessage_error_iff|].
  split; [apply validateGrade_error_iff|].
  apply validateField_error_iff.
Qed.

(** X4: for a type that is none of email, tel, phone, textarea, select, text
    and name, [validateField] answers as [validateRequired] does, whatever
    the [required] option says: an empty value is rejected with REQUIRED. *)
Theorem validateField_unknown_type (toLowerCase : jsstring -> jsstring)
  (v : jsvalue) (type : jsstring) (options : Options) :
  existsb (strictEq type) knownTypes = false ->
  validateField toLowerCase v type options
  = validateRequired v (default (js "Field") (opt_fieldName options))
  /\ (sanitizeString v = [] ->
      validateField toLowerCase v type options = invalid REQUIRED []).
Proof.
  intros H. simpl in H. repeat (apply orb_false_iff in H as [? H]).
  assert (Heq : validateField toLowerCase v type options
                = validateRequired v (default (js "Field")
                                        (opt_fieldName options))).
  { unfold validateField.
    repeat match goal with
           | Hx : strictEq type ?t = false |- _ => rewrite Hx; clear Hx
           end.
    reflexivity. }
  split; [exact Heq|].
  intros Hs. rewrite Heq. unfold validateRequired. rewrite Hs. reflexivity.
Qed.

Lemma validateField_unknown_type_witness :
  validateField (map lowerBasicLatin) (JSString (js "  ")) (js "checkbox")
    {| opt_required := Some false; opt_fieldName := None |}
  = invalid REQUIRED [].
Proof.
  apply (validateField_unknown_type (map lowerBasicLatin)
           (JSString (js "  ")) (js "checkbox")); reflexivity.
Defined.

End ValidationMoreFacts.

Module PhoneMoreFacts.

Import Regex RegexFacts PatternFacts Validation ValidationShapes
  ValidationFacts StringMoreFacts ValidationMoreFacts.

Lemma isDigit_not_whitespace c : isDigit c = true -> isWhiteSpace c = false.
Proof.
  unfold isDigit, isWhiteSpace. intros H. to_prop H.
  repeat (apply orb_false_iff; split);
    try (apply N.eqb_neq; lia).
  apply andb_false_iff. left. apply N.leb_gt. lia.
Qed.

Lemma isDigit_not_control c : isDigit c = true -> isControl c = false.
Proof.
  unfold isDigit, isControl. intros H. to_prop H.
  apply orb_false_iff; split; [apply N.leb_gt | apply N.eqb_neq]; lia.
Qed.

Lemma isDigit_phoneChar c : isDigit c = true -> phoneChar c = true.
Proof. unfold phoneChar. intros ->. reflexivity. Qed.

(** The display form of the eleven digits [1 :: d]. *)
Lemma normalizePhone_display11 (d : jsstring) :
  forallb isDigit d = true ->
  normalizePhone
    (JSString (js "+1 (" ++ slice 1 4 (0x31 :: d) ++ js ") "
               ++ slice 4 7 (0x31 :: d) ++ js "-" ++ sliceFrom 7 (0x31 :: d)))
  = 0x31 :: d.
Proof.
  intros Hd. unfold normalizePhone. rewrite !List.filter_app.
  unfold slice, sliceFrom. simpl skipn. change (skipn 0 d) with d.
  rewrite (filter_forallb isDigit (firstn (4 - 1) d))
    by auto using forallb_firstn, forallb_skipn.
  rewrite (filter_forallb isDigit (firstn (7 - 4) (skipn 3 d)))
    by auto using forallb_firstn, forallb_skipn.
  rewrite (filter_forallb isDigit (skipn 6 d))
    by auto using forallb_firstn, forallb_skipn.
  change (List.filter isDigit (js "+1 (")) with [0x31].
  change (List.filter isDigit (js ") ")) with (@nil N).
  change (List.filter isDigit (js "-")) with (@nil N).
  simpl app.
  replace (skipn 6 d) with (skipn 3 (skipn 3 d))
    by (rewrite skipn_skipn; reflexivity).
  change (7 - 4)%nat with 3%nat. change (4 - 1)%nat with 3%nat.
  rewrite (firstn_skipn 3 (skipn 3 d)), firstn_skipn. reflexivity.
Qed.

(** X5: [formatPhone] keeps the digits of its argument, and formatting a
    formatted value again changes nothing, for every argument. *)
Theorem formatPhone_idempotent (v : jsvalue) :
  normalizePhone (formatPhone v) = normalizePhone v
  /\ formatPhone (formatPhone v) = formatPhone v.
Proof.
  assert (Hkeep : normalizePhone (formatPhone v) = normalizePhone v).
  { unfold formatPhone.
    destruct (length (normalizePhone v) =? 10)%nat eqn:H10.
    - apply normalizePhone_display.
      destruct v; simpl; auto using forallb_filter.
    - destruct (length (normalizePhone v) =? 11)%nat eqn:H11; simpl;
        [|reflexivity].
      destruct (normalizePhone v) as [|c d] eqn:Hn; [discriminate H11|].
      destruct (c =? 49) eqn:Hc; [|exact Hn].
      apply N.eqb_eq in Hc. subst c.
      apply normalizePhone_display11.
      assert (Hall : forallb isDigit (49 :: d) = true)
        by (rewrite <- Hn; destruct v; simpl; auto using forallb_filter).
      exact Hall. }
  split; [exact Hkeep|].
  unfold formatPhone at 1. rewrite Hkeep. unfold formatPhone.
  destruct (length (normalizePhone v) =? 10)%nat; [reflexivity|].
  destruct ((length (normalizePhone v) =? 11)%nat
            && match normalizePhone v with
               | c :: _ => c =? 49
               | [] => false
               end); reflexivity.
Qed.

Ltac explode d H :=
  repeat (destruct d as [|? d]; [discriminate H|]);
  destruct d; [|simpl in H; lia].

Ltac digit_facts :=
  repeat match goal with
         | Hx : isDigit ?x = true |- _ =>
             pose proof (isDigit_not_whitespace x Hx);
             pose proof (isDigit_not_control x Hx);
             pose proof (isDigit_phoneChar x Hx);
             revert Hx
         end; intros.

Lemma validatePhone_accepted v required :
  isValid (validatePhone v required) = true ->
  validatePhone v required
  = {| isValid := true; error := None;
       value := formatPhone (JSString (sanitizeString v)) |}.
Proof.
  unfold validatePhone, emptyResult, invalid.
  destruct (isEmpty (sanitizeString v)) eqn:He.
  { apply isEmpty_true in He. rewrite He.
    destruct required; [discriminate | reflexivity]. }
  split_ifs; simpl; intros; try discriminate; reflexivity.
Qed.

(** The display form of ten digits is a phone number [validatePhone]
    accepts and leaves as it is. *)
Lemma validatePhone_display (d : jsstring) required :
  forallb isDigit d = true -> length d = 10%nat ->
  validatePhone
    (JSString (js "(" ++ slice 0 3 d ++ js ") " ++ slice 3 6 d
               ++ js "-" ++ sliceFrom 6 d)) required
  = {| isValid := true; error := None;
       value := JSString (js "(" ++ slice 0 3 d ++ js ") " ++ slice 3 6 d
                          ++ js "-" ++ sliceFrom 6 d) |}.
Proof.
  intros Hd Hlen. explode d Hlen.
  simpl in Hd. repeat (apply andb_true_iff in Hd as [? Hd]). clear Hd.
  digit_facts.
  unfold validatePhone.
  assert (Hs : sanitizeString
                 (JSString (js "(" ++ slice 0 3 [n; n0; n1; n2; n3; n4; n5; n6; n7; n8]
                            ++ js ") " ++ slice 3 6 [n; n0; n1; n2; n3; n4; n5; n6; n7; n8]
                            ++ js "-" ++ sliceFrom 6 [n; n0; n1; n2; n3; n4; n5; n6; n7; n8]))
               = [40; n; n0; n1; 41; 32; n2; n3; n4; 45; n5; n6; n7; n8]).
  { change (js "(") with [40]. change (js ") ") with [41; 32].
    change (js "-") with [45]. unfold sanitizeString, slice, sliceFrom.
    cbn [firstn skipn app Nat.sub].
    unfold trim, trimEnd. cbn -[isWhiteSpace isControl].
    change (isWhiteSpace 40) with false. cbn -[isWhiteSpace isControl].
    repeat match goal with
           | Hx : isWhiteSpace _ = false |- _ => rewrite Hx; clear Hx
           end.
    cbn -[isWhiteSpace isControl].
    change (isControl 40) with false. change (isControl 41) with false.
    change (isControl 32) with false. change (isControl 45) with false.
    repeat match goal with
           | Hx : isControl _ = false |- _ => rewrite Hx; clear Hx
           end.
    reflexivity. }
  rewrite Hs. cbn [isEmpty]. rewrite test_PHONE_REGEX.
  cbn -[phoneChar isDigit MIN_PHONE_DIGITS MAX_PHONE_DIGITS formatPhone].
  change (phoneChar 40) with true. change (phoneChar 41) with true.
  change (phoneChar 32) with true. change (phoneChar 45) with true.
  repeat match goal with
         | Hx : phoneChar _ = true |- _ => rewrite Hx; clear Hx
         end.
  cbn -[isDigit MIN_PHONE_DIGITS MAX_PHONE_DIGITS formatPhone].
  unfold formatPhone, normalizePhone.
  cbn -[isDigit MIN_PHONE_DIGITS MAX_PHONE_DIGITS].
  change (isDigit 40) with false. change (isDigit 41) with false.
  change (isDigit 32) with false. change (isDigit 45) with false.
  repeat match goal with
         | Hx : isDigit _ = true |- _ => rewrite Hx; clear Hx
         end.
  reflexivity.
Qed.

(** The display form of eleven digits carries a plus sign, which
    [PHONE_REGEX] does not admit. *)
Lemma validatePhone_display11 (d : jsstring) required :
  forallb isDigit d = true -> length d = 10%nat ->
  validatePhone
    (JSString (js "+1 (" ++ slice 1 4 (0x31 :: d) ++ js ") "
               ++ slice 4 7 (0x31 :: d) ++ js "-" ++ sliceFrom 7 (0x31 :: d)))
    required
  = invalid PHONE_CHARACTERS
      (js "+1 (" ++ slice 1 4 (0x31 :: d) ++ js ") "
       ++ slice 4 7 (0x31 :: d) ++ js "-" ++ sliceFrom 7 (0x31 :: d)).
Proof.
  intros Hd Hlen. explode d Hlen.
  simpl in Hd. repeat (apply andb_true_iff in Hd as [? Hd]). clear Hd.
  digit_facts.
  unfold validatePhone.
  change (js "+1 (") with [43; 49; 32; 40]. change (js ") ") with [41; 32].
  change (js "-") with [45]. unfold slice, sliceFrom.
  cbn [firstn skipn app Nat.sub].
  assert (Hs : sanitizeString
                 (JSString [43; 49; 32; 40; n; n0; n1; 41; 32; n2; n3; n4;
                            45; n5; n6; n7; n8])
               = [43; 49; 32; 40; n; n0; n1; 41; 32; n2; n3; n4;
                  45; n5; n6; n7; n8]).
  { unfold sanitizeString, trim, trimEnd. cbn -[isWhiteSpace isControl].
    change (isWhiteSpace 43) with false. cbn -[isWhiteSpace isControl].
    repeat match goal with
           | Hx : isWhiteSpace _ = false |- _ => rewrite Hx; clear Hx
           end.
    cbn -[isWhiteSpace isControl].
    change (isControl 40) with false. change (isControl 41) with false.
    change (isControl 32) with false. change (isControl 45) with false.
    change (isControl 43) with false. change (isControl 49) with false.
    repeat match goal with
           | Hx : isControl _ = false |- _ => rewrite Hx; clear Hx
           end.
    reflexivity. }
  rewrite Hs. cbn [isEmpty]. rewrite test_PHONE_REGEX.
  cbn -[phoneChar]. change (phoneChar 43) with false. reflexivity.
Qed.

(** X6: the value [validatePhone] returns for an accepted number of ten
    digits is accepted again with the same result; the value it returns for
    an accepted number of eleven digits that starts with 1 holds a plus sign,
    and validating it again is answered with PHONE_CHARACTERS. *)
Theorem validatePhone_revalidation (v : jsvalue) (required again : bool) :
  isValid (validatePhone v required) = true ->
  let digits := normalizePhone (JSString (sanitizeString v)) in
  (length digits = 10%nat ->
   validatePhone (value (validatePhone v required)) again
   = validatePhone v required)
  /\ (length digits = 11%nat -> hd_error digits = Some 0x31 ->
      exists s,
        value (validatePhone v required) = JSString s
        /\ validatePhone (JSString s) again = invalid PHONE_CHARACTERS s).
Proof.
  intros Hvalid digits. rewrite (validatePhone_accepted v required Hvalid).
  cbn [value].
  assert (Hall : forallb isDigit digits = true)
    by (unfold digits; simpl; apply forallb_filter).
  split.
  - intros Hlen. unfold formatPhone. fold digits. rewrite Hlen.
    cbn [Nat.eqb]. apply validatePhone_display; assumption.
  - intros Hlen Hhd. unfold formatPhone. fold digits. rewrite Hlen.
    cbn [Nat.eqb andb].
    destruct digits as [|c d]; [discriminate|].
    injection Hhd as ->. cbn [N.eqb Pos.eqb].
    eexists. split; [reflexivity|].
    simpl in Hall. apply validatePhone_display11; [exact Hall|].
    simpl in Hlen. lia.
Qed.

Lemma validatePhone_revalidation_witness :
  validatePhone (value (validatePhone (JSString (js "415 555 1234")) false))
    true
  = validatePhone (JSString (js "415 555 1234")) false
  /\ exists s,
       value (validatePhone (JSString (js "1-415-555-1234")) false)
       = JSString s
       /\ validatePhone (JSString s) false = invalid PHONE_CHARACTERS s.
Proof.
  split.
  - apply (validatePhone_revalidation (JSString (js "415 555 1234")) false
             true eq_refl).
    reflexivity.
  - apply (validatePhone_revalidation (JSString (js "1-415-555-1234")) false
             false eq_refl); reflexivity.
Defined.

End PhoneMoreFacts.

Module EmailMoreFacts.

Import Regex RegexFacts PatternFacts Validation ValidationShapes
  ValidationFacts StringMoreFacts ValidationMoreFacts.


Lemma split_no_sep sep (s : jsstring) :
  forallb (fun c => negb (c =? sep)) s = true -> split sep s = [s].
Proof.
  induction s as [|c s IH]; simpl; [reflexivity|].
  intros H. apply andb_true_iff in H as [Hc Hs].
  apply negb_true_iff in Hc. rewrite Hc, IH by assumption. reflexivity.
Qed.

Lemma split_app_sep sep (l d : jsstring) :
  forallb (fun c => negb (c =? sep)) l = true ->
  split sep (l ++ sep :: d) = l :: split sep d.
Proof.
  induction l as [|c l IH]; simpl.
  - intros _. rewrite N.eqb_refl. reflexivity.
  - intros H. apply andb_true_iff in H as [Hc Hl].
    apply negb_true_iff in Hc. rewrite Hc, IH by assumption. reflexivity.
Qed.


Lemma domain_classes :
  classes_within domainChar
    (Seq domainLabel (Star (Seq (Chr 0x2E) domainLabel))).
Proof.
  assert (Hal : forall c, isAlnum c = true -> domainChar c = true).
  { intros c H. unfold domainChar, alnumOrHyphen. rewrite H. reflexivity. }
  assert (Hah : forall c, alnumOrHyphen c = true -> domainChar c = true).
  { intros c H. unfold domainChar. rewrite H. reflexivity. }
  assert (Hlabel : classes_within domainChar domainLabel).
  { unfold domainLabel, Opt. cbn [classes_within].
    split; [exact Hal|]. split; [|exact I]. split; [|exact Hal].
    apply classes_within_Upto. exact Hah. }
  cbn [classes_within]. split; [exact Hlabel|]. split; [|exact Hlabel].
  intros c H. apply N.eqb_eq in H. subst c. reflexivity.
Qed.

Lemma forallb_impl (p q : N -> bool) (s : jsstring) :
  (forall c, p c = true -> q c = true) ->
  forallb p s = true -> forallb q s = true.
Proof.
  intros Hpq. induction s as [|c s IH]; simpl; [reflexivity|].
  intros H. apply andb_true_iff in H as [Hc Hs].
  rewrite (Hpq c Hc), IH by assumption. reflexivity.
Qed.

(** The shape of what [EMAIL_REGEX] accepts. *)
Lemma EMAIL_REGEX_shape (s : jsstring) :
  test EMAIL_REGEX s = true ->
  exists l d,
    s = l ++ 0x40 :: d /\ l <> [] /\ d <> []
    /\ forallb emailLocalChar l = true /\ forallb domainChar d = true.
Proof.
  intros H. apply test_spec in H. unfold EMAIL_REGEX in H.
  apply Matches_Seq_inv in H as (l & r & Hs & Hl & Hr). subst s.
  apply Matches_Seq_inv in Hr as (a & d & Hr' & Ha & Hd). subst r.
  apply Matches_Cls_inv in Ha as (c & Ha' & Hc). subst a.
  apply N.eqb_eq in Hc. subst c. exists l, d.
  apply test_spec in Hl. rewrite test_plus_cls in Hl.
  apply andb_true_iff in Hl as [Hne Hl].
  apply negb_true_iff, isEmpty_false in Hne.
  pose proof (Matches_classes _ _ _ domain_classes Hd) as Hdc.
  repeat split; auto.
  apply Matches_Seq_inv in Hd as (x & x' & Hd' & Hx & _). subst d.
  unfold domainLabel in Hx.
  apply Matches_Seq_inv in Hx as (y & y' & Hx' & Hy & _). subst x.
  apply Matches_Cls_inv in Hy as (c & Hy' & _). subst y. discriminate.
Qed.

Lemma emailLocalChar_not_at c : emailLocalChar c = true -> negb (c =? 0x40) = true.
Proof.
  intros H. destruct (c =? 64) eqn:Hc; [|reflexivity].
  apply N.eqb_eq in Hc. subst c. discriminate H.
Qed.

Lemma domainChar_not_at c : domainChar c = true -> negb (c =? 0x40) = true.
Proof.
  intros H. destruct (c =? 64) eqn:Hc; [|reflexivity].
  apply N.eqb_eq in Hc. subst c. discriminate H.
Qed.

(** X7: [validateEmail] never answers EMAIL_FORMAT; a non-empty address it
    accepts is a local part of 1 to 64 code units, one at sign, and a domain
    of 1 to 255 code units, neither part holding an at sign. *)
Theorem validateEmail_accepted_shape (toLowerCase : jsstring -> jsstring)
  (v : jsvalue) (required : bool) :
  error (validateEmail toLowerCase v required) <> Some EMAIL_FORMAT
  /\ (isValid (validateEmail toLowerCase v required) = true ->
      isEmpty (sanitizeString v) = false ->
      exists localPart domain,
        sanitizeString v = localPart ++ 0x40 :: domain
        /\ noAt localPart = true /\ noAt domain = true
        /\ (1 <= length localPart <= 64)%nat
        /\ (1 <= length domain <= 255)%nat).
Proof.
  unfold validateEmail.
  destruct (isEmpty (sanitizeString v)) eqn:He.
  { split; [|discriminate].
    destruct required; simpl; intros H; vm_compute in H; discriminate H. }
  destruct (test EMAIL_REGEX (sanitizeString v)) eqn:Ht; cbn [negb].
  2: { split; [|discriminate].
       simpl. intros H; vm_compute in H; discriminate H. }
  destruct (EMAIL_REGEX_shape _ Ht) as (l & d & Hs & Hl & Hd & Hlc & Hdc).
  assert (Hla : noAt l = true)
    by (revert Hlc; apply forallb_impl, emailLocalChar_not_at).
  assert (Hda : noAt d = true)
    by (revert Hdc; apply forallb_impl, domainChar_not_at).
  rewrite Hs, (split_app_sep 64 l d Hla), (split_no_sep 64 d Hda).
  cbn [length Nat.eqb negb nth orb].
  apply isEmpty_false in Hl, Hd. rewrite Hl, Hd. cbn [orb].
  destruct (Nat.ltb_spec 64 (length l)); cbn [orb].
  { split; [|discriminate].
    simpl. intros H'; vm_compute in H'; discriminate H'. }
  destruct (Nat.ltb_spec 255 (length d)).
  { split; [|discriminate].
    simpl. intros H'; vm_compute in H'; discriminate H'. }
  split; [discriminate|].
  intros _ _. exists l, d.
  apply isEmpty_false in Hl, Hd.
  destruct l; [congruence|]. destruct d; [congruence|].
  simpl in *. repeat split; auto; lia.
Qed.

Lemma validateEmail_accepted_shape_witness :
  exists localPart domain,
    js "jordan@example.com" = localPart ++ 0x40 :: domain
    /\ noAt localPart = true /\ noAt domain = true
    /\ (1 <= length localPart <= 64)%nat
    /\ (1 <= length domain <= 255)%nat.
Proof.
  apply (proj2 (validateEmail_accepted_shape (map lowerBasicLatin)
                  (JSString (js "jordan@example.com")) true));
    reflexivity.
Defined.

End EmailMoreFacts.

Module GradeMoreFacts.

Import Validation ValidationFacts StringMoreFacts ValidationMoreFacts.

Lemma includes_In (arr : list jsstring) (x : jsstring) :
  includes arr x = true <-> In x arr.
Proof.
  unfold includes. rewrite existsb_exists. split.
  - intros (y & Hy & Heq). apply strictEq_spec in Heq. subst y. exact Hy.
  - intros H. exists x. split; [exact H | apply strictEq_spec; reflexivity].
Qed.

Section Grades.

Variable toLowerCase : jsstring -> jsstring.
Hypothesis toLowerCase_basic_latin :
  forall s, forallb isBasicLatin s = true ->
            toLowerCase s = map lowerBasicLatin s.

(** X8: a grade that the contact form accepts is rejected by
    [validateGrade] of the validation module with GRADE_INVALID; the two
    lists of grades have no member in common. *)
Theorem contact_grades_rejected_by_validateGrade (m : jsstring)
  (required : bool) :
  Contact.isValid (Contact.validationRules.gradeLevel m) = true ->
  validateGrade toLowerCase (JSString m) required
  = invalid GRADE_INVALID (trim m).
Proof.
  unfold Contact.validationRules.gradeLevel.
  destruct (isEmpty (trim m)) eqn:He; [discriminate|].
  destruct (includes Contact.VALID_GRADES (trim m)) eqn:Hin; [|discriminate].
  intros _. apply includes_In in Hin.
  unfold validateGrade, sanitizeString.
  assert (Hcases :
    forall g, In g Contact.VALID_GRADES ->
      stripControl g = g /\ isEmpty g = false
      /\ forallb isBasicLatin g = true
      /\ includes validGrades (map lowerBasicLatin g) = false).
  { intros g Hg. vm_compute in Hg.
    repeat destruct Hg as [Hg|Hg]; try contradiction; subst g;
      vm_compute; auto. }
  destruct (Hcases _ Hin) as (Hs & Hne & Hb & Hno).
  rewrite Hs, Hne, ContactFacts.strictEq_nil, Hne. cbn [orb].
  rewrite toLowerCase_basic_latin, Hno by exact Hb. reflexivity.
Qed.

End Grades.

Lemma contact_grades_rejected_by_validateGrade_witness :
  validateGrade (map lowerBasicLatin) (JSString (js " grade-5 ")) true
  = invalid GRADE_INVALID (js "grade-5").
Proof.
  apply (contact_grades_rejected_by_validateGrade (map lowerBasicLatin)
           (fun s _ => eq_refl) (js " grade-5 ") true).
  reflexivity.
Defined.

End GradeMoreFacts.

(** ** The field state manager and the schema validation *)

Module FieldTrackingFacts.

Import Validation ValidationFacts ValidationMoreFacts FieldTracking.

Lemma consistent_insert state fieldId fieldState :
  consistent state ->
  (fs_error fieldState = None <-> valid fieldState = true) ->
  consistent (<[fieldId := fieldState]> state).
Proof.
  intros Hst Hfs k fs. rewrite lookup_insert. case_decide.
  - intros [= <-]. exact Hfs.
  - apply Hst.
Qed.

Lemma call_consistent toLowerCase state c :
  recordsValidator toLowerCase c -> consistent state ->
  consistent (call state c).
Proof.
  intros Hc Hst. destruct c as [id|id|id|id r|o]; simpl.
  - unfold init. destruct (state !! id); [exact Hst|].
    apply consistent_insert; [exact Hst | simpl; tauto].
  - unfold setTouched. destruct (state !! id) as [fs|] eqn:E; [|exact Hst].
    apply consistent_insert; [exact Hst | simpl; apply (Hst id fs E)].
  - unfold setDirty. destruct (state !! id) as [fs|] eqn:E; [|exact Hst].
    apply consistent_insert; [exact Hst | simpl; apply (Hst id fs E)].
  - unfold setValidation. destruct (state !! id) as [fs|] eqn:E; [|exact Hst].
    apply consistent_insert; [exact Hst|]. simpl.
    destruct Hc as (v & type & options & ->).
    apply validateField_error_iff.
  - unfold reset. destruct o as [[|ch s]|].
    + intros k fs. rewrite lookup_empty. discriminate.
    + intros k fs Hk. apply lookup_delete_Some in Hk as [_ Hk].
      apply (Hst k fs Hk).
    + intros k fs. rewrite lookup_empty. discriminate.
Qed.

(** X9: when the outcomes recorded with [setValidation] are results of
    [validateField], every field the state manager tracks has an error
    exactly when it is not valid, after any sequence of calls. *)
Theorem tracked_error_iff_invalid (toLowerCase : jsstring -> jsstring)
  (calls : list Call) (fieldId : jsstring) (fieldState : FieldState) :
  Forall (recordsValidator toLowerCase) calls ->
  fold_left call calls ∅ !! fieldId = Some fieldState ->
  (fs_error fieldState = None <-> valid fieldState = true).
Proof.
  intros Hcalls.
  assert (H : consistent (fold_left call calls ∅)).
  { assert (H0 : consistent (∅ : gmap jsstring FieldState))
      by (intros k fs; rewrite lookup_empty; discriminate).
    revert H0. generalize (∅ : gmap jsstring FieldState).
    induction Hcalls as [|c cs Hc _ IH]; intros st Hst; simpl; [exact Hst|].
    apply IH. eapply call_consistent; eassumption. }
  apply H.
Qed.

Lemma tracked_error_iff_invalid_witness :
  fs_error {| touched := true; dirty := false; valid := false;
              fs_error := Some EMAIL_INVALID |} = None
  <-> valid {| touched := true; dirty := false; valid := false;
               fs_error := Some EMAIL_INVALID |} = true.
Proof.
  apply (tracked_error_iff_invalid (map lowerBasicLatin) sampleCalls
           (js "email")).
  - repeat constructor. eexists _, _, _. reflexivity.
  - vm_compute. reflexivity.
Defined.

(** X10: [init] adds its field to the tracked fields, the setters add none;
    on a field that is not tracked the setters change nothing, [get] returns
    [null] and [shouldShowError] returns [false]. *)
Theorem tracked_fields (state : gmap jsstring FieldState)
  (fieldId : jsstring) (isValid : bool) (error : option jsstring) :
  dom (init fieldId state) = {[fieldId]} ∪ dom state
  /\ dom (setTouched fieldId state) = dom state
  /\ dom (setDirty fieldId state) = dom state
  /\ dom (setValidation fieldId isValid error state) = dom state
  /\ (state !! fieldId = None ->
      setTouched fieldId state = state
      /\ setDirty fieldId state = state
      /\ setValidation fieldId isValid error state = state
      /\ get fieldId state = None
      /\ shouldShowError fieldId state = false).
Proof.
  unfold init, setTouched, setDirty, setValidation, get, shouldShowError.
  destruct (state !! fieldId) as [fs|] eqn:E.
  - assert (Hin : fieldId ∈ dom state) by (apply elem_of_dom; eauto).
    rewrite !dom_insert_L.
    assert (Hdom : {[fieldId]} ∪ dom state = dom state)
      by (apply subseteq_union_1_L, singleton_subseteq_l, Hin).
    rewrite Hdom.
    split; [reflexivity|]. split; [reflexivity|]. split; [reflexivity|].
    split; [reflexivity|]. discriminate.
  - rewrite dom_insert_L. repeat split; reflexivity.
Qed.

Lemma tracked_fields_witness :
  setValidation (js "email") false (Some EMAIL_INVALID) ∅ = ∅
  /\ shouldShowError (js "email") ∅ = false.
Proof.
  destruct (tracked_fields ∅ (js "email") false (Some EMAIL_INVALID))
    as (_ & _ & _ & _ & H).
  destruct (H eq_refl) as (_ & _ & H3 & _ & H5). split; assumption.
Defined.

(** X11: [init] keeps the state of a field that is tracked already, so a
    second [init] changes nothing; [reset] without an argument, or with the
    empty string, forgets every field; [reset] with a field forgets that
    field and keeps the others. *)
Theorem init_keeps_reset_removes (state : gmap jsstring FieldState)
  (fieldId other : jsstring) (fieldState : FieldState) :
  init fieldId (init fieldId state) = init fieldId state
  /\ (state !! fieldId = Some fieldState -> init fieldId state = state)
  /\ reset None state = ∅
  /\ reset (Some []) state = ∅
  /\ (fieldId <> [] ->
      reset (Some fieldId) state !! fieldId = None
      /\ (other <> fieldId ->
          reset (Some fieldId) state !! other = state !! other)).
Proof.
  split; [|split; [|split; [|split]]].
  - unfold init. destruct (state !! fieldId) eqn:E; [rewrite E; reflexivity|].
    rewrite lookup_insert_eq. reflexivity.
  - intros H. unfold init. rewrite H. reflexivity.
  - reflexivity.
  - reflexivity.
  - intros Hne. destruct fieldId as [|c s]; [congruence|]. simpl.
    split; [apply lookup_delete_eq|].
    intros Ho. apply lookup_delete_ne. congruence.
Qed.

Lemma init_keeps_reset_removes_witness :
  init (js "email") (fold_left call sampleCalls ∅)
  = fold_left call sampleCalls ∅
  /\ reset (Some (js "email")) (fold_left call sampleCalls ∅) !! js "email"
     = None.
Proof.
  destruct (init_keeps_reset_removes (fold_left call sampleCalls ∅)
              (js "email") (js "phone")
              {| touched := true; dirty := false; valid := false;
                 fs_error := Some EMAIL_INVALID |})
    as (_ & H2 & _ & _ & H5).
  split.
  - apply H2. vm_compute. reflexivity.
  - assert (Hne : js "email" <> []) by discriminate.
    destruct (H5 Hne) as [H _]. exact H.
Defined.

(** X12: for a tracked field, [shouldShowError] after [setValidation] is
    true exactly when the field was touched and the recorded outcome is
    invalid, in whichever order the field is touched and validated;
    [setDirty] does not change it, and calls on one field do not change it
    for another. *)
Theorem shouldShowError_touched_and_invalid
  (state : gmap jsstring FieldState) (fieldId other : jsstring)
  (fieldState : FieldState) (isValid : bool) (error : option jsstring) :
  state !! fieldId = Some fieldState ->
  shouldShowError fieldId (setValidation fieldId isValid error state)
  = touched fieldState && negb isValid
  /\ shouldShowError fieldId (setTouched fieldId state)
     = negb (valid fieldState)
  /\ shouldShowError fieldId
       (setValidation fieldId isValid error (setTouched fieldId state))
     = negb isValid
  /\ shouldShowError fieldId
       (setTouched fieldId (setValidation fieldId isValid error state))
     = negb isValid
  /\ shouldShowError fieldId (setDirty fieldId state)
     = shouldShowError fieldId state
  /\ (other <> fieldId ->
      shouldShowError other (setValidation fieldId isValid error state)
      = shouldShowError other state
      /\ shouldShowError other (setTouched fieldId state)
         = shouldShowError other state).
Proof.
  intros H.
  unfold shouldShowError, setValidation, setTouched, setDirty.
  rewrite H.
  repeat (progress (rewrite ?lookup_insert_eq; cbn [touched valid])).
  repeat split; try reflexivity;
    rewrite lookup_insert_ne by congruence; reflexivity.
Qed.

Lemma shouldShowError_touched_and_invalid_witness :
  shouldShowError (js "email") (fold_left call sampleCalls ∅) = true.
Proof.
  pose proof (shouldShowError_touched_and_invalid
                (init (js "email") ∅) (js "email") (js "phone")
                {| touched := false; dirty := false; valid := true;
                   fs_error := None |} false (Some EMAIL_INVALID) eq_refl)
    as (_ & _ & H & _).
  exact H.
Defined.

Lemma define_fresh fieldName result results :
  ~ In fieldName (map fst results) ->
  define fieldName result results = results ++ [(fieldName, result)].
Proof.
  induction results as [|[k x] rest IH]; simpl; [reflexivity|].
  intros Hn. destruct (strictEq k fieldName) eqn:E.
  - apply strictEq_spec in E. tauto.
  - rewrite IH by tauto. reflexivity.
Qed.

Lemma inherits_proto fieldName :
  PlainObject.inherits fieldName = false ->
  strictEq fieldName (js "__proto__") = false.
Proof.
  unfold PlainObject.inherits, PlainObject.prototypeNames.
  cbn [map existsb]. intros H.
  repeat (apply orb_false_iff in H as [? H]). assumption.
Qed.

Lemma assign_fresh fieldName result results :
  PlainObject.inherits fieldName = false ->
  ~ In fieldName (map fst results) ->
  assign fieldName result results = results ++ [(fieldName, result)].
Proof.
  intros Hi Hn. unfold assign. rewrite (inherits_proto _ Hi).
  apply define_fresh, Hn.
Qed.

Lemma schemaResults_keys toLowerCase fields schema k :
  In k (map fst (schemaResults toLowerCase fields schema)) ->
  In k (map fst fields).
Proof.
  induction fields as [|[n v] fields IH]; simpl; [tauto|].
  rewrite map_app, in_app_iff. intros [H|H]; [|right; auto].
  destruct (schema n); simpl in H; [|tauto]. destruct H; [left|]; tauto.
Qed.

Lemma validateFields_from toLowerCase schema fields : forall results,
  forallb (fun field => negb (PlainObject.inherits (fst field))) fields
  = true ->
  List.NoDup (map fst fields) ->
  (forall k, In k (map fst results) -> ~ In k (map fst fields)) ->
  fold_left
    (fun results '(fieldName, value) =>
       match schema fieldName with
       | None => results
       | Some fieldSchema =>
           assign fieldName
             (validateField toLowerCase value (sch_type fieldSchema)
                {| opt_required := Some (notFalse (sch_required fieldSchema));
                   opt_fieldName := Some fieldName |})
             results
       end)
    fields results
  = results ++ schemaResults toLowerCase fields schema.
Proof.
  induction fields as [|[n v] fields IH]; intros results Hown Hnd Hfresh;
    simpl.
  - rewrite app_nil_r. reflexivity.
  - simpl in Hnd. apply NoDup_cons_iff in Hnd as [Hn Hnd].
    simpl in Hown. apply andb_true_iff in Hown as [Ho Hown].
    apply negb_true_iff in Ho.
    destruct (schema n) as [sc|].
    + rewrite assign_fresh.
      2: exact Ho.
      2: { intros Hin. apply (Hfresh n Hin). left. reflexivity. }
      rewrite IH; [rewrite <- app_assoc; reflexivity | exact Hown
                   | exact Hnd |].
      intros k Hk Hin. rewrite map_app, in_app_iff in Hk.
      destruct Hk as [Hk|[<-|[]]]; [|tauto].
      apply (Hfresh k Hk). right. exact Hin.
    + rewrite IH; [reflexivity | exact Hown | exact Hnd |].
      intros k Hk Hin. apply (Hfresh k Hk). right. exact Hin.
Qed.

(** X13: on fields none of which is named after a member of
    [Object.prototype], [validateFields] returns, for each field for which
    the schema defines an entry, the result of [validateField] on its value
    with the type of the entry, the field's name, and [required] unless the
    entry says [false]; the other fields are left out, and [isFormValid] of
    the results is true exactly when each of these results is valid. *)
Theorem validateFields_results (toLowerCase : jsstring -> jsstring)
  (fields : list (jsstring * jsvalue))
  (schema : jsstring -> option FieldSchema) :
  forallb (fun field => negb (PlainObject.inherits (fst field))) fields
  = true ->
  List.NoDup (map fst fields) ->
  validateFields toLowerCase fields schema
  = schemaResults toLowerCase fields schema
  /\ isFormValid (validateFields toLowerCase fields schema)
     = forallb
         (fun '(fieldName, value) =>
            match schema fieldName with
            | None => true
            | Some fieldSchema =>
                isValid
                  (validateField toLowerCase value (sch_type fieldSchema)
                     {| opt_required :=
                          Some (notFalse (sch_required fieldSchema));
                        opt_fieldName := Some fieldName |})
            end)
         fields.
Proof.
  intros Hown Hnd.
  assert (Heq : validateFields toLowerCase fields schema
                = schemaResults toLowerCase fields schema).
  { unfold validateFields. rewrite validateFields_from; auto. }
  split; [exact Heq|]. rewrite Heq. clear Heq Hnd Hown.
  unfold isFormValid.
  induction fields as [|[n v] fields IH]; simpl; [reflexivity|].
  rewrite forallb_app, IH. destruct (schema n); simpl;
    [rewrite andb_true_r|]; reflexivity.
Qed.

Lemma validateFields_results_witness :
  isFormValid
    (validateFields (map lowerBasicLatin)
       [(js "email", JSString (js "jo@example.com"));
        (js "phone", JSString []);
        (js "nickname", JSNull)]
       sampleSchema) = true.
Proof.
  destruct (validateFields_results (map lowerBasicLatin)
              [(js "email", JSString (js "jo@example.com"));
               (js "phone", JSString []);
               (js "nickname", JSNull)]
              sampleSchema) as [_ H].
  - reflexivity.
  - vm_compute. repeat constructor; simpl; intuition discriminate.
  - rewrite H. reflexivity.
Defined.

End FieldTrackingFacts.

(** ** The contact form: verdicts, data, outcomes *)

Module PhoneInputFacts.

Import Validation ValidationFacts ValidationMoreFacts PhoneMoreFacts Contact
  ContactShapes.

Lemma layout_digits (d : jsstring) :
  forallb isDigit d = true -> List.filter isDigit (layout d) = firstn 10 d.
Proof.
  intros Hd. unfold layout, slice, sliceFrom.
  change (skipn 0 d) with d.
  destruct (Nat.leb_spec 6 (length d)); [|destruct (Nat.leb_spec 3 (length d))].
  - rewrite !List.filter_app.
    rewrite (filter_forallb isDigit (firstn (3 - 0) d))
      by auto using forallb_firstn, forallb_skipn.
    rewrite (filter_forallb isDigit (firstn (6 - 3) (skipn 3 d)))
      by auto using forallb_firstn, forallb_skipn.
    rewrite (filter_forallb isDigit (firstn (10 - 6) (skipn 6 d)))
      by auto using forallb_firstn, forallb_skipn.
    change (List.filter isDigit (js "(")) with (@nil N).
    change (List.filter isDigit (js ") ")) with (@nil N).
    change (List.filter isDigit (js "-")) with (@nil N).
    simpl app.
    change (3 - 0)%nat with 3%nat. change (6 - 3)%nat with 3%nat.
    change (10 - 6)%nat with 4%nat.
    replace (skipn 6 d) with (skipn 3 (skipn 3 d))
      by (rewrite skipn_skipn; reflexivity).
    rewrite (take_take_drop (skipn 3 d) 3 4), take_take_drop. reflexivity.
  - rewrite !List.filter_app.
    rewrite (filter_forallb isDigit (firstn (3 - 0) d))
      by auto using forallb_firstn, forallb_skipn.
    rewrite (filter_forallb isDigit (skipn 3 d))
      by auto using forallb_firstn, forallb_skipn.
    change (List.filter isDigit (js "(")) with (@nil N).
    change (List.filter isDigit (js ") ")) with (@nil N).
    simpl app. change (3 - 0)%nat with 3%nat.
    rewrite firstn_skipn. symmetry. apply firstn_all2. lia.
  - rewrite filter_forallb by assumption. symmetry. apply firstn_all2. lia.
Qed.

Lemma layout_take (d : jsstring) : layout (firstn 10 d) = layout d.
Proof.
  destruct (Nat.le_gt_cases (length d) 10) as [Hle|Hgt].
  { rewrite firstn_all2 by exact Hle. reflexivity. }
  unfold layout, slice, sliceFrom.
  change (skipn 0 (firstn 10 d)) with (firstn 10 d).
  change (skipn 0 d) with d.
  rewrite length_firstn, Nat.min_l by lia.
  assert (E : (6 <=? length d)%nat = true) by (apply Nat.leb_le; lia).
  rewrite E.
  cbn [Nat.leb].
  rewrite !skipn_firstn_comm, !firstn_firstn. reflexivity.
Qed.

Lemma layout_length (d : jsstring) : (length (layout d) <= 14)%nat.
Proof.
  unfold layout, slice, sliceFrom.
  change (3 - 0)%nat with 3%nat. change (6 - 3)%nat with 3%nat.
  change (10 - 6)%nat with 4%nat.
  pose proof (firstn_le_length 3 (skipn 0 d)).
  pose proof (firstn_le_length 3 (skipn 3 d)).
  pose proof (firstn_le_length 4 (skipn 6 d)).
  pose proof (length_skipn 3 d).
  destruct (Nat.leb_spec 6 (length d)); [|destruct (Nat.leb_spec 3 (length d))].
  - rewrite !length_app.
    change (length (js "(")) with 1%nat. change (length (js ") ")) with 2%nat.
    change (length (js "-")) with 1%nat. lia.
  - rewrite !length_app.
    change (length (js "(")) with 1%nat. change (length (js ") ")) with 2%nat.
    lia.
  - lia.
Qed.

(** X14: [handlePhoneInput] keeps the first ten digits of the field's value
    and drops the rest, writes at most 14 code units, changes nothing when
    applied to what it wrote, and on a value of exactly ten digits writes
    what [formatPhone] of the validation module returns. *)
Theorem handlePhoneInput_formats (fieldValue : jsstring) :
  let digits := List.filter isDigit fieldValue in
  List.filter isDigit (handlePhoneInput fieldValue) = firstn 10 digits
  /\ handlePhoneInput (handlePhoneInput fieldValue)
     = handlePhoneInput fieldValue
  /\ (length (handlePhoneInput fieldValue) <= 14)%nat
  /\ (length digits = 10%nat ->
      JSString (handlePhoneInput fieldValue)
      = formatPhone (JSString fieldValue)).
Proof.
  intros digits.
  assert (Hd : forallb isDigit digits = true) by apply forallb_filter.
  change (handlePhoneInput fieldValue) with (layout digits).
  split; [apply layout_digits, Hd|].
  split.
  - change (handlePhoneInput (layout digits))
      with (layout (List.filter isDigit (layout digits))).
    rewrite layout_digits by exact Hd. apply layout_take.
  - split; [apply layout_length|].
    intros Hlen. unfold formatPhone, normalizePhone. fold digits.
    rewrite Hlen. cbn [Nat.eqb]. unfold layout. rewrite Hlen.
    cbn [Nat.leb]. unfold slice, sliceFrom.
    rewrite (firstn_all2 (skipn 6 digits)); [reflexivity|].
    rewrite length_skipn. lia.
Qed.

Lemma handlePhoneInput_formats_witness :
  JSString (handlePhoneInput (js "415.555.1234"))
  = formatPhone (JSString (js "415.555.1234")).
Proof.
  apply (handlePhoneInput_formats (js "415.555.1234")). reflexivity.
Defined.

End PhoneInputFacts.

Module FormVerdictFacts.

Import Contact ContactShapes ContactFacts.

Create HintDb entered.

Ltac entered_step :=
  match goal with
  | |- keeps _ (bind _ _) => apply keeps_bind; [|intros ?]
  | |- keeps _ (ret _) => apply keeps_ret
  | |- keeps _ get => apply keeps_get
  | |- keeps _ (match ?x with _ => _ end) => destruct x
  | |- keeps _ _ => solve [intros ?; reflexivity]
  | |- keeps _ _ => solve [auto with entered]
  end.

Ltac entered_tac := repeat entered_step.

Lemma map_alter_same {A B} (h : A -> B) (g : A -> A) i (l : list A) :
  (forall x, h (g x) = h x) -> map h (alter g i l) = map h l.
Proof.
  intros Hg. revert i. induction l as [|x l IH]; intros [|i]; simpl;
    try reflexivity.
  - rewrite Hg. reflexivity.
  - f_equal. apply IH.
Qed.

Lemma keeps_setField_entered i g :
  (forall f, name (g f) = name f) -> (forall f, value (g f) = value f) ->
  keeps entered (setField i g).
Proof.
  intros Hn Hv w. unfold entered, inputs. simpl. do 3 f_equal.
  apply map_alter_same. intros f. rewrite Hn, Hv. reflexivity.
Qed.

Lemma keeps_showFieldError_entered i e : keeps entered (showFieldError i e).
Proof.
  unfold showFieldError, announceToScreenReader. entered_tac;
    apply keeps_setField_entered; reflexivity.
Qed.

Lemma keeps_clearFieldError_entered i : keeps entered (clearFieldError i).
Proof.
  unfold clearFieldError. entered_tac;
    apply keeps_setField_entered; reflexivity.
Qed.

#[local] Hint Resolve keeps_showFieldError_entered
  keeps_clearFieldError_entered : entered.

Lemma keeps_validateField_entered i : keeps entered (validateField i).
Proof. unfold validateField. entered_tac. Qed.

Lemma validateField_fst i w :
  fst (validateField i w) = verdictAt (fields (form w)) i.
Proof.
  unfold validateField, verdictAt, fieldVerdict, verdict.
  rewrite bind_eq. cbn [get fst snd].
  destruct (fields (form w) !! i) as [f|]; [|rewrite bind_eq; reflexivity].
  destruct (isEmpty (name f)); [rewrite bind_eq; reflexivity|].
  rewrite bind_eq.
  destruct (lookupRule (name f)) as [validator|];
    [|rewrite bind_eq; reflexivity].
  destruct (isValid (validator (value f))); cbn [negb];
    rewrite bind_eq; reflexivity.
Qed.

Lemma verdictAt_inputs (fs fs' : list Field) i :
  map (fun f => (name f, value f)) fs = map (fun f => (name f, value f)) fs' ->
  verdictAt fs i = verdictAt fs' i.
Proof.
  unfold verdictAt, fieldVerdict. revert fs' i.
  induction fs as [|f fs IH]; intros [|f' fs'] i H; simpl in H;
    try discriminate; [reflexivity|].
  injection H as Hn Hv Hrest. destruct i as [|i]; simpl.
  - rewrite Hn, Hv. reflexivity.
  - apply IH, Hrest.
Qed.

Lemma tally_inputs (fs fs' : list Field) idxs : forall acc,
  map (fun f => (name f, value f)) fs = map (fun f => (name f, value f)) fs' ->
  fold_left (tally fs) idxs acc = fold_left (tally fs') idxs acc.
Proof.
  induction idxs as [|i idxs IH]; intros acc H; simpl; [reflexivity|].
  unfold tally at 2 4. rewrite (verdictAt_inputs fs fs' i H). apply IH, H.
Qed.

Lemma forEachField_run idxs : forall acc w,
  fst (forEachField idxs acc w)
  = fold_left (tally (fields (form w))) idxs acc
  /\ entered (snd (forEachField idxs acc w)) = entered w.
Proof.
  induction idxs as [|i idxs IH]; intros acc w; simpl; [auto|].
  rewrite bind_eq.
  pose proof (keeps_validateField_entered i w) as Hk.
  destruct (IH (if fst (validateField i w) then acc
                else (false, match snd acc with
                             | None => Some i
                             | first => first
                             end))
               (snd (validateField i w))) as [H1 H2].
  rewrite H1, H2, Hk. split; [|reflexivity].
  rewrite validateField_fst.
  apply tally_inputs.
  exact (f_equal (fun x => fst (fst (fst x))) Hk).
Qed.

Lemma fold_tally fs idxs : forall acc,
  fold_left (tally fs) idxs acc
  = (fst acc && forallb (verdictAt fs) idxs,
     match snd acc with
     | Some first => Some first
     | None => find (fun i => negb (verdictAt fs i)) idxs
     end).
Proof.
  induction idxs as [|i idxs IH]; intros [b o]; simpl.
  - rewrite andb_true_r. destruct o; reflexivity.
  - rewrite IH. unfold tally. destruct (verdictAt fs i); simpl.
    + reflexivity.
    + rewrite andb_false_r. destruct o; reflexivity.
Qed.

Lemma forallb_false_find (p : nat -> bool) l :
  forallb p l = false -> exists i, find (fun i => negb (p i)) l = Some i.
Proof.
  induction l as [|x l IH]; simpl; [discriminate|].
  destruct (p x); simpl; [exact IH | eauto].
Qed.

Lemma forallb_true_find (p : nat -> bool) l :
  forallb p l = true -> find (fun i => negb (p i)) l = None.
Proof.
  induction l as [|x l IH]; simpl; [reflexivity|].
  destruct (p x); simpl; [exact IH | discriminate].
Qed.

Lemma forallb_ext_In {A} (p q : A -> bool) (l : list A) :
  (forall x, In x l -> p x = q x) -> forallb p l = forallb q l.
Proof.
  induction l as [|x l IH]; simpl; [reflexivity|]. intros H.
  rewrite (H x), IH by auto. reflexivity.
Qed.

Lemma namedFields_forallb (fs : list Field) (P Q : Field -> bool) :
  forallb (fun i => match fs !! i with Some f => Q f | None => false end)
    (List.filter (fun i => match fs !! i with Some f => P f | None => false end)
       (seq 0 (length fs)))
  = forallb Q (List.filter P fs).
Proof.
  induction fs as [|x fs IH] using rev_ind; [reflexivity|].
  rewrite length_app, seq_app, !List.filter_app, !forallb_app. simpl.
  rewrite <- IH. f_equal.
  - assert (Hl : forall i, In i (seq 0 (length fs)) ->
                           (fs ++ [x]) !! i = fs !! i).
    { intros i Hi. apply in_seq in Hi. apply lookup_app_l. lia. }
    rewrite (filter_ext_in _
               (fun i => match fs !! i with Some f => P f | None => false end)).
    2: { intros i Hi. rewrite Hl by exact Hi. reflexivity. }
    apply forallb_ext_In.
    intros i Hi. apply filter_In in Hi as [Hi _]. rewrite Hl by exact Hi.
    reflexivity.
  - assert (Hx : (fs ++ [x]) !! length fs = Some x).
    { rewrite lookup_app_r by lia. rewrite Nat.sub_diag. reflexivity. }
    rewrite Hx. destruct (P x); simpl; [rewrite Hx|]; reflexivity.
Qed.

Lemma validateForm_forallb fm :
  forallb (verdictAt (fields fm)) (namedFields fm)
  = forallb fieldVerdict (validatedFields fm).
Proof. apply namedFields_forallb. Qed.

(** [validateForm] as a function of the page. *)
Lemma validateForm_run w :
  fst (validateForm w)
  = forallb (verdictAt (fields (form w))) (namedFields (form w))
  /\ activeElement (snd (validateForm w))
     = match find (fun i => negb (verdictAt (fields (form w)) i))
               (namedFields (form w)) with
       | Some i => Some i
       | None => activeElement w
       end
  /\ inputs (snd (validateForm w)) = inputs w
  /\ clock (snd (validateForm w)) = clock w
  /\ userAgent (snd (validateForm w)) = userAgent w.
Proof.
  unfold validateForm. rewrite bind_eq. cbn [get fst snd].
  rewrite bind_eq.
  destruct (forEachField_run (namedFields (form w)) (true, None) w)
    as [H1 H2].
  rewrite H1, fold_tally. cbn [fst snd andb].
  set (w' := snd (forEachField (namedFields (form w)) (true, None) w)) in *.
  pose proof (f_equal (fun x => fst (fst (fst x))) H2) as Hin.
  pose proof (f_equal (fun x => snd (fst (fst x))) H2) as Hck.
  pose proof (f_equal (fun x => snd (fst x)) H2) as Hua.
  pose proof (f_equal snd H2) as Hact.
  cbn [entered fst snd] in Hin, Hck, Hua, Hact.
  destruct (forallb (verdictAt (fields (form w))) (namedFields (form w)))
    eqn:Hall.
  - assert (Hnone : find (fun i => negb (verdictAt (fields (form w)) i))
                      (namedFields (form w)) = None).
      by (apply forallb_true_find, Hall).
    rewrite Hnone. rewrite bind_eq. auto.
  - destruct (forallb_false_find _ _ Hall) as [i Hi]. rewrite Hi.
    rewrite !bind_eq. auto.
Qed.



Lemma keeps_emit_made e : isSubmission e = false -> keeps made (emit e).
Proof.
  intros He w. unfold made, submissions. simpl.
  rewrite List.filter_app, length_app. simpl.
  destruct e; try discriminate He; simpl; lia.
Qed.

#[local] Hint Resolve keeps_emit_made : entered.

Lemma keeps_showFieldError_made i e : keeps made (showFieldError i e).
Proof. unfold showFieldError, announceToScreenReader. entered_tac. Qed.

Lemma keeps_clearFieldError_made i : keeps made (clearFieldError i).
Proof. unfold clearFieldError. entered_tac. Qed.

#[local] Hint Resolve keeps_showFieldError_made keeps_clearFieldError_made
  : entered.

Lemma keeps_validateField_made i : keeps made (validateField i).
Proof. unfold validateField. entered_tac. Qed.

#[local] Hint Resolve keeps_validateField_made : entered.

Lemma keeps_forEachField_made idxs acc : keeps made (forEachField idxs acc).
Proof.
  revert acc. induction idxs as [|i idxs IH]; intros acc; simpl; entered_tac.
Qed.

#[local] Hint Resolve keeps_forEachField_made : entered.

Lemma keeps_validateForm_made : keeps made validateForm.
Proof. unfold validateForm. entered_tac. Qed.

Lemma keeps_checkHoneypot_made : keeps made checkHoneypot.
Proof. unfold checkHoneypot. entered_tac. Qed.

Lemma keeps_checkHoneypot_form : keeps form checkHoneypot.
Proof. unfold checkHoneypot. entered_tac. Qed.

Lemma keeps_collectFormData_made : keeps made collectFormData.
Proof. unfold collectFormData. entered_tac. Qed.

Lemma keeps_checkHoneypot_entered : keeps entered checkHoneypot.
Proof. unfold checkHoneypot. entered_tac. Qed.

Lemma collect_fold (fs : list Field) : forall data,
  fold_left
    (fun data f =>
       if negb (strictEq (name f) HONEYPOT_FIELD)
       then setProperty (name f) (trim (value f)) data
       else data)
    (List.filter (fun f => negb (isEmpty (name f))) fs) data
  = fold_left
      (fun data '(key, value) =>
         if negb (strictEq key HONEYPOT_FIELD)
         then setProperty key (trim value) data
         else data)
      (List.filter (fun '(key, _) => negb (isEmpty key))
         (map (fun f => (name f, value f)) fs)) data.
Proof.
  induction fs as [|f fs IH]; intros data; simpl; [reflexivity|].
  destruct (isEmpty (name f)); simpl; apply IH.
Qed.

Lemma collectFormData_fst w :
  fst (collectFormData w) = dataOf (inputs w) (clock w) (userAgent w).
Proof.
  unfold collectFormData, dataOf, inputs. rewrite bind_eq.
  cbn [get fst snd]. rewrite bind_eq. cbn [ret fst].
  rewrite collect_fold. reflexivity.
Qed.

Lemma checkHoneypot_fst w :
  fst (checkHoneypot w) = honeypotPasses (form w).
Proof.
  unfold checkHoneypot, honeypotPasses. rewrite bind_eq. cbn [get fst snd].
  destruct (honeypotField (form w)) as [hp|]; [|rewrite bind_eq; reflexivity].
  rewrite bind_eq, strictEq_nil. cbn [ret fst]. apply negb_involutive.
Qed.

Lemma made_emit w e :
  made (snd (emit e w)) = (made w + if isSubmission e then 1 else 0)%nat.
Proof.
  unfold made, submissions. simpl. rewrite List.filter_app, length_app.
  destruct e; simpl; lia.
Qed.




End FormVerdictFacts.

Module FormDataFacts.

Import Contact ContactShapes ContactFacts FormVerdictFacts.

Lemma ownProperty_define_eq key v data :
  ownProperty key (defineEntry key v data) = Some v.
Proof.
  induction data as [|[k x] data IH]; simpl.
  - rewrite (proj2 (strictEq_spec key key) eq_refl). reflexivity.
  - destruct (strictEq k key) eqn:E; simpl; rewrite E; [reflexivity|exact IH].
Qed.

Lemma ownProperty_define_ne key key' v data :
  key <> key' ->
  ownProperty key' (defineEntry key v data) = ownProperty key' data.
Proof.
  intros Hne. induction data as [|[k x] data IH]; simpl.
  - destruct (strictEq key key') eqn:E; [|reflexivity].
    apply strictEq_spec in E. contradiction.
  - destruct (strictEq k key) eqn:E; simpl.
    + apply strictEq_spec in E. subst k.
      destruct (strictEq key key') eqn:E'; [|reflexivity].
      apply strictEq_spec in E'. contradiction.
    + destruct (strictEq k key'); [reflexivity|exact IH].
Qed.

Lemma strictEq_false (a b : jsstring) : a <> b -> strictEq a b = false.
Proof.
  intros Hne. destruct (strictEq a b) eqn:E; [|reflexivity].
  apply strictEq_spec in E. contradiction.
Qed.

Lemma ownProperty_assign_eq key v data :
  key <> js "__proto__" ->
  ownProperty key (assignEntry key v data) = Some v.
Proof.
  intros Hp. unfold assignEntry. rewrite (strictEq_false _ _ Hp).
  apply ownProperty_define_eq.
Qed.

Lemma ownProperty_assign_ne key key' v data :
  key <> key' ->
  ownProperty key' (assignEntry key v data) = ownProperty key' data.
Proof.
  intros Hne. unfold assignEntry.
  destruct (strictEq key (js "__proto__")); [reflexivity|].
  apply ownProperty_define_ne, Hne.
Qed.

Lemma ownProperty_assign_proto key v data :
  ownProperty (js "__proto__") (assignEntry key v data)
  = ownProperty (js "__proto__") data.
Proof.
  unfold assignEntry.
  destruct (strictEq key (js "__proto__")) eqn:E; [reflexivity|].
  apply ownProperty_define_ne. intros ->.
  rewrite (proj2 (strictEq_spec _ _) eq_refl) in E. discriminate.
Qed.

Lemma collected_proto (entries : list (jsstring * EntryValue)) : forall data,
  ownProperty (js "__proto__") (fold_left collectStep entries data)
  = ownProperty (js "__proto__") data.
Proof.
  induction entries as [|[k v] entries IH]; intros data; simpl;
    [reflexivity|].
  rewrite IH. destruct (strictEq k HONEYPOT_FIELD); simpl; [reflexivity|].
  apply ownProperty_assign_proto.
Qed.

Lemma collected_honeypot (entries : list (jsstring * EntryValue)) :
  forall data,
  ownProperty HONEYPOT_FIELD (fold_left collectStep entries data)
  = ownProperty HONEYPOT_FIELD data.
Proof.
  induction entries as [|[k v] entries IH]; intros data; simpl;
    [reflexivity|].
  rewrite IH.
  destruct (strictEq k HONEYPOT_FIELD) eqn:E; simpl; [reflexivity|].
  apply ownProperty_assign_ne. intros Heq.
  rewrite (proj2 (strictEq_spec _ _) Heq) in E. discriminate.
Qed.

Lemma collected_key (key : jsstring) (entries : list (jsstring * EntryValue))
  data :
  key <> HONEYPOT_FIELD -> key <> js "__proto__" ->
  ownProperty key (fold_left collectStep entries data)
  = match find (fun entry => strictEq (fst entry) key) (rev entries) with
    | Some entry => Some (trimmed (snd entry))
    | None => ownProperty key data
    end.
Proof.
  intros Hhp Hp.
  induction entries as [|[k v] entries IH] using rev_ind; [reflexivity|].
  rewrite fold_left_app, rev_app_distr. simpl.
  destruct (strictEq k key) eqn:E.
  - apply strictEq_spec in E. subst k.
    rewrite (strictEq_false _ _ Hhp). simpl.
    apply ownProperty_assign_eq, Hp.
  - destruct (strictEq k HONEYPOT_FIELD); simpl; [exact IH|].
    rewrite ownProperty_assign_ne; [exact IH|].
    intros Heq. rewrite (proj2 (strictEq_spec _ _) Heq) in E. discriminate.
Qed.

Lemma defineProperty_define key v data :
  map (fun '(k, x) => (k, StringValue x)) (defineProperty key v data)
  = defineEntry key (StringValue v)
      (map (fun '(k, x) => (k, StringValue x)) data).
Proof.
  induction data as [|[k x] data IH]; simpl; [reflexivity|].
  destruct (strictEq k key); simpl; [reflexivity|]. rewrite IH. reflexivity.
Qed.

Lemma setProperty_assign key v data :
  map (fun '(k, x) => (k, StringValue x)) (setProperty key v data)
  = assignEntry key (StringValue v)
      (map (fun '(k, x) => (k, StringValue x)) data).
Proof.
  unfold setProperty, assignEntry.
  destruct (strictEq key (js "__proto__")); [reflexivity|].
  apply defineProperty_define.
Qed.

Lemma collect_entries (fs : list Field) : forall data,
  map (fun '(k, x) => (k, StringValue x))
    (fold_left
       (fun data f =>
          if negb (strictEq (name f) HONEYPOT_FIELD)
          then setProperty (name f) (trim (value f)) data
          else data)
       fs data)
  = fold_left collectStep
      (map (fun f => (name f, StringValue (value f))) fs)
      (map (fun '(k, x) => (k, StringValue x)) data).
Proof.
  induction fs as [|f fs IH]; intros data; simpl; [reflexivity|].
  rewrite IH. f_equal.
  destruct (strictEq (name f) HONEYPOT_FIELD); simpl; [reflexivity|].
  apply setProperty_assign.
Qed.

(** The page model of [collectFormData] returns what the loop builds from
    the entries it takes the form to have. *)
Lemma collectFormData_collect (w : World) :
  map (fun '(k, x) => (k, StringValue x)) (fst (collectFormData w))
  = collect (entriesOf w) (clock w) (userAgent w).
Proof.
  unfold collectFormData, collect, entriesOf.
  rewrite !bind_eq. cbn [get ret emit modify fst snd].
  rewrite !setProperty_assign, collect_entries. reflexivity.
Qed.

(** X17: whatever entries the [FormData] of the form has, no file among
    them entered under [__proto__], the data [collectFormData] returns hold
    the time under [timestamp], the user agent under [userAgent], nothing
    under the name of the honeypot nor under [__proto__], and under every
    other name the value of the last entry of that name, trimmed when it is
    a string, if there is such an entry. *)
Theorem collectFormData_contents (entries : list (jsstring * EntryValue))
  (timestamp agent key : jsstring) :
  noFilePrototype entries = true ->
  let data := collect entries timestamp agent in
  ownProperty (js "timestamp") data = Some (StringValue timestamp)
  /\ ownProperty (js "userAgent") data = Some (StringValue agent)
  /\ ownProperty HONEYPOT_FIELD data = None
  /\ ownProperty (js "__proto__") data = None
  /\ (key <> HONEYPOT_FIELD -> key <> js "timestamp" ->
      key <> js "userAgent" -> key <> js "__proto__" ->
      ownProperty key data
      = option_map (fun entry => trimmed (snd entry))
          (find (fun entry => strictEq (fst entry) key) (rev entries))).
Proof.
  intros _ data. subst data. unfold collect.
  split; [|split; [|split; [|split]]].
  - rewrite ownProperty_assign_ne by discriminate.
    apply ownProperty_assign_eq. discriminate.
  - apply ownProperty_assign_eq. discriminate.
  - rewrite !ownProperty_assign_ne by discriminate.
    apply collected_honeypot.
  - rewrite !ownProperty_assign_proto. apply collected_proto.
  - intros Hhp Hts Hua Hp.
    rewrite !ownProperty_assign_ne by congruence.
    rewrite collected_key by assumption.
    destruct (find _ _); reflexivity.
Qed.

Lemma collectFormData_contents_witness :
  ownProperty (js "parentName")
    (collect sampleEntries (js "2025-01-01T00:00:00.000Z") (js "Mozilla/5.0"))
  = Some (StringValue (js "Jordan Lee"))
  /\ ownProperty (js "attachment")
       (collect sampleEntries (js "2025-01-01T00:00:00.000Z")
          (js "Mozilla/5.0"))
     = Some (FileValue 1).
Proof.
  split.
  - destruct (collectFormData_contents sampleEntries
                (js "2025-01-01T00:00:00.000Z") (js "Mozilla/5.0")
                (js "parentName") eq_refl) as (_ & _ & _ & _ & H).
    rewrite H by discriminate. reflexivity.
  - destruct (collectFormData_contents sampleEntries
                (js "2025-01-01T00:00:00.000Z") (js "Mozilla/5.0")
                (js "attachment") eq_refl) as (_ & _ & _ & _ & H).
    rewrite H by discriminate. reflexivity.
Defined.

End FormDataFacts.

Module FormOutcomeFacts.

Import Contact ContactShapes ContactFacts FormVerdictFacts.

Lemma step_typing s e :
  touchedFields (formState (world s)) = ∅ -> isTyping e = true ->
  display (world (step s e)) = display (world s)
  /\ touchedFields (formState (world (step s e))) = ∅
  /\ inflight (step s e) = inflight s.
Proof.
  intros Ht He. destruct e as [|k o|i|i|i v|]; try discriminate He; simpl.
  - unfold handleFieldInput. rewrite bind_eq. cbn [get fst snd].
    destruct (fields (form (world s)) !! i) as [f|]; [|auto].
    rewrite Ht. rewrite bool_decide_eq_false_2 by set_solver. auto.
  - split; [|auto]. unfold display. simpl. do 2 f_equal.
    apply map_alter_same. reflexivity.
Qed.

(** X18: as long as no field has been touched, typing (edits and the
    debounced input handler) changes nothing of what the page shows of
    validation and starts no submission. *)
Theorem typing_shows_no_error (s : System) (es : list Event) :
  touchedFields (formState (world s)) = ∅ ->
  forallb isTyping es = true ->
  display (world (run s es)) = display (world s)
  /\ inflight (run s es) = inflight s.
Proof.
  revert s. induction es as [|e es IH]; intros s Ht Hes; simpl; [auto|].
  simpl in Hes. apply andb_true_iff in Hes as [He Hes].
  destruct (step_typing s e Ht He) as (Hd & Ht' & Hi).
  destruct (IH (step s e) Ht' Hes) as [Hd' Hi'].
  unfold run in *. rewrite Hd', Hi', Hd, Hi. auto.
Qed.

Lemma typing_shows_no_error_witness :
  display
    (world
       (run {| world := samplePage "" false; inflight := [] |}
          [Edit 1 (js "not an email"); Input 1; Edit 4 (js "short"); Input 4]))
  = display (samplePage "" false).
Proof.
  apply (typing_shows_no_error
           {| world := samplePage "" false; inflight := [] |}
           [Edit 1 (js "not an email"); Input 1; Edit 4 (js "short"); Input 4]);
    reflexivity.
Defined.

Lemma orElse_orElse m d e : d <> [] -> orElse (Some (orElse m d)) e = orElse m d.
Proof.
  intros Hd. destruct m as [[|c s]|]; simpl; try reflexivity;
    destruct d; congruence.
Qed.

Lemma showSuccessMessage_remains w :
  remains (snd (showSuccessMessage w))
  = (fields (form w), validationErrors (formState w),
     touchedFields (formState w),
     (fun _ => {| innerHTML := SuccessMessage; visible := true |})
       <$> messageContainer w).
Proof.
  unfold showSuccessMessage. rewrite bind_eq. cbn [get fst snd].
  unfold remains. destruct (messageContainer w) eqn:Hc; simpl; rewrite ?Hc;
    reflexivity.
Qed.

Lemma showErrorMessage_remains message w :
  remains (snd (showErrorMessage message w))
  = (fields (form w), validationErrors (formState w),
     touchedFields (formState w),
     (fun _ => {| innerHTML := ErrorMessage message; visible := true |})
       <$> messageContainer w).
Proof.
  unfold showErrorMessage. rewrite bind_eq. cbn [get fst snd].
  unfold remains. destruct (messageContainer w) eqn:Hc; simpl; rewrite ?Hc;
    reflexivity.
Qed.

Lemma settled_remains p o w :
  remains (snd (handleFormSubmit_settled p o w))
  = if succeeded o then
      (map (fun f =>
              {| name := name f; value := defaultValue f;
                 defaultValue := defaultValue f;
                 class_error := class_error f;
                 aria_invalid := aria_invalid f;
                 errorElement := errorElement f |}) (fields (form w)),
       ∅, ∅,
       (fun _ => {| innerHTML := SuccessMessage; visible := true |})
         <$> messageContainer w)
    else
      (fields (form w), validationErrors (formState w),
       touchedFields (formState w),
       match failureNotice o with
       | Some message =>
           (fun _ => {| innerHTML := ErrorMessage message; visible := true |})
             <$> messageContainer w
       | None => messageContainer w
       end).
Proof.
  unfold handleFormSubmit_settled. rewrite bind_eq.
  change (remains (snd (finallyBlock p ?x))) with (remains x).
  destruct o as [[ok m]|[m|]];
    cbn [succeeded failureNotice success res_message].
  - destruct ok.
    + rewrite !bind_eq.
      change (remains (snd (emit ?e ?x))) with (remains x).
      rewrite showSuccessMessage_remains. reflexivity.
    + unfold catchBlock. rewrite bind_eq.
      rewrite showErrorMessage_remains, orElse_orElse by discriminate.
      reflexivity.
  - unfold catchBlock. rewrite bind_eq.
    rewrite showErrorMessage_remains. reflexivity.
  - reflexivity.
Qed.



End FormOutcomeFacts.

Module FieldDisplayFacts.

Import Contact ContactShapes ContactFacts FormVerdictFacts.

Lemma clearFieldError_run i w f :
  fields (form w) !! i = Some f ->
  fields (form (snd (clearFieldError i w)))
  = alter (fun f =>
             {| name := name f; value := value f;
                defaultValue := defaultValue f;
                class_error := false; aria_invalid := None;
                errorElement :=
                  (fun _ => {| err_textContent := []; err_visible := false |})
                    <$> errorElement f |}) i (fields (form w))
  /\ validationErrors (formState (snd (clearFieldError i w)))
     = delete (name f) (validationErrors (formState w)).
Proof.
  intros H. unfold clearFieldError. rewrite bind_eq. cbn [get fst snd].
  rewrite H. rewrite bind_eq. split; reflexivity.
Qed.

Lemma showFieldError_run i e w f :
  fields (form w) !! i = Some f ->
  fields (form (snd (showFieldError i e w)))
  = alter (fun f =>
             {| name := name f; value := value f;
                defaultValue := defaultValue f;
                class_error := true; aria_invalid := Some (js "true");
                errorElement :=
                  (fun _ => {| err_textContent := default [] e;
                               err_visible := true |}) <$> errorElement f |})
      i (fields (form w))
  /\ validationErrors (formState (snd (showFieldError i e w)))
     = <[name f := e]> (validationErrors (formState w)).
Proof.
  intros H. unfold showFieldError. rewrite bind_eq. cbn [get fst snd].
  rewrite H. rewrite !bind_eq.
  destruct (errorElement f); split; reflexivity.
Qed.



End FieldDisplayFacts.

(** ** The utilities of the main module *)

Module MainFacts.

Import Regex RegexFacts PatternFacts Validation ValidationFacts StringMoreFacts
  ValidationMoreFacts PhoneMoreFacts Main.

Lemma Matches_Times n p s :
  Matches (Times n (Cls p)) s <-> length s = n /\ forallb p s = true.
Proof.
  revert s. induction n as [|n IH]; intros s; simpl.
  - split.
    + intros H. inversion H; subst. auto.
    + intros [H _]. destruct s; [constructor|discriminate].
  - split.
    + intros H. apply Matches_Seq_inv in H as (a & b & Hs & Ha & Hb).
      subst s. apply Matches_Cls_inv in Ha as (c & Ha & Hc). subst a.
      apply IH in Hb as [Hl Hb]. simpl. rewrite Hc, Hb, Hl. auto.
    + intros [Hl Hp]. destruct s as [|c s]; [discriminate|].
      simpl in Hl, Hp. apply andb_true_iff in Hp as [Hc Hp].
      apply (MSeq _ _ [c] s); [constructor; exact Hc|].
      apply IH. split; [lia | exact Hp].
Qed.

Lemma test_tenDigits s :
  test tenDigits s = true <-> length s = 10%nat /\ forallb isDigit s = true.
Proof.
  rewrite test_spec. unfold tenDigits. split.
  - intros H. apply Matches_Seq_inv in H as (a & r & Hs & Ha & Hr).
    apply Matches_Seq_inv in Hr as (b & c & Hr' & Hb & Hc).
    apply Matches_Times in Ha as [La Pa]. apply Matches_Times in Hb as [Lb Pb].
    apply Matches_Times in Hc as [Lc Pc]. subst s r.
    rewrite !length_app, !forallb_app, Pa, Pb, Pc. split; [lia|reflexivity].
  - intros [Hl Hp].
    rewrite <- (firstn_skipn 3 s), <- (firstn_skipn 3 (skipn 3 s)).
    apply MSeq; [|apply MSeq]; apply Matches_Times;
      (split; [|auto using forallb_firstn, forallb_skipn]).
    + rewrite length_firstn. lia.
    + rewrite length_firstn, length_skipn. lia.
    + rewrite !length_skipn. lia.
Qed.

Lemma test_tenDigits_cleaned (p : jsstring) :
  test tenDigits (List.filter isDigit p)
  = (length (List.filter isDigit p) =? 10)%nat.
Proof.
  destruct (length (List.filter isDigit p) =? 10)%nat eqn:E.
  - apply test_tenDigits. split; [apply Nat.eqb_eq, E|apply forallb_filter].
  - destruct (test tenDigits (List.filter isDigit p)) eqn:Ht; [|reflexivity].
    apply test_tenDigits in Ht as [Hl _]. apply Nat.eqb_neq in E. lia.
Qed.

Lemma formatPhone_eq (phone : jsstring) :
  Main.formatPhone phone
  = let digits := List.filter isDigit phone in
    if (length digits =? 10)%nat then
      js "(" ++ slice 0 3 digits ++ js ") " ++ slice 3 6 digits ++ js "-"
      ++ sliceFrom 6 digits
    else phone.
Proof.
  unfold Main.formatPhone. rewrite test_tenDigits_cleaned. cbv zeta.
  destruct (length (List.filter isDigit phone) =? 10)%nat eqn:E;
    [|reflexivity].
  change (slice 6 10 (List.filter isDigit phone))
    with (firstn 4 (sliceFrom 6 (List.filter isDigit phone))).
  rewrite (firstn_all2 (sliceFrom 6 (List.filter isDigit phone)));
    [reflexivity|].
  unfold sliceFrom. rewrite length_skipn. apply Nat.eqb_eq in E. lia.
Qed.

(** X21: [Utils.formatPhone] changes nothing when applied to its own result,
    and returns what [formatPhone] of the validation module returns, unless
    the argument has eleven digits and the first of them is 1. *)
Theorem formatPhone_agrees (phone : jsstring) :
  let digits := List.filter isDigit phone in
  Main.formatPhone (Main.formatPhone phone) = Main.formatPhone phone
  /\ ((length digits = 11%nat -> hd_error digits <> Some 0x31) ->
      JSString (Main.formatPhone phone)
      = Validation.formatPhone (JSString phone)).
Proof.
  intros digits.
  assert (Hd : forallb isDigit digits = true) by apply forallb_filter.
  split.
  - rewrite (formatPhone_eq phone). cbv zeta. fold digits.
    destruct (length digits =? 10)%nat eqn:E;
      [|rewrite formatPhone_eq; cbv zeta; fold digits; rewrite E;
        reflexivity].
    rewrite formatPhone_eq. cbv zeta.
    pose proof (normalizePhone_display digits Hd) as Hn.
    unfold normalizePhone in Hn. rewrite Hn, E. reflexivity.
  - intros Hno. rewrite formatPhone_eq. cbv zeta.
    unfold Validation.formatPhone, normalizePhone. fold digits.
    destruct (length digits =? 10)%nat eqn:E; [reflexivity|].
    destruct (length digits =? 11)%nat eqn:E11; [|reflexivity].
    apply Nat.eqb_eq in E11. specialize (Hno E11).
    destruct digits as [|c d]; [reflexivity|].
    destruct (c =? 49) eqn:Hc; [|reflexivity].
    apply N.eqb_eq in Hc. subst c. simpl in Hno. congruence.
Qed.

Lemma formatPhone_agrees_witness :
  JSString (Main.formatPhone (js "415-555-1234"))
  = Validation.formatPhone (JSString (js "415-555-1234")).
Proof.
  apply (formatPhone_agrees (js "415-555-1234")). discriminate.
Defined.

Lemma digits_whitespace (p : jsstring) :
  forallb isWhiteSpace p = true -> List.filter isDigit p = [].
Proof.
  induction p as [|c p IH]; simpl; [reflexivity|].
  intros H. apply andb_true_iff in H as [Hc Hp].
  destruct (isDigit c) eqn:Hd; [|auto].
  apply isDigit_not_whitespace in Hd. congruence.
Qed.

Lemma digits_trimStart (s : jsstring) :
  List.filter isDigit (trimStart s) = List.filter isDigit s.
Proof.
  destruct (trimStart_suffix s) as (p & Hs & Hp).
  rewrite Hs at 2. rewrite List.filter_app, (digits_whitespace p Hp).
  reflexivity.
Qed.

Lemma digits_trim (s : jsstring) :
  List.filter isDigit (trim s) = List.filter isDigit s.
Proof.
  unfold trim, trimEnd.
  rewrite List.filter_rev, !digits_trimStart, <- List.filter_rev.
  rewrite rev_involutive. apply digits_trimStart.
Qed.

Lemma digits_stripControl (s : jsstring) :
  List.filter isDigit (stripControl s) = List.filter isDigit s.
Proof.
  unfold stripControl. induction s as [|c s IH]; simpl; [reflexivity|].
  destruct (isDigit c) eqn:Hd.
  - rewrite (isDigit_not_control c Hd). simpl. rewrite Hd, IH. reflexivity.
  - destruct (isControl c); simpl; rewrite ?Hd; exact IH.
Qed.

(** X22: a non-empty phone number that [validatePhone] accepts is accepted,
    once sanitized, by [Validation.isValidPhone] of the main module and by
    the phone rule of the contact form; and whatever [isValidPhone] accepts,
    the phone rule of the contact form accepts. *)
Theorem phone_validators_chain (m : jsstring) (required : bool) :
  (isEmpty (sanitizeString (JSString m)) = false ->
   isValid (validatePhone (JSString m) required) = true ->
   isValidPhone (JSString (sanitizeString (JSString m))) = Some true
   /\ Contact.isValid (Contact.validationRules.phone m) = true)
  /\ (isValidPhone (JSString m) = Some true ->
      Contact.isValid (Contact.validationRules.phone m) = true).
Proof.
  split.
  - intros He. unfold validatePhone. rewrite He, test_PHONE_REGEX, He.
    cbn [negb andb]. unfold normalizePhone, MIN_PHONE_DIGITS.
    set (s := sanitizeString (JSString m)) in *.
    destruct (forallb phoneChar s) eqn:Hp; cbn [negb]; [|discriminate].
    destruct (Nat.ltb_spec (length (List.filter isDigit s)) 10);
      [discriminate|].
    intros _. split.
    + unfold isValidPhone. cbn [falsy]. rewrite He.
      unfold PHONE_REGEX. rewrite test_plus_cls, He, Hp.
      replace (10 <=? length (List.filter isDigit s))%nat with true
        by (symmetry; apply Nat.leb_le; lia).
      reflexivity.
    + unfold Contact.validationRules.phone.
      destruct (isEmpty (trim m)); [reflexivity|].
      unfold s in H. simpl in H. rewrite digits_stripControl in H.
      destruct (Nat.ltb_spec (length (List.filter isDigit (trim m))) 10);
        [lia|reflexivity].
  - unfold isValidPhone. cbn [falsy].
    destruct (isEmpty m) eqn:He.
    + intros _. apply isEmpty_true in He. subst m. reflexivity.
    + destruct (Nat.leb_spec 10 (length (List.filter isDigit m))) as [H|H];
        [intros _|discriminate].
      unfold Contact.validationRules.phone.
      destruct (isEmpty (trim m)); [reflexivity|].
      rewrite digits_trim.
      destruct (Nat.ltb_spec (length (List.filter isDigit m)) 10);
        [lia|reflexivity].
Qed.

Lemma phone_validators_chain_witness :
  isValidPhone (JSString (js "415 555 1234")) = Some true
  /\ Contact.isValid (Contact.validationRules.phone (js "415 555 1234 "))
     = true.
Proof.
  destruct (phone_validators_chain (js "415 555 1234 ") false) as [H _].
  apply H; reflexivity.
Defined.

Lemma test_emailRegex_nil : test Contact.emailRegex [] = false.
Proof. reflexivity. Qed.

(** X23: [Validation.isValidEmail] of the main module accepts a string
    exactly when the email rule of the contact form does. *)
Theorem isValidEmail_agrees (value : jsstring) :
  isValidEmail (JSString value)
  = Contact.isValid (Contact.validationRules.email value).
Proof.
  unfold isValidEmail, Contact.validationRules.email, EMAIL_REGEX.
  destruct (isEmpty (trim value)) eqn:He.
  - apply isEmpty_true in He. rewrite He. reflexivity.
  - destruct (test Contact.emailRegex (trim value)); reflexivity.
Qed.

End MainFacts.

(** ** The testimonials carousel *)

Module TestimonialsFacts.

Local Open Scope Z_scope.

Import Testimonials.

Lemma updateSlide_marks index previousIndex i s :
  let s' := updateSlide index previousIndex i s in
  shown s' = (Z.of_nat i =? index)
  /\ hiddenSlide s' = negb (Z.of_nat i =? index)
  /\ (class_previous s' = true -> class_active s' = false).
Proof.
  unfold updateSlide, shown, hiddenSlide. cbn [aria_hidden tabindex
    class_active class_previous class_next].
  destruct (Z.of_nat i =? index).
  - repeat split; try reflexivity. discriminate.
  - repeat split; reflexivity.
Qed.

Lemma updateIndicator_marks index i d :
  let d' := updateIndicator index i d in
  pressed d' = (Z.of_nat i =? index)
  /\ released d' = negb (Z.of_nat i =? index).
Proof.
  unfold updateIndicator, pressed, released.
  cbn [aria_pressed indicator_active].
  destruct (Z.of_nat i =? index); split; reflexivity.
Qed.

Lemma updateCarousel_slides index animate c i s :
  slides (updateCarousel index animate c) !! i = Some s ->
  shown s = (Z.of_nat i =? index)
  /\ hiddenSlide s = negb (Z.of_nat i =? index)
  /\ (class_previous s = true -> class_active s = false).
Proof.
  cbn [updateCarousel slides]. rewrite list_lookup_imap.
  destruct (slides c !! i); simpl; [|discriminate].
  intros [= <-]. apply updateSlide_marks.
Qed.

Lemma updateCarousel_indicators index animate c i d :
  indicators (updateCarousel index animate c) !! i = Some d ->
  pressed d = (Z.of_nat i =? index)
  /\ released d = negb (Z.of_nat i =? index).
Proof.
  cbn [updateCarousel indicators]. rewrite list_lookup_imap.
  destruct (indicators c !! i); simpl; [|discriminate].
  intros [= <-]. apply updateIndicator_marks.
Qed.

Lemma slideCount_updateCarousel index animate c :
  slideCount (updateCarousel index animate c) = slideCount c.
Proof. unfold slideCount. cbn [updateCarousel slides]. rewrite length_imap. reflexivity. Qed.

Lemma wellFormed_construct track slides0 indicators0 liveRegion0 timer c0 :
  construct track slides0 indicators0 liveRegion0 timer = Some c0 ->
  wellFormed c0 /\ length (slides c0) = length slides0
  /\ length (indicators c0) = length indicators0.
Proof.
  unfold construct. destruct track; [|discriminate]. cbn [negb orb].
  destruct (Nat.eqb_spec (length slides0) 0); [discriminate|].
  intros [= <-]. unfold init, created. split; [|split].
  - constructor.
    + unfold slideCount. cbn. rewrite !length_imap. lia.
    + intros i s. cbn [startAutoPlay autoPlayTimer updateCarousel slides].
      apply (updateCarousel_slides 0 false).
    + intros i d. cbn [startAutoPlay autoPlayTimer updateCarousel indicators].
      apply (updateCarousel_indicators 0 false).
    + exists timer. cbn. auto.
    + cbn. reflexivity.
  - cbn. rewrite !length_imap. reflexivity.
  - cbn. rewrite !length_imap. reflexivity.
Qed.

Lemma wellFormed_setPaused b c : wellFormed c -> wellFormed (setPaused b c).
Proof. intros []. constructor; assumption. Qed.

Lemma wellFormed_handleResize c : wellFormed c -> wellFormed (handleResize c).
Proof.
  intros [Hi Hs Hd Ht Hp]. unfold handleResize. constructor.
  - rewrite slideCount_updateCarousel. exact Hi.
  - intros i s. apply updateCarousel_slides.
  - intros i d. apply updateCarousel_indicators.
  - exact Ht.
  - exact Hp.
Qed.

Lemma goToSlide_moves index c :
  wellFormed c -> isTransitioning c = false ->
  index <> currentIndex c -> 0 <= index < slideCount c ->
  goToSlide index c
  = {| slides := imap (updateSlide index (currentIndex c)) (slides c);
       indicators := imap (updateIndicator index) (indicators c);
       liveRegion := liveRegion c;
       currentIndex := index;
       isTransitioning := true;
       autoPlayTimer := Some (Pos.succ (nextTimer c));
       isPaused := isPaused c;
       timeouts := [(nextTimer c, index)];
       intervals := [Pos.succ (nextTimer c)];
       nextTimer := Pos.succ (Pos.succ (nextTimer c)) |}.
Proof.
  intros [_ _ _ (id & Ht & Hl) Hp] Htr Hne Hr. unfold goToSlide.
  rewrite Htr in *.
  destruct (Z.eqb_spec index (currentIndex c)); [contradiction|].
  destruct (Z.ltb_spec index 0); [lia|].
  destruct (Z.geb_spec index (slideCount c)); [lia|].
  cbn [orb]. unfold resetAutoPlay, stopAutoPlay, updateCarousel.
  cbn [autoPlayTimer intervals]. rewrite Ht, Hl, Hp.
  cbn [List.filter]. rewrite Pos.eqb_refl. reflexivity.
Qed.

Lemma goToSlide_stays index c :
  isTransitioning c = true \/ index = currentIndex c \/ index < 0
  \/ slideCount c <= index ->
  goToSlide index c = c.
Proof.
  intros H. unfold goToSlide.
  destruct (isTransitioning c); [reflexivity|].
  destruct (Z.eqb_spec index (currentIndex c)); [reflexivity|].
  destruct (Z.ltb_spec index 0); [reflexivity|].
  destruct (Z.geb_spec index (slideCount c)); [reflexivity|].
  destruct H as [H|[H|[H|H]]]; [discriminate|contradiction|lia|lia].
Qed.

Lemma goToSlide_cases index c :
  wellFormed c ->
  (goToSlide index c = c)
  \/ (isTransitioning c = false /\ index <> currentIndex c
      /\ 0 <= index < slideCount c).
Proof.
  intros Hwf. destruct (isTransitioning c) eqn:Htr.
  { left. apply goToSlide_stays. auto. }
  destruct (Z.eq_dec index (currentIndex c)).
  { left. apply goToSlide_stays. auto. }
  destruct (Z_lt_dec index 0).
  { left. apply goToSlide_stays. auto. }
  destruct (Z_le_dec (slideCount c) index).
  { left. apply goToSlide_stays. auto. }
  right. repeat split; auto; lia.
Qed.

Lemma wellFormed_goToSlide index c :
  wellFormed c -> wellFormed (goToSlide index c).
Proof.
  intros Hwf. destruct (goToSlide_cases index c Hwf) as [->|(Htr & Hne & Hr)];
    [exact Hwf|].
  rewrite goToSlide_moves by assumption. constructor; cbn.
  - unfold slideCount. cbn. rewrite length_imap. exact Hr.
  - intros i s. apply (updateCarousel_slides index true c).
  - intros i d. apply (updateCarousel_indicators index true c).
  - eauto.
  - eauto.
Qed.

Lemma wellFormed_navigate direction c :
  wellFormed c -> wellFormed (navigate direction c).
Proof.
  intros Hwf. unfold navigate. destruct (isTransitioning c); [exact Hwf|].
  apply wellFormed_goToSlide, Hwf.
Qed.

Lemma wellFormed_handleKeyboard key c :
  wellFormed c -> wellFormed (handleKeyboard key c).
Proof.
  intros Hwf. unfold handleKeyboard.
  repeat match goal with
         | |- context [if ?b then _ else _] => destruct b
         end;
    auto using wellFormed_navigate, wellFormed_goToSlide.
Qed.

Lemma wellFormed_transitionEnd c :
  wellFormed c -> wellFormed (step TimeoutFires c).
Proof.
  intros Hwf. cbn [step].
  destruct (timeouts c) as [|[t index] rest] eqn:Hto; [exact Hwf|].
  destruct Hwf as [Hi Hs Hd Ht Hp].
  destruct (isTransitioning c); [|congruence].
  destruct Hp as (t' & Hp). rewrite Hp in Hto. injection Hto as <- <- <-.
  constructor; cbn; auto. rewrite Hp. reflexivity.
Qed.

Lemma wellFormed_step e c : wellFormed c -> wellFormed (step e c).
Proof.
  intros Hwf. destruct e;
    try (apply wellFormed_transitionEnd; exact Hwf); cbn [step].
  - apply wellFormed_navigate, Hwf.
  - apply wellFormed_navigate, Hwf.
  - destruct (i <? length (indicators c))%nat;
      [apply wellFormed_goToSlide|]; exact Hwf.
  - apply wellFormed_handleKeyboard, Hwf.
  - apply wellFormed_setPaused, Hwf.
  - apply wellFormed_setPaused, Hwf.
  - apply wellFormed_setPaused, Hwf.
  - apply wellFormed_setPaused, Hwf.
  - destruct hidden; apply wellFormed_setPaused, Hwf.
  - apply wellFormed_handleResize, Hwf.
  - unfold handleTouchStart. destruct (negb (touches =? 1)%nat);
      [|apply wellFormed_setPaused]; exact Hwf.
  - unfold handleTouchEnd. apply wellFormed_setPaused.
    destruct swipe; [apply wellFormed_navigate|]; exact Hwf.
  - destruct (existsb (Pos.eqb id) (intervals c)); [|exact Hwf].
    unfold autoPlayTick.
    destruct (negb (isPaused c) && negb (isTransitioning c));
      [apply wellFormed_navigate|]; exact Hwf.
Qed.

Lemma wellFormed_run events c : wellFormed c -> wellFormed (run events c).
Proof.
  revert c. induction events as [|e events IH]; intros c Hwf; [exact Hwf|].
  apply IH, wellFormed_step, Hwf.
Qed.

Lemma reachable_wellFormed c : reachable c -> wellFormed c.
Proof.
  intros (track & s0 & i0 & l0 & t & c0 & events & Hc & ->).
  apply wellFormed_run. eapply wellFormed_construct. exact Hc.
Qed.

Lemma sampleCarousel_reachable events :
  reachable (run events sampleCarousel).
Proof.
  exists true, [sampleSlide; sampleSlide; sampleSlide],
    [sampleIndicator; sampleIndicator; sampleIndicator; sampleIndicator],
    (Some []), 7%positive, sampleCarousel, events.
  split; reflexivity.
Qed.

(** X24: whatever events a carousel has handled since its construction,
    [currentIndex] is the index of a slide; that slide alone is active, not
    hidden from assistive technology and in the tab order, and the
    indicator of that index alone is pressed. *)
Theorem carousel_marks_current_slide (c : Carousel) :
  reachable c ->
  0 <= currentIndex c < slideCount c
  /\ (forall i s, slides c !! i = Some s ->
        shown s = (Z.of_nat i =? currentIndex c)
        /\ hiddenSlide s = negb (Z.of_nat i =? currentIndex c))
  /\ (forall i d, indicators c !! i = Some d ->
        pressed d = (Z.of_nat i =? currentIndex c)
        /\ released d = negb (Z.of_nat i =? currentIndex c)).
Proof.
  intros Hr. destruct (reachable_wellFormed c Hr) as [Hi Hs Hd _ _].
  split; [exact Hi|]. split; [|exact Hd].
  intros i s H. destruct (Hs i s H) as (H1 & H2 & _). auto.
Qed.

Lemma carousel_marks_current_slide_witness :
  let c := run [ClickNext; TimeoutFires; KeyDown (js "End"); Resize]
             sampleCarousel in
  0 <= currentIndex c < slideCount c
  /\ (forall i s, slides c !! i = Some s ->
        shown s = (Z.of_nat i =? currentIndex c)
        /\ hiddenSlide s = negb (Z.of_nat i =? currentIndex c))
  /\ (forall i d, indicators c !! i = Some d ->
        pressed d = (Z.of_nat i =? currentIndex c)
        /\ released d = negb (Z.of_nat i =? currentIndex c)).
Proof.
  apply (carousel_marks_current_slide
           (run [ClickNext; TimeoutFires; KeyDown (js "End"); Resize]
              sampleCarousel)).
  exists true, [sampleSlide; sampleSlide; sampleSlide],
    [sampleIndicator; sampleIndicator; sampleIndicator; sampleIndicator],
    (Some []), 7%positive, sampleCarousel,
    [ClickNext; TimeoutFires; KeyDown (js "End"); Resize].
  split; reflexivity.
Defined.

(** X25: whatever events a carousel has handled since its construction, one
    interval is live, the one [autoPlayTimer] holds; a timeout is pending
    exactly while [isTransitioning] is true, and it is the one of the
    current slide. *)
Theorem carousel_timers (c : Carousel) :
  reachable c ->
  (exists id, autoPlayTimer c = Some id /\ intervals c = [id])
  /\ (isTransitioning c = true ->
      exists t, timeouts c = [(t, currentIndex c)])
  /\ (isTransitioning c = false -> timeouts c = []).
Proof.
  intros Hr. destruct (reachable_wellFormed c Hr) as [_ _ _ Ht Hp].
  split; [exact Ht|].
  destruct (isTransitioning c); split; intros H;
    solve [exact Hp | discriminate H].
Qed.

Lemma carousel_timers_witness :
  let c := run [ClickNext; MouseEnter; ClickNext] sampleCarousel in
  (exists id, autoPlayTimer c = Some id /\ intervals c = [id])
  /\ (isTransitioning c = true ->
      exists t, timeouts c = [(t, currentIndex c)])
  /\ (isTransitioning c = false -> timeouts c = []).
Proof.
  apply (carousel_timers (run [ClickNext; MouseEnter; ClickNext]
                            sampleCarousel)).
  exists true, [sampleSlide; sampleSlide; sampleSlide],
    [sampleIndicator; sampleIndicator; sampleIndicator; sampleIndicator],
    (Some []), 7%positive, sampleCarousel, [ClickNext; MouseEnter; ClickNext].
  split; reflexivity.
Defined.

Lemma navigate_transitioning direction c :
  isTransitioning c = true -> navigate direction c = c.
Proof. intros H. unfold navigate. rewrite H. reflexivity. Qed.

Lemma goToSlide_transitioning index c :
  isTransitioning c = true -> goToSlide index c = c.
Proof. intros H. apply goToSlide_stays. auto. Qed.

(** X26: during a transition, a click on a button or an indicator, a key
    and a tick of the auto-play leave the carousel as it is; so does a tick
    of the auto-play while the carousel is paused. *)
Theorem navigation_waits_for_transition (c : Carousel) (e : Event) :
  (isTransitioning c = true -> asksForSlide e = true -> step e c = c)
  /\ (isPaused c = true -> forall id, step (IntervalFires id) c = c).
Proof.
  split.
  - intros Htr He. destruct e; try discriminate He; cbn [step].
    + apply navigate_transitioning, Htr.
    + apply navigate_transitioning, Htr.
    + destruct (i <? length (indicators c))%nat;
        [apply goToSlide_transitioning, Htr|reflexivity].
    + unfold handleKeyboard.
      repeat match goal with
             | |- context [if ?b then _ else _] => destruct b
             end;
        auto using navigate_transitioning, goToSlide_transitioning.
    + destruct (existsb (Pos.eqb id) (intervals c)); [|reflexivity].
      unfold autoPlayTick. rewrite Htr, andb_false_r. reflexivity.
  - intros Hp id. cbn [step].
    destruct (existsb (Pos.eqb id) (intervals c)); [|reflexivity].
    unfold autoPlayTick. rewrite Hp. reflexivity.
Qed.

Lemma navigation_waits_for_transition_witness :
  let c := run [ClickNext] sampleCarousel in
  step (KeyDown (js "Home")) c = c
  /\ step (IntervalFires 9%positive) (step FocusIn sampleCarousel)
     = step FocusIn sampleCarousel.
Proof.
  split.
  - apply (navigation_waits_for_transition (run [ClickNext] sampleCarousel)
             (KeyDown (js "Home"))); reflexivity.
  - apply (navigation_waits_for_transition (step FocusIn sampleCarousel)
             ClickNext). reflexivity.
Defined.

(** X27: when the timeout of a transition fires, the transition is over, no
    timeout remains, the slides are as they were, and the live region, if
    the container has one, announces the number of the current slide. *)
Theorem transition_end_announces_current_slide (c : Carousel) :
  reachable c -> isTransitioning c = true ->
  let c' := step TimeoutFires c in
  isTransitioning c' = false /\ timeouts c' = []
  /\ currentIndex c' = currentIndex c /\ slides c' = slides c
  /\ (forall old, liveRegion c = Some old ->
      liveRegion c' = Some (announcement (currentIndex c') c')).
Proof.
  intros Hr Htr. destruct (reachable_wellFormed c Hr) as [_ _ _ _ Hp].
  rewrite Htr in Hp. destruct Hp as (t & Hp). cbn [step]. rewrite Hp.
  cbn. rewrite Hp. split; [reflexivity|]. split; [reflexivity|].
  split; [reflexivity|]. split; [reflexivity|].
  intros old ->. reflexivity.
Qed.

Lemma transition_end_announces_current_slide_witness :
  liveRegion (run [ClickNext; TimeoutFires] sampleCarousel)
  = Some (js "Showing testimonial 2 of 3").
Proof.
  destruct (transition_end_announces_current_slide
              (run [ClickNext] sampleCarousel)) as (_ & _ & _ & _ & H).
  - apply (sampleCarousel_reachable [ClickNext]).
  - reflexivity.
  - exact (H [] eq_refl).
Defined.

Lemma goToSlide_index index c :
  wellFormed c -> isTransitioning c = false -> 0 <= index < slideCount c ->
  currentIndex (goToSlide index c) = index.
Proof.
  intros Hwf Htr Hr. destruct (Z.eq_dec index (currentIndex c)) as [->|Hne].
  - rewrite goToSlide_stays by auto. reflexivity.
  - rewrite goToSlide_moves by assumption. reflexivity.
Qed.

Lemma slideCount_goToSlide index c :
  slideCount (goToSlide index c) = slideCount c.
Proof.
  unfold goToSlide.
  destruct (isTransitioning c || (index =? currentIndex c) || (index <? 0)
            || (index >=? slideCount c)); [reflexivity|].
  unfold resetAutoPlay, stopAutoPlay, startAutoPlay, slideCount,
    updateCarousel.
  cbn [autoPlayTimer slides].
  destruct (autoPlayTimer c); cbn [autoPlayTimer slides];
    rewrite length_imap; reflexivity.
Qed.

Lemma navigate_index direction c :
  wellFormed c -> isTransitioning c = false ->
  currentIndex (navigate direction c)
  = match direction with
    | prev => (currentIndex c - 1) mod slideCount c
    | next => (currentIndex c + 1) mod slideCount c
    end.
Proof.
  intros Hwf Htr. pose proof (wf_index c Hwf) as Hi.
  unfold navigate. rewrite Htr.
  destruct direction.
  - rewrite Z.rem_mod_nonneg by lia.
    replace ((currentIndex c - 1 + slideCount c) mod slideCount c)
      with ((currentIndex c - 1) mod slideCount c)
      by (rewrite <- (Z_mod_plus_full (currentIndex c - 1) 1 (slideCount c));
          f_equal; lia).
    apply goToSlide_index; auto. apply Z.mod_pos_bound. lia.
  - rewrite Z.rem_mod_nonneg by lia.
    apply goToSlide_index; auto. apply Z.mod_pos_bound. lia.
Qed.

Lemma slideCount_navigate direction c :
  slideCount (navigate direction c) = slideCount c.
Proof.
  unfold navigate. destruct (isTransitioning c); [reflexivity|].
  apply slideCount_goToSlide.
Qed.

Lemma transitionEnd_settles c :
  wellFormed c ->
  isTransitioning (step TimeoutFires c) = false
  /\ currentIndex (step TimeoutFires c) = currentIndex c
  /\ slideCount (step TimeoutFires c) = slideCount c.
Proof.
  intros [_ _ _ _ Hp]. cbn [step].
  destruct (isTransitioning c) eqn:Htr.
  - destruct Hp as (t & ->). cbn. auto.
  - rewrite Hp. auto.
Qed.

Lemma advance_index c :
  wellFormed c -> isTransitioning c = false ->
  wellFormed (advance c) /\ isTransitioning (advance c) = false
  /\ currentIndex (advance c) = (currentIndex c + 1) mod slideCount c
  /\ slideCount (advance c) = slideCount c.
Proof.
  intros Hwf Htr. unfold advance.
  assert (Hwf' : wellFormed (step ClickNext c)) by (apply wellFormed_step, Hwf).
  destruct (transitionEnd_settles _ Hwf') as (H1 & H2 & H3).
  split; [apply wellFormed_step, Hwf'|]. split; [exact H1|].
  rewrite H2, H3. cbn [step].
  rewrite (navigate_index next c Hwf Htr), slideCount_navigate. auto.
Qed.

Lemma iter_advance_index k c :
  wellFormed c -> isTransitioning c = false ->
  wellFormed (Nat.iter k advance c)
  /\ isTransitioning (Nat.iter k advance c) = false
  /\ currentIndex (Nat.iter k advance c)
     = (currentIndex c + Z.of_nat k) mod slideCount c
  /\ slideCount (Nat.iter k advance c) = slideCount c.
Proof.
  intros Hwf Htr. pose proof (wf_index c Hwf) as Hi.
  induction k as [|k (IH1 & IH2 & IH3 & IH4)].
  - change (Nat.iter 0 advance c) with c.
    rewrite Z.add_0_r, Z.mod_small by lia. auto.
  - change (Nat.iter (S k) advance c) with (advance (Nat.iter k advance c)).
    destruct (advance_index _ IH1 IH2) as (H1 & H2 & H3 & H4).
    rewrite H3, H4, IH3, IH4.
    split; [exact H1|]. split; [exact H2|]. split; [|reflexivity].
    rewrite Zplus_mod_idemp_l. f_equal. lia.
Qed.

(** X28: outside a transition, next moves to the index after the current
    one modulo the number of slides; previous after next, and as many next
    as there are slides, lead back to the current slide. *)
Theorem navigation_wraps_around (c : Carousel) :
  reachable c -> isTransitioning c = false ->
  currentIndex (advance c) = (currentIndex c + 1) mod slideCount c
  /\ currentIndex (step ClickPrev (advance c)) = currentIndex c
  /\ currentIndex (Nat.iter (length (slides c)) advance c) = currentIndex c.
Proof.
  intros Hr Htr. pose proof (reachable_wellFormed c Hr) as Hwf.
  pose proof (wf_index c Hwf) as Hi.
  destruct (advance_index c Hwf Htr) as (H1 & H2 & H3 & H4).
  split; [exact H3|]. split.
  - cbn [step]. rewrite (navigate_index prev _ H1 H2), H3, H4.
    rewrite Zminus_mod_idemp_l.
    replace (currentIndex c + 1 - 1) with (currentIndex c) by lia.
    apply Z.mod_small. lia.
  - destruct (iter_advance_index (length (slides c)) c Hwf Htr)
      as (_ & _ & H & _).
    rewrite H. fold (slideCount c).
    rewrite <- (Z.mul_1_l (slideCount c)) at 1.
    rewrite Z_mod_plus_full. apply Z.mod_small. lia.
Qed.

Lemma navigation_wraps_around_witness :
  let c := run [ClickIndicator 2; TimeoutFires] sampleCarousel in
  currentIndex (advance c) = 0
  /\ currentIndex (step ClickPrev (advance c)) = 2
  /\ currentIndex (Nat.iter 3 advance c) = 2.
Proof.
  apply (navigation_wraps_around
           (run [ClickIndicator 2; TimeoutFires] sampleCarousel)).
  - apply (sampleCarousel_reachable [ClickIndicator 2; TimeoutFires]).
  - reflexivity.
Defined.

(** X29: outside a transition, a click on an indicator moves to the slide
    of its index when there is one and changes nothing otherwise; Home moves
    to the first slide and End to the last. *)
Theorem goes_to_the_slide_asked_for (c : Carousel) :
  reachable c -> isTransitioning c = false ->
  (forall i, (i < length (indicators c))%nat ->
     if Z.of_nat i <? slideCount c
     then currentIndex (step (ClickIndicator i) c) = Z.of_nat i
     else step (ClickIndicator i) c = c)
  /\ currentIndex (step (KeyDown (js "Home")) c) = 0
  /\ currentIndex (step (KeyDown (js "End")) c) = slideCount c - 1.
Proof.
  intros Hr Htr. pose proof (reachable_wellFormed c Hr) as Hwf.
  pose proof (wf_index c Hwf) as Hi.
  split; [|split].
  - intros i Hlt. cbn [step].
    destruct (Nat.ltb_spec i (length (indicators c))); [|lia].
    destruct (Z.ltb_spec (Z.of_nat i) (slideCount c)).
    + apply goToSlide_index; auto. lia.
    + apply goToSlide_stays. auto.
  - change (step (KeyDown (js "Home")) c) with (goToSlide 0 c).
    apply goToSlide_index; auto. lia.
  - change (step (KeyDown (js "End")) c)
      with (goToSlide (slideCount c - 1) c).
    apply goToSlide_index; auto. lia.
Qed.

Lemma goes_to_the_slide_asked_for_witness :
  step (ClickIndicator 3) sampleCarousel = sampleCarousel
  /\ currentIndex (step (KeyDown (js "End")) sampleCarousel) = 2.
Proof.
  destruct (goes_to_the_slide_asked_for sampleCarousel) as (H1 & _ & H3).
  - apply (sampleCarousel_reachable []).
  - reflexivity.
  - split; [|exact H3]. apply (H1 3%nat). cbn. lia.
Defined.

Lemma goToSlide_restarts index c :
  isTransitioning c = false -> index <> currentIndex c ->
  0 <= index < slideCount c ->
  autoPlayTimer c = None -> intervals c = [] ->
  exists id, autoPlayTimer (goToSlide index c) = Some id
             /\ intervals (goToSlide index c) = [id].
Proof.
  intros Htr Hne Hr Ht Hl. unfold goToSlide. rewrite Htr.
  destruct (Z.eqb_spec index (currentIndex c)); [contradiction|].
  destruct (Z.ltb_spec index 0); [lia|].
  destruct (Z.geb_spec index (slideCount c)); [lia|].
  cbn [orb]. unfold resetAutoPlay, stopAutoPlay, updateCarousel.
  cbn [autoPlayTimer]. rewrite Ht. unfold startAutoPlay.
  cbn [autoPlayTimer intervals nextTimer]. rewrite ?Ht, ?Hl.
  cbn [autoPlayTimer intervals]. rewrite ?Hl. eauto.
Qed.

Lemma destroy_fields c :
  wellFormed c ->
  autoPlayTimer (destroy c) = None /\ intervals (destroy c) = []
  /\ slides (destroy c) = map destroySlide (slides c)
  /\ isTransitioning (destroy c) = isTransitioning c
  /\ currentIndex (destroy c) = currentIndex c
  /\ slideCount (destroy c) = slideCount c
  /\ timeouts (destroy c) = timeouts c.
Proof.
  intros Hwf. destruct (wf_timer c Hwf) as (id & Ht & Hl).
  unfold slideCount, destroy, stopAutoPlay. rewrite Ht.
  cbn [autoPlayTimer intervals slides isTransitioning currentIndex timeouts].
  rewrite Hl, length_map. cbn [List.filter]. rewrite Pos.eqb_refl.
  repeat split; reflexivity.
Qed.

Lemma next_index_differs c :
  0 <= currentIndex c < slideCount c -> 2 <= slideCount c ->
  0 <= (currentIndex c + 1) mod slideCount c < slideCount c
  /\ (currentIndex c + 1) mod slideCount c <> currentIndex c.
Proof.
  intros Hi Hn. split; [apply Z.mod_pos_bound; lia|].
  destruct (Z.eq_dec (currentIndex c + 1) (slideCount c)) as [E|E].
  - rewrite E, Z_mod_same_full. lia.
  - rewrite Z.mod_small by lia. lia.
Qed.

Lemma next_restarts c :
  isTransitioning c = false ->
  0 <= currentIndex c < slideCount c -> 2 <= slideCount c ->
  autoPlayTimer c = None -> intervals c = [] ->
  exists id, autoPlayTimer (step ClickNext c) = Some id
             /\ intervals (step ClickNext c) = [id].
Proof.
  intros Htr Hi Hn Ht Hl. cbn [step]. unfold navigate.
  rewrite Htr, Z.rem_mod_nonneg by lia.
  destruct (next_index_differs c Hi Hn) as [Hm Hne].
  apply goToSlide_restarts; auto.
Qed.

(** X30: [destroy] clears the auto-play interval and strips the slides of
    the attributes and classes the carousel set; it removes no listener and
    leaves the timeout of a transition pending.  With two slides or more, a
    later click on next starts the auto-play again: at once outside a
    transition; during one the click is ignored, and the auto-play starts
    with the first click after the timeout has fired. *)
Theorem destroy_stops_until_next_navigation (c : Carousel) :
  reachable c ->
  let d := destroy c in
  autoPlayTimer d = None /\ intervals d = []
  /\ (forall i s, slides d !! i = Some s ->
        aria_hidden s = None /\ tabindex s = None
        /\ class_active s = false /\ class_previous s = false
        /\ class_next s = false)
  /\ (2 <= slideCount c ->
      if isTransitioning c
      then step ClickNext d = d
           /\ exists id,
                autoPlayTimer (step ClickNext (step TimeoutFires d)) = Some id
                /\ intervals (step ClickNext (step TimeoutFires d)) = [id]
      else exists id, autoPlayTimer (step ClickNext d) = Some id
                      /\ intervals (step ClickNext d) = [id]).
Proof.
  intros Hr d. pose proof (reachable_wellFormed c Hr) as Hwf.
  pose proof (wf_index c Hwf) as Hi.
  pose proof (wf_timeouts c Hwf) as Hp.
  destruct (destroy_fields c Hwf) as (Ht & Hl & Hs & Htr' & Hc & Hn' & Hto).
  fold d in Ht, Hl, Hs, Htr', Hc, Hn', Hto.
  split; [exact Ht|]. split; [exact Hl|]. split.
  - intros i s. rewrite Hs, list_lookup_fmap.
    destruct (slides c !! i); simpl; [|discriminate].
    intros [= <-]. cbn. auto.
  - intros Hn. destruct (isTransitioning c) eqn:Htr.
    + split; [apply navigate_transitioning; exact Htr'|].
      destruct Hp as (t & Hp).
      assert (Hd : step TimeoutFires d
                   = transitionEnd (currentIndex c) (dropTimeout d))
        by (cbn [step]; rewrite Hto, Hp; reflexivity).
      rewrite Hd.
      set (d' := transitionEnd (currentIndex c) (dropTimeout d)).
      assert (Hc' : currentIndex d' = currentIndex d) by reflexivity.
      assert (Hs' : slideCount d' = slideCount d) by reflexivity.
      assert (Ht' : autoPlayTimer d' = autoPlayTimer d) by reflexivity.
      assert (Hl' : intervals d' = intervals d) by reflexivity.
      apply next_restarts; rewrite ?Hc', ?Hs', ?Ht', ?Hl', ?Hc, ?Hn';
        auto.
    + apply next_restarts; rewrite ?Hc, ?Hn'; auto.
Qed.

Lemma destroy_stops_until_next_navigation_witness :
  intervals (destroy sampleCarousel) = []
  /\ intervals (step ClickNext (destroy sampleCarousel)) = [9%positive]
  /\ step ClickNext (destroy (step ClickNext sampleCarousel))
     = destroy (step ClickNext sampleCarousel).
Proof.
  destruct (destroy_stops_until_next_navigation sampleCarousel)
    as (_ & H2 & _ & H4).
  { apply (sampleCarousel_reachable []). }
  destruct (destroy_stops_until_next_navigation
              (step ClickNext sampleCarousel)) as (_ & _ & _ & H5).
  { apply (sampleCarousel_reachable [ClickNext]). }
  split; [exact H2|]. split; [reflexivity|].
  apply H5. vm_compute. discriminate.
Defined.

End TestimonialsFacts.
